(** * Obsidian AI OCR Formatter: a shallow embedding of [src/main.ts]

    The plugin runs a two-stage pipeline: a remote OCR call whose multi-page
    answer is folded into one Markdown text plus a table of images
    ([performMistralOCR]), and a remote completion call whose answer is
    repaired, validated and normalised ([formatText], [cleanLatexDelimiters]).

    JavaScript strings are sequences of UTF-16 code units; they are modelled
    as [list N].  Regular expressions are modelled by a small backtracking
    matcher that follows the ECMAScript priority order (greedy and lazy
    stars, leftmost match), so that the text rewrites below are written the
    way the source writes them. *)

From Stdlib Require Import String Ascii.
From Stdlib Require Import DecimalString.
From Stdlib Require Import List NArith Arith Bool Lia.
Import ListNotations.

Set Implicit Arguments.

Open Scope N_scope.
Open Scope list_scope.

(** ** JavaScript strings *)

Module JS.

Definition jsstring := list N.

(** An ASCII literal of the source as code units. *)
Definition lit (s : string) : jsstring :=
  List.map N_of_ascii (list_ascii_of_string s).

Definition LF : N := 10.
Definition CR : N := 13.
Definition SP : N := 32.
Definition QUOTE : N := 34.
Definition BSLASH : N := 92.

Definition in_range (lo hi c : N) : bool := (lo <=? c) && (c <=? hi).

(** [LineTerminator] of ECMAScript: what [.] refuses without the [s] flag. *)
Definition is_line_terminator (c : N) : bool :=
  (c =? 10) || (c =? 13) || (c =? 0x2028) || (c =? 0x2029).

(** [WhiteSpace] and [LineTerminator] of ECMAScript.  The class [\s] of a
    regular expression and [String.prototype.trim] use the same set. *)
Definition is_space (c : N) : bool :=
  in_range 9 13 c || (c =? 32) || (c =? 0xA0) || (c =? 0x1680)
  || in_range 0x2000 0x200A c || (c =? 0x2028) || (c =? 0x2029)
  || (c =? 0x202F) || (c =? 0x205F) || (c =? 0x3000) || (c =? 0xFEFF).

Fixpoint trimStart (s : jsstring) : jsstring :=
  match s with
  | c :: s' => if is_space c then trimStart s' else s
  | [] => []
  end.

Fixpoint trimEnd (s : jsstring) : jsstring :=
  match s with
  | c :: s' =>
      match trimEnd s' with
      | [] => if is_space c then [] else [c]
      | t => c :: t
      end
  | [] => []
  end.

(** [String.prototype.trim]. *)
Definition trim (s : jsstring) : jsstring := trimEnd (trimStart s).

Fixpoint eqb (s t : jsstring) : bool :=
  match s, t with
  | [], [] => true
  | a :: s', b :: t' => (a =? b) && eqb s' t'
  | _, _ => false
  end.

(** [s.startsWith(p)]. *)
Fixpoint startsWith (p s : jsstring) : bool :=
  match p, s with
  | [], _ => true
  | a :: p', b :: s' => (a =? b) && startsWith p' s'
  | _ :: _, [] => false
  end.

(** [s.split(sep)] for a separator of one code unit: the fields between
    the occurrences of [sep], at least one field. *)
Fixpoint split1 (sep : N) (s : jsstring) : list jsstring :=
  match s with
  | [] => [[]]
  | c :: s' =>
      if c =? sep then [] :: split1 sep s'
      else match split1 sep s' with
           | f :: fs => (c :: f) :: fs
           | [] => [[c]]
           end
  end.

(** Put [a] in front of the first component. *)
Definition cons_fst {A B} (a : A) (r : list A * B) : list A * B := (a :: fst r, snd r).

(** Truthiness of a string value: the empty string is falsy. *)
Definition truthy (s : jsstring) : bool :=
  match s with [] => false | _ :: _ => true end.

(** [a || b] on optional strings ([None] is [undefined]). *)
Definition or_else (a : option jsstring) (b : jsstring) : jsstring :=
  match a with
  | Some s => if truthy s then s else b
  | None => b
  end.

End JS.

Import JS.

(** ** Regular expressions *)

Module RegExp.

Definition cclass := N -> bool.

(** The patterns of the source are sequences of: one code unit of a class,
    a starred class (greedy [c*] or lazy [c*?]), and the assertions [^] and
    [$] (no [m] flag: start and end of the whole input). *)
Inductive atom : Type :=
| Chr (c : cclass)
| Rep (greedy : bool) (c : cclass)
| Bol
| Eol.

Definition pattern := list atom.

(** A successful match: the text consumed by each atom, in order, and the
    input that is left.  A capture group around an atom is the piece of
    that atom. *)
Definition result := (list jsstring * jsstring)%type.

Definition push (pc : jsstring) (r : result) : result :=
  (pc :: fst r, snd r).

Definition grow (x : N) (r : result) : result :=
  match fst r with
  | pc :: pcs => ((x :: pc) :: pcs, snd r)
  | [] => ([[x]], snd r)
  end.

(** [run p at0 s]: match [p] against a prefix of [s], backtracking in the
    order of ECMAScript; [at0] tells whether [s] is the whole input. *)
Fixpoint run (p : pattern) (at0 : bool) (s : jsstring) {struct p}
  : option result :=
  match p with
  | [] => Some ([], s)
  | Chr c :: p' =>
      match s with
      | x :: s' => if c x then option_map (push [x]) (run p' false s') else None
      | [] => None
      end
  | Rep g c :: p' =>
      (fix star (at0 : bool) (s : jsstring) {struct s} : option result :=
         if g then
           match
             match s with
             | x :: s' => if c x then option_map (grow x) (star false s') else None
             | [] => None
             end
           with
           | Some r => Some r
           | None => option_map (push []) (run p' at0 s)
           end
         else
           match option_map (push []) (run p' at0 s) with
           | Some r => Some r
           | None =>
               match s with
               | x :: s' => if c x then option_map (grow x) (star false s') else None
               | [] => None
               end
           end) at0 s
  | Bol :: p' => if at0 then option_map (push []) (run p' at0 s) else None
  | Eol :: p' =>
      match s with
      | [] => option_map (push []) (run p' at0 s)
      | _ :: _ => None
      end
  end.

(** [String.prototype.replace] with a global pattern and a replacement
    function: the matches are found from left to right, each search
    starting where the previous match ended (one code unit further after an
    empty match). *)
Fixpoint replace_from (fuel : nat) (p : pattern) (f : list jsstring -> jsstring)
  (at0 : bool) (s : jsstring) : jsstring :=
  match fuel with
  | O => s
  | S k =>
      match run p at0 s with
      | Some (pcs, rest) =>
          if (length rest <? length s)%nat
          then f pcs ++ replace_from k p f false rest
          else f pcs ++ match s with
                        | [] => []
                        | x :: s' => x :: replace_from k p f false s'
                        end
      | None =>
          match s with
          | [] => []
          | x :: s' => x :: replace_from k p f false s'
          end
      end
  end.

Definition replace_all (p : pattern) (f : list jsstring -> jsstring)
  (s : jsstring) : jsstring :=
  replace_from (S (length s)) p f true s.

(** [String.prototype.replace] with a pattern without the [g] flag: only
    the leftmost match is replaced. *)
Fixpoint replace_first_from (p : pattern) (f : list jsstring -> jsstring)
  (at0 : bool) (s : jsstring) : jsstring :=
  match run p at0 s with
  | Some (pcs, rest) => f pcs ++ rest
  | None =>
      match s with
      | [] => []
      | x :: s' => x :: replace_first_from p f false s'
      end
  end.

Definition replace_first (p : pattern) (f : list jsstring -> jsstring)
  (s : jsstring) : jsstring :=
  replace_first_from p f true s.

(** Character classes. *)
Definition one (c : N) : cclass := fun x => x =? c.
Definition any : cclass := fun _ => true.                 (* [\s\S] *)
Definition dot : cclass := fun x => negb (is_line_terminator x).   (* . *)
Definition space : cclass := is_space.                     (* \s *)

(** An ASCII letter under the [i] flag: both cases of the letter.  (Without
    the [u] flag no code unit outside ASCII canonicalizes to an ASCII
    letter.) *)
Definition one_ci (c : N) : cclass :=
  fun x =>
    (x =? c)
    || (in_range 97 122 c && (x =? c - 32))
    || (in_range 65 90 c && (x =? c + 32)).

Definition chars (s : jsstring) : pattern := List.map (fun c => Chr (one c)) s.
Definition chars_ci (s : jsstring) : pattern := List.map (fun c => Chr (one_ci c)) s.

End RegExp.

Import RegExp.

(** ** The LaTeX delimiter canonicalizer *)

(** [/\u00A0/g] *)
Definition re_nbsp : pattern := [Chr (one 0xA0)].

(** [/[\u2000-\u200B\u202F\u205F\u3000]/g] *)
Definition is_odd_space (c : N) : bool :=
  in_range 0x2000 0x200B c || (c =? 0x202F) || (c =? 0x205F) || (c =? 0x3000).
Definition re_odd_space : pattern := [Chr is_odd_space].

(** [/\\\[\s*([\s\S]*?)\s*\\\]/g]; the group is piece 3. *)
Definition re_block : pattern :=
  [Chr (one 92); Chr (one 91); Rep true space; Rep false any; Rep true space;
   Chr (one 92); Chr (one 93)].

(** [/\\\(\s*(.*?)\s*\\\)/g]; the group is piece 3. *)
Definition re_inline : pattern :=
  [Chr (one 92); Chr (one 40); Rep true space; Rep false dot; Rep true space;
   Chr (one 92); Chr (one 41)].

Definition group1 (pcs : list jsstring) : jsstring := nth 3 pcs [].

Definition block_repl (pcs : list jsstring) : jsstring :=
  lit "$$" ++ [LF] ++ trim (group1 pcs) ++ [LF] ++ lit "$$".

Definition inline_repl (pcs : list jsstring) : jsstring :=
  lit "$" ++ trim (group1 pcs) ++ lit "$".

Definition cleanLatexDelimiters (text : jsstring) : jsstring :=
  if negb (truthy text) then text
  else
    let text := replace_all re_nbsp (fun _ => [SP]) text in
    let text := replace_all re_odd_space (fun _ => [SP]) text in
    let text := replace_all re_block block_repl text in
    let text := replace_all re_inline inline_repl text in
    text.

(** ** Delimiter pairs, read from left to right

    A description of the two delimiter rewrites that does not go through
    the matcher: an opening delimiter is paired with the nearest closing
    delimiter that follows it. *)

Module Scan.

(** The nearest closing delimiter [\c] of [s]: the text before it and the
    text after it. *)
Fixpoint find_close (c : N) (s : jsstring) : option (jsstring * jsstring) :=
  match s with
  | a :: s' =>
      match s' with
      | b :: t =>
          if (a =? 92) && (b =? c) then Some ([], t)
          else option_map (cons_fst a) (find_close c s')
      | [] => None
      end
  | [] => None
  end.

(** [s] starts with the opening delimiter [\opn] and a closing delimiter
    [\cls] follows: the text between them and the text after the pair. *)
Definition pair_at (opn cls : N) (s : jsstring) : option (jsstring * jsstring) :=
  match s with
  | a :: b :: t => if (a =? 92) && (b =? opn) then find_close cls t else None
  | _ => None
  end.

(** Rewrite, from left to right, every pair whose trimmed content passes
    [ok] into [wrap] of the trimmed content; the search goes on after the
    closing delimiter.  Every other code unit is copied. *)
Fixpoint rewrite_pairs (fuel : nat) (opn cls : N) (ok : jsstring -> bool)
  (wrap : jsstring -> jsstring) (s : jsstring) : jsstring :=
  match fuel with
  | O => s
  | S k =>
      match s with
      | [] => []
      | a :: s' =>
          match pair_at opn cls s with
          | Some (inner, rest) =>
              if ok (trim inner)
              then wrap (trim inner) ++ rewrite_pairs k opn cls ok wrap rest
              else a :: rewrite_pairs k opn cls ok wrap s'
          | None => a :: rewrite_pairs k opn cls ok wrap s'
          end
      end
  end.

Definition rewrite_all (opn cls : N) (ok : jsstring -> bool)
  (wrap : jsstring -> jsstring) (s : jsstring) : jsstring :=
  rewrite_pairs (S (length s)) opn cls ok wrap s.

(** Some opening delimiter [\opn] of [s] is followed by a closing
    delimiter [\cls]. *)
Fixpoint has_pair (opn cls : N) (s : jsstring) : bool :=
  match s with
  | [] => false
  | _ :: s' =>
      match pair_at opn cls s with
      | Some _ => true
      | None => has_pair opn cls s'
      end
  end.

Definition wrap_block (content : jsstring) : jsstring :=
  lit "$$" ++ [LF] ++ content ++ [LF] ++ lit "$$".

Definition wrap_inline (content : jsstring) : jsstring :=
  lit "$" ++ content ++ lit "$".

Definition single_line (content : jsstring) : bool :=
  forallb (fun c => negb (is_line_terminator c)) content.

(** Steps 1 and 2: the whitespace scrub. *)
Definition scrub (s : jsstring) : jsstring :=
  List.map (fun c => if is_odd_space c then SP else c)
    (List.map (fun c => if c =? 0xA0 then SP else c) s).

(** The whitespace characters the scrub replaces. *)
Definition disallowed_space (c : N) : bool := (c =? 0xA0) || is_odd_space c.

(** A text in canonical form: no delimiter pair of either kind is left and
    no disallowed whitespace character occurs. *)
Definition canonical_form (x : jsstring) : bool :=
  negb (existsb disallowed_space x)
  && negb (has_pair 91 93 x) && negb (has_pair 40 41 x).

Definition no_backslash (s : jsstring) : bool :=
  forallb (fun c => negb (c =? 92)) s.

(** No opening delimiter [\opn] starts inside [s], nor can one start at
    its last code unit. *)
Fixpoint no_open (opn : N) (s : jsstring) : bool :=
  match s with
  | [] => true
  | a :: s' =>
      match s' with
      | [] => negb (a =? 92)
      | b :: _ => negb ((a =? 92) && (b =? opn)) && no_open opn s'
      end
  end.

(** The delimiter [\c] occurs nowhere in [s]. *)
Definition free_of (c : N) (s : jsstring) : bool :=
  match find_close c s with
  | Some _ => false
  | None => true
  end.

(** None of the four delimiters [\(], [\)], [\[] and [\]] occurs in
    [s]. *)
Definition no_delimiter (s : jsstring) : bool :=
  free_of 40 s && free_of 41 s && free_of 91 s && free_of 93 s.

(** [X] put in front of the first component. *)
Definition prepend (X : jsstring) (p : jsstring * jsstring) : jsstring * jsstring :=
  (X ++ fst p, snd p).

(** The span [\( inner \)]. *)
Definition inline_span (inner : jsstring) : jsstring :=
  92 :: 40 :: inner ++ [92; 41].

Arguments inline_span : simpl never.

End Scan.

Import Scan.


(** The same, with the one restriction of the inline pattern: the trimmed
    content of a span lies on one line. *)
Definition canonicalize_lines (text : jsstring) : jsstring :=
  rewrite_all 40 41 single_line wrap_inline
    (rewrite_all 91 93 (fun _ => true) wrap_block (scrub text)).

(** ** The shape of the two delimiter patterns

    Both patterns are an opening delimiter, [\s*], a lazy group, [\s*] and
    a closing delimiter; they differ in the delimiters and in the class of
    the group. *)

Module Delim.

Definition tail_pat (cls : N) : pattern :=
  [Rep true space; Chr (one 92); Chr (one cls)].

Definition lazy_pat (body : cclass) (cls : N) : pattern :=
  Rep false body :: tail_pat cls.

Definition inner_pat (body : cclass) (cls : N) : pattern :=
  Rep true space :: lazy_pat body cls.

Definition delim_pat (opn cls : N) (body : cclass) : pattern :=
  Chr (one 92) :: Chr (one opn) :: inner_pat body cls.

(** Piece [k] of a match, and the input left. *)
Definition capture (k : nat) (r : option result) : option (jsstring * jsstring) :=
  option_map (fun r => (nth k (fst r) [], snd r)) r.

(** After whitespace, [s] goes on with the closing delimiter [\cls]: the
    text after it. *)
Definition closes_here (cls : N) (s : jsstring) : option jsstring :=
  match trimStart s with
  | a :: b :: rest => if (a =? 92) && (b =? cls) then Some rest else None
  | _ => None
  end.

(** What a delimiter pattern finds at the start of [s]: the trimmed
    content and the text after the pair. *)
Definition pair_match (opn cls : N) (body : cclass) (s : jsstring)
  : option (jsstring * jsstring) :=
  match pair_at opn cls s with
  | Some (inner, rest) =>
      if forallb body (trim inner) then Some (trim inner, rest) else None
  | None => None
  end.

End Delim.

Import Delim.

(** ** JavaScript objects used as maps

    [{ [id: string]: string }]: own string-keyed properties.  A property
    keeps the place of its first assignment; enumeration lists the keys that
    are canonical array indices first, in ascending order, and then the
    other keys in the order of their creation. *)

Module Obj.

Definition obj (V : Type) := list (jsstring * V).

Fixpoint get {V} (o : obj V) (k : jsstring) : option V :=
  match o with
  | [] => None
  | (k', v) :: o' => if JS.eqb k' k then Some v else get o' k
  end.

(** The own property [k] of [o] is given the value [v]; it is created,
    after the others, when [o] has none.  ([JSON.parse] builds its objects
    this way.) *)
Fixpoint define {V} (o : obj V) (k : jsstring) (v : V) : obj V :=
  match o with
  | [] => [(k, v)]
  | (k', v') :: o' => if JS.eqb k' k then (k', v) :: o' else (k', v') :: define o' k v
  end.

(** [o[k] = v] for an object [o] whose prototype is [Object.prototype] and
    a value [v] that is not an object (a string, in the plugin).  The key
    [__proto__] is special: where [o] has no own property of that name the
    assignment reaches the accessor of [Object.prototype], whose setter
    ignores such a value, and no property is created. *)
Definition set {V} (o : obj V) (k : jsstring) (v : V) : obj V :=
  if JS.eqb k (lit "__proto__")
  then match get o k with
       | Some _ => define o k v
       | None => o
       end
  else define o k v.

Definition is_digit (c : N) : bool := in_range 48 57 c.

Fixpoint digits_value (acc : N) (s : jsstring) : N :=
  match s with
  | [] => acc
  | c :: s' => digits_value (10 * acc + (c - 48)) s'
  end.

(** The value of a key that is a canonical array index: a decimal numeral
    without a leading zero, at most 2^32 - 2. *)
Definition array_index (k : jsstring) : option N :=
  match k with
  | [] => None
  | c :: k' =>
      if forallb is_digit k && (negb (c =? 48) || match k' with [] => true | _ => false end)
         && (length k <=? 10)%nat && (digits_value 0 k <=? 4294967294)
      then Some (digits_value 0 k)
      else None
  end.

Fixpoint insert_index {V} (n : N) (e : jsstring * V) (l : list (N * (jsstring * V)))
  : list (N * (jsstring * V)) :=
  match l with
  | [] => [(n, e)]
  | (m, e') :: l' => if n <=? m then (n, e) :: l else (m, e') :: insert_index n e l'
  end.

Fixpoint index_entries {V} (o : obj V) : list (N * (jsstring * V)) :=
  match o with
  | [] => []
  | e :: o' =>
      match array_index (fst e) with
      | Some n => insert_index n e (index_entries o')
      | None => index_entries o'
      end
  end.

Definition named_entries {V} (o : obj V) : obj V :=
  filter (fun e => match array_index (fst e) with Some _ => false | None => true end) o.

(** [Object.entries(o)] *)
Definition entries {V} (o : obj V) : list (jsstring * V) :=
  List.map snd (index_entries o) ++ named_entries o.

(** [Object.keys(o)] *)
Definition keys {V} (o : obj V) : list jsstring := List.map fst (entries o).

End Obj.

(** ** [JSON.parse] and the response schema

    [JSON.parse] is the ECMAScript built-in and [FormattedResponseSchema] a
    zod object schema.  Both are modelled here to the extent [formatText]
    depends on them: whether the text is a JSON document, and whether the
    document is an object with a string [formatted_markdown] and, when
    present, a numeric [confidence_score].  A number keeps its literal. *)

Module JSON.

#[local] Unset Elimination Schemes.

Inductive value : Type :=
| Null
| Bool (b : bool)
| Num (literal : jsstring)
| Str (s : jsstring)
| Arr (l : list value)
| Object (o : Obj.obj value).

#[local] Set Elimination Schemes.

Definition is_ws (c : N) : bool := (c =? 32) || (c =? 9) || (c =? 10) || (c =? 13).

Fixpoint skip_ws (s : jsstring) : jsstring :=
  match s with
  | c :: s' => if is_ws c then skip_ws s' else s
  | [] => []
  end.

Definition hex_value (c : N) : option N :=
  if in_range 48 57 c then Some (c - 48)
  else if in_range 97 102 c then Some (c - 87)
  else if in_range 65 70 c then Some (c - 55)
  else None.

Definition hex4 (a b c d : N) : option N :=
  match hex_value a, hex_value b, hex_value c, hex_value d with
  | Some x, Some y, Some z, Some w => Some (4096 * x + 256 * y + 16 * z + w)
  | _, _, _, _ => None
  end.

(** The one-letter escapes: quote, backslash, slash, b, f, n, r, t. *)
Definition escape (e : N) : option N :=
  if e =? 34 then Some 34
  else if e =? 92 then Some 92
  else if e =? 47 then Some 47
  else if e =? 98 then Some 8
  else if e =? 102 then Some 12
  else if e =? 110 then Some 10
  else if e =? 114 then Some 13
  else if e =? 116 then Some 9
  else None.

(** The characters of a string after its opening quote, up to and
    including the closing quote. *)
Fixpoint parse_chars (s : jsstring) : option (jsstring * jsstring) :=
  match s with
  | [] => None
  | c :: s' =>
      if c =? 34 then Some ([], s')
      else if c =? 92 then
        match s' with
        | [] => None
        | e :: s'' =>
            if e =? 117 then
              match s'' with
              | a :: b :: c' :: d :: r =>
                  match hex4 a b c' d with
                  | Some n => option_map (cons_fst n) (parse_chars r)
                  | None => None
                  end
              | _ => None
              end
            else
              match escape e with
              | Some n => option_map (cons_fst n) (parse_chars s'')
              | None => None
              end
        end
      else if c <? 32 then None
      else option_map (cons_fst c) (parse_chars s')
  end.

Fixpoint take_digits (s : jsstring) : jsstring * jsstring :=
  match s with
  | c :: s' => if Obj.is_digit c then cons_fst c (take_digits s') else ([], s)
  | [] => ([], [])
  end.

Definition parse_int (s : jsstring) : option (jsstring * jsstring) :=
  match s with
  | c :: s' =>
      if c =? 48 then Some ([48], s')
      else if in_range 49 57 c then Some (cons_fst c (take_digits s'))
      else None
  | [] => None
  end.

(** The code unit [c] at the head of [s]: the text after it. *)
Definition eat (c : N) (s : jsstring) : option jsstring :=
  match s with
  | x :: s' => if x =? c then Some s' else None
  | [] => None
  end.

Definition parse_frac (s : jsstring) : option (jsstring * jsstring) :=
  match eat 46 s with
  | Some s' =>
      match take_digits s' with
      | ([], _) => None
      | (ds, r) => Some (46 :: ds, r)
      end
  | None => Some ([], s)
  end.

Definition parse_exp (s : jsstring) : option (jsstring * jsstring) :=
  match s with
  | e :: s' =>
      if (e =? 101) || (e =? 69) then
        let '(sign, s1) :=
          match s' with
          | g :: s'' => if (g =? 43) || (g =? 45) then ([g], s'') else ([], s')
          | [] => ([], s')
          end in
        match take_digits s1 with
        | ([], _) => None
        | (ds, r) => Some (e :: sign ++ ds, r)
        end
      else Some ([], s)
  | [] => Some ([], s)
  end.

Definition parse_number (s : jsstring) : option (jsstring * jsstring) :=
  let '(minus, s0) :=
    match eat 45 s with
    | Some s' => ([45], s')
    | None => ([], s)
    end in
  match parse_int s0 with
  | None => None
  | Some (i, s1) =>
      match parse_frac s1 with
      | None => None
      | Some (f, s2) =>
          match parse_exp s2 with
          | None => None
          | Some (e, s3) => Some (minus ++ i ++ f ++ e, s3)
          end
      end
  end.

Definition expect (word : jsstring) (v : value) (s : jsstring)
  : option (value * jsstring) :=
  if startsWith word s then Some (v, skipn (length word) s) else None.

(** A value, the elements of an array after its bracket, the members of
    an object after its brace.  The fuel bounds the nesting and the
    number of elements; [parse] gives enough of it. *)
Fixpoint parse_value (fuel : nat) (s : jsstring) {struct fuel}
  : option (value * jsstring) :=
  match fuel with
  | O => None
  | S k =>
      match skip_ws s with
      | [] => None
      | c :: t =>
          if c =? 34 then
            option_map (fun r => (Str (fst r), snd r)) (parse_chars t)
          else if c =? 123 then
            match eat 125 (skip_ws t) with
            | Some r => Some (Object [], r)
            | None => option_map (fun r => (Object (fst r), snd r)) (parse_members k [] t)
            end
          else if c =? 91 then
            match eat 93 (skip_ws t) with
            | Some r => Some (Arr [], r)
            | None => option_map (fun r => (Arr (fst r), snd r)) (parse_elements k t)
            end
          else if c =? 116 then expect (lit "true") (Bool true) (c :: t)
          else if c =? 102 then expect (lit "false") (Bool false) (c :: t)
          else if c =? 110 then expect (lit "null") Null (c :: t)
          else option_map (fun r => (Num (fst r), snd r)) (parse_number (c :: t))
      end
  end

with parse_elements (fuel : nat) (s : jsstring) {struct fuel}
  : option (list value * jsstring) :=
  match fuel with
  | O => None
  | S k =>
      match parse_value k s with
      | None => None
      | Some (v, r) =>
          match eat 44 (skip_ws r) with
          | Some r' => option_map (cons_fst v) (parse_elements k r')
          | None =>
              match eat 93 (skip_ws r) with
              | Some r' => Some ([v], r')
              | None => None
              end
          end
      end
  end

with parse_members (fuel : nat) (acc : Obj.obj value) (s : jsstring) {struct fuel}
  : option (Obj.obj value * jsstring) :=
  match fuel with
  | O => None
  | S k =>
      match eat 34 (skip_ws s) with
      | None => None
      | Some t =>
          match parse_chars t with
          | None => None
          | Some (key, r) =>
              match eat 58 (skip_ws r) with
              | None => None
              | Some r' =>
                  match parse_value k r' with
                  | None => None
                  | Some (v, r'') =>
                      match eat 44 (skip_ws r'') with
                      | Some r3 => parse_members k (Obj.define acc key v) r3
                      | None =>
                          match eat 125 (skip_ws r'') with
                          | Some r3 => Some (Obj.define acc key v, r3)
                          | None => None
                          end
                      end
                  end
              end
          end
      end
  end.

(** [JSON.parse(text)]; [None] when it throws a [SyntaxError]. *)
Definition parse (text : jsstring) : option value :=
  match parse_value (2 * length text + 2) text with
  | Some (v, r) => match skip_ws r with [] => Some v | _ :: _ => None end
  | None => None
  end.

End JSON.

(** [FormattedResponseSchema.parse(parsedJson).formatted_markdown]; [None]
    when validation throws.  The schema is
    [z.object({ formatted_markdown: z.string(),
                confidence_score: z.number().optional() })]. *)
Definition FormattedResponseSchema_parse (v : JSON.value) : option jsstring :=
  match v with
  | JSON.Object o =>
      match Obj.get o (lit "formatted_markdown") with
      | Some (JSON.Str md) =>
          match Obj.get o (lit "confidence_score") with
          | None => Some md
          | Some (JSON.Num _) => Some md
          | Some _ => None
          end
      | _ => None
      end
  | _ => None
  end.

(** ** The host: network, vault, provider plugin

    The Mistral client, the Obsidian vault and workspace, the optional
    OpenRouter provider plugin and [requestUrl] are collaborators of the
    plugin.  They are operations on an abstract world [W]; an operation
    that can throw returns an [outcome].  Every call that leaves the plugin
    is also written to a trace, oldest event first. *)

Module Host.

(** The two values without properties. *)
Inductive nullish : Type := null | undefined.

(** A thrown value, as far as the plugin can tell one from another: its
    [catch] blocks log the value and read its [message] property inside a
    template literal, nothing else.  [Error message] stands for a value
    other than [null] and [undefined] whose [message] reads [message]
    there: an [Error] with that message (for a value without the property
    the text is [undefined]).  Reading the property of [null] or
    [undefined] throws a [TypeError]. *)
Inductive thrown : Type :=
| Error (message : jsstring)
| Nullish (value : nullish).

Inductive outcome (A : Type) : Type :=
| Ok (a : A)
| Throw (error : thrown).

Arguments Ok {A} a.
Arguments Throw {A} error.

Record AIOcrSettings : Type := {
  mistralApiKey : jsstring;
  language : jsstring;
  defaultPreset : jsstring;
  openRouterApiKey : jsstring;
  openRouterModel : jsstring;
  extractImages : bool;
  imageSubfolder : jsstring
}.

Record OCRImage : Type := {
  id : jsstring;
  imageBase64 : option jsstring
}.

Record OCRPage : Type := {
  markdown : option jsstring;
  images : option (list OCRImage)
}.

Record OCRResponse : Type := {
  pages : option (list OCRPage)
}.

Record OCRResult : Type := {
  result_markdown : jsstring;
  result_images : Obj.obj jsstring
}.

Record UploadRequest : Type := {
  fileName : jsstring;
  content_type : jsstring;
  content_bytes : list N;
  purpose : jsstring
}.

Record OcrRequest : Type := {
  ocr_model : jsstring;
  documentUrl : jsstring;
  includeImageBase64 : bool
}.

Record ChatRequest : Type := {
  model : jsstring;
  system_content : jsstring;
  user_content : jsstring
}.

Record HttpRequest : Type := {
  url : jsstring;
  authorization : jsstring;
  body : ChatRequest
}.

Inductive AbstractFile : Type := TFile | TFolder.

Inductive Event : Type :=
| Status (text : jsstring)
| Notice (text : jsstring)
| ConsoleError (text : jsstring) (error : thrown)
| FilesUpload (apiKey : jsstring) (req : UploadRequest)
| FilesGetSignedUrl (apiKey fileId : jsstring)
| OcrProcess (apiKey : jsstring) (req : OcrRequest)
| CreateFolder (path : jsstring)
| ModifyBinary (path : jsstring) (data : list N)
| CreateBinary (path : jsstring) (data : list N)
| FetchWithRetry (req : ChatRequest)
| RequestUrl (req : HttpRequest).

Definition is_network (e : Event) : bool :=
  match e with
  | FilesUpload _ _ | FilesGetSignedUrl _ _ | OcrProcess _ _
  | FetchWithRetry _ | RequestUrl _ => true
  | _ => false
  end.

Record Ops (W : Type) : Type := {
  (* the engine: the message of the [TypeError] thrown when the property
     [message] of [null] or of [undefined] is read *)
  TypeError_message : nullish -> jsstring;
  Date_now : W -> N;
  atob : jsstring -> outcome jsstring;
  base64ToArrayBuffer : jsstring -> outcome (list N);
  (* the Mistral client, by its API key *)
  files_upload : jsstring -> UploadRequest -> W -> W * outcome (option jsstring);
  files_getSignedUrl : jsstring -> jsstring -> W -> W * outcome jsstring;
  ocr_process : jsstring -> OcrRequest -> W -> W * outcome (option OCRResponse);
  (* the vault and the workspace *)
  getAbstractFileByPath : jsstring -> W -> option AbstractFile;
  createFolder : jsstring -> W -> W * outcome unit;
  modifyBinary : jsstring -> list N -> W -> W * outcome unit;
  createBinary : jsstring -> list N -> W -> W * outcome unit;
  activeFile_parent_path : W -> option jsstring;
  adapter_exists : jsstring -> W -> bool;
  adapter_read : jsstring -> W -> outcome jsstring;
  (* the provider plugin and the direct HTTP call; the answer is the
     string at [response.json.choices[0].message.content]; a response
     without it makes [formatText] throw at that access, inside the same
     [try] as the call, and is a [Throw] here *)
  provider_present : W -> bool;
  provider_getModel : jsstring -> W -> jsstring;
  provider_fetchWithRetry : ChatRequest -> W -> W * outcome jsstring;
  requestUrl : HttpRequest -> W -> W * outcome jsstring
}.

Record State (W : Type) : Type := {
  world : W;
  trace : list Event
}.

(** An [async] method of the plugin. *)
Definition M (W A : Type) : Type := State W -> State W * outcome A.

Definition ret {W A} (a : A) : M W A := fun st => (st, Ok a).

(** [throw new Error(message)] *)
Definition throw {W A} (message : jsstring) : M W A :=
  fun st => (st, Throw (Error message)).

Definition bind {W A B} (c : M W A) (k : A -> M W B) : M W B :=
  fun st =>
    match c st with
    | (st', Ok a) => k a st'
    | (st', Throw e) => (st', Throw e)
    end.

(** [try { c } catch (error) { h(error) }] *)
Definition try_catch {W A} (c : M W A) (h : thrown -> M W A) : M W A :=
  fun st =>
    match c st with
    | (st', Ok a) => (st', Ok a)
    | (st', Throw e) => h e st'
    end.

Definition emit {W} (e : Event) : M W unit :=
  fun st => ({| world := world st; trace := trace st ++ [e] |}, Ok tt).

(** A host operation that may change the world, with its trace event. *)
Definition call {W A} (e : Event) (op : W -> W * outcome A) : M W A :=
  fun st =>
    let '(w, r) := op (world st) in
    ({| world := w; trace := trace st ++ [e] |}, r).

(** A host operation that only reads the world. *)
Definition ask {W A} (f : W -> A) : M W A := fun st => (st, Ok (f (world st))).

Definition lift {W A} (r : outcome A) : M W A := fun st => (st, r).

(** [for (const x of l) { acc = step(acc, x) }] *)
Fixpoint for_of {W A B} (step : B -> A -> M W B) (l : list A) (acc : B) : M W B :=
  match l with
  | [] => ret acc
  | x :: l' => bind (step acc x) (for_of step l')
  end.

End Host.

Import Host.

Declare Scope js_scope.
Delimit Scope js_scope with js.
Notation "x <- c ;; k" := (bind c (fun x => k))
  (at level 61, c at next level, right associativity) : js_scope.
Notation "c ;;; k" := (bind c (fun _ => k))
  (at level 61, right associativity) : js_scope.



(** ** The plugin *)

Module Plugin.

Open Scope js_scope.

(** [`${n}`] for a non-negative integer. *)
Definition dec (n : N) : jsstring := lit (NilZero.string_of_uint (N.to_uint n)).

Definition DEFAULT_SETTINGS : AIOcrSettings := {|
  mistralApiKey := [];
  language := lit "German";
  defaultPreset := lit "Academic Blue";
  openRouterApiKey := [];
  openRouterModel := lit "google/gemini-2.0-flash-exp:free";
  extractImages := true;
  imageSubfolder := lit "assets"
|}.

Definition ACADEMIC_BLUE_PROMPT : jsstring :=
  lit "You are an expert academic note formatter." ++ [LF]
  ++ lit "Formatted markdown must be returned in JSON structure matching the schema.".

Definition zodInstruction : jsstring :=
  [LF] ++ lit "        output should be valid JSON matching this schema:"
  ++ [LF] ++ lit "        {"
  ++ [LF] ++ lit "          " ++ [QUOTE] ++ lit "formatted_markdown" ++ [QUOTE] ++ lit ": "
  ++ [QUOTE] ++ lit "string (The formatted content. Use Standard Markdown headers (#, ##). DO NOT use HTML tags like <details>, <summary>, or <div>. DO NOT repeat content. Use proper Callouts > [!...])" ++ [QUOTE] ++ lit ","
  ++ [LF] ++ lit "          " ++ [QUOTE] ++ lit "confidence_score" ++ [QUOTE] ++ lit ": "
  ++ [QUOTE] ++ lit "number (0-1)" ++ [QUOTE]
  ++ [LF] ++ lit "        }"
  ++ [LF] ++ lit "        Response MUST be pure JSON. Do not wrap in markdown code blocks."
  ++ [LF] ++ lit "        ".

(** The page separator of [performMistralOCR]. *)
Definition page_separator : jsstring := [LF; LF] ++ lit "---" ++ [LF; LF].

(** [/<think>[\s\S]*?<\/think>/gi] *)
Definition re_think : pattern :=
  chars_ci (lit "<think>") ++ [Rep false any] ++ chars_ci (lit "</think>").

(** [/^```json\s*/], [/^```/] and [/```$/] *)
Definition re_fence_json : pattern := [Bol] ++ chars (lit "```json") ++ [Rep true space].
Definition re_fence_open : pattern := [Bol] ++ chars (lit "```").
Definition re_fence_close : pattern := chars (lit "```") ++ [Eol].

Definition erase (_ : list jsstring) : jsstring := [].

(** The two cleaning statements of [formatText] on the completion text. *)
Definition strip_think (content : jsstring) : jsstring :=
  trim (replace_all re_think erase content).

Definition strip_fences (content : jsstring) : jsstring :=
  replace_first re_fence_close erase
    (replace_first re_fence_open erase
       (replace_first re_fence_json erase content)).

(** [FormattedResponseSchema.parse(JSON.parse(content)).formatted_markdown];
    [None] when either call throws. *)
Definition parse_formatted (content : jsstring) : option jsstring :=
  match JSON.parse content with
  | Some v => FormattedResponseSchema_parse v
  | None => None
  end.

(** One image of a page, in the [forEach] of [performMistralOCR]. *)
Definition add_image (imgs : Obj.obj jsstring) (image : OCRImage) : Obj.obj jsstring :=
  let imageName := id image in
  let base64Data := or_else (imageBase64 image) [] in
  let base64Data :=
    if startsWith (lit "data:") base64Data
    then nth_error (split1 44 base64Data) 1
    else Some base64Data in
  match base64Data with
  | Some d => if truthy d then Obj.set imgs imageName d else imgs
  | None => imgs
  end.

(** One page, with its index, in the [forEach] over the pages. *)
Definition add_page (extract : bool) (acc : jsstring * Obj.obj jsstring)
  (index : nat) (page : OCRPage) : jsstring * Obj.obj jsstring :=
  let md := fst acc in
  let md := if (0 <? index)%nat then md ++ page_separator else md in
  let md := md ++ or_else (markdown page) [] in
  let imgs :=
    match images page with
    | Some l => if extract && (0 <? length l)%nat then fold_left add_image l (snd acc) else snd acc
    | None => snd acc
    end in
  (md, imgs).

Fixpoint forEach_pages (extract : bool) (l : list OCRPage) (index : nat)
  (acc : jsstring * Obj.obj jsstring) : jsstring * Obj.obj jsstring :=
  match l with
  | [] => acc
  | page :: l' => forEach_pages extract l' (S index) (add_page extract acc index page)
  end.

(** Step 5 of [performMistralOCR]: the result from the OCR response. *)
Definition parse_results (extract : bool) (ocrResponse : option OCRResponse) : OCRResult :=
  let '(md, imgs) :=
    match ocrResponse with
    | Some r =>
        match pages r with
        | Some l => forEach_pages extract l 0%nat ([], [])
        | None => ([], [])
        end
    | None => ([], [])
    end in
  {| result_markdown := trim md; result_images := imgs |}.

(** The text of a page: [page.markdown || ""]. *)
Definition page_text (page : OCRPage) : jsstring := or_else (markdown page) [].

(** The pages of a response, none when the response or its page list is
    absent. *)
Definition response_pages (ocrResponse : option OCRResponse) : list OCRPage :=
  match ocrResponse with
  | Some r => match pages r with Some l => l | None => [] end
  | None => []
  end.

(** The images of a response, in the order of the pages. *)
Definition response_images (ocrResponse : option OCRResponse) : list OCRImage :=
  flat_map (fun page => match images page with Some l => l | None => [] end)
    (response_pages ocrResponse).

(** Texts joined by a separator that stands between two consecutive texts
    only. *)
Fixpoint join (sep : jsstring) (l : list jsstring) : jsstring :=
  match l with
  | [] => []
  | x :: l' => match l' with [] => x | _ :: _ => x ++ sep ++ join sep l' end
  end.

(** An image without a usable payload: absent, empty, or a [data:] URL
    without a comma. *)
Definition payload_missing (image : OCRImage) : bool :=
  match imageBase64 image with
  | None => true
  | Some [] => true
  | Some p => startsWith (lit "data:") p && negb (existsb (N.eqb 44) p)
  end.

(** [v] is the payload of [image] with a leading data-URL prefix removed:
    the payload itself when it does not start with [data:], and otherwise
    the field between its first comma and the next one. *)
Definition is_payload_of (v : jsstring) (image : OCRImage) : Prop :=
  exists p,
    imageBase64 image = Some p
    /\ ((startsWith (lit "data:") p = false /\ v = p)
        \/ (startsWith (lit "data:") p = true
            /\ exists prefix rest,
                 p = prefix ++ 44 :: v ++ rest
                 /\ existsb (N.eqb 44) prefix = false
                 /\ existsb (N.eqb 44) v = false
                 /\ (rest = [] \/ exists rest', rest = 44 :: rest'))).

(** Base64 text: letters, digits, [+], [/] and the padding [=]. *)
Definition base64_char (c : N) : bool :=
  in_range 65 90 c || in_range 97 122 c || in_range 48 57 c
  || (c =? 43) || (c =? 47) || (c =? 61).

Definition is_base64 (s : jsstring) : bool := forallb base64_char s.

(** A payload as the OCR service documents it: base64 text, or a data URL,
    that is a header [data:...] without a comma, a comma, and base64 text. *)
Definition well_formed_payload (p : jsstring) : Prop :=
  is_base64 p = true
  \/ exists header data,
       p = header ++ 44 :: data
       /\ startsWith (lit "data:") header = true
       /\ existsb (N.eqb 44) header = false
       /\ is_base64 data = true.

(** The models asked for in the completion requests of a trace. *)
Definition requested_models (l : list Event) : list jsstring :=
  flat_map (fun e => match e with
                     | FetchWithRetry req => [model req]
                     | RequestUrl req => [model (body req)]
                     | _ => []
                     end) l.

Section Methods.

Variable W : Type.
Variable host : Ops W.
Variable settings : AIOcrSettings.
Variable currentPreset : jsstring.
Variable presetsDir : jsstring.

(** [error.message] in a template literal, for a caught [error]. *)
Definition error_message (error : thrown) : M W jsstring :=
  match error with
  | Error message => ret message
  | Nullish value => throw (TypeError_message host value)
  end.

Definition setStatus (text : jsstring) : M W unit :=
  emit (Status (if truthy text then [0xD83D; 0xDCC4; 32] ++ text else [])).

Definition clearStatus : M W unit := setStatus [].

Definition localFetch (options : ChatRequest) : M W jsstring :=
  let apiKey := openRouterApiKey settings in
  if negb (truthy apiKey)
  then throw (lit "API Key missing. Enable OpenRouter Provider OR set key in settings.")
  else
    let req := {| url := lit "https://openrouter.ai/api/v1/chat/completions";
                  authorization := lit "Bearer " ++ apiKey;
                  body := options |} in
    call (RequestUrl req) (requestUrl host req).

Definition performMistralOCR (base64Data mimeType : jsstring) : M W OCRResult :=
  if negb (truthy (mistralApiKey settings))
  then throw (lit "Mistral API Key not configured")
  else
    setStatus (lit "Uploading to Mistral...") ;;;
    emit (Notice (lit "cloud_upload Uploading to Mistral...")) ;;;
    try_catch
      (let apiKey := mistralApiKey settings in
       let ext := or_else (nth_error (split1 47 mimeType) 1) (lit "bin") in
       now <- ask (Date_now host) ;;
       let filename := lit "upload-" ++ dec now ++ lit "." ++ ext in
       binaryString <- lift (atob host base64Data) ;;
       let bytes := List.map (fun c => c mod 256) binaryString in
       let upload := {| fileName := filename; content_type := mimeType;
                        content_bytes := bytes; purpose := lit "ocr" |} in
       uploadedFile <- call (FilesUpload apiKey upload) (files_upload host apiKey upload) ;;
       match uploadedFile with
       | Some ((_ :: _) as fileId) =>
           signedUrl <- call (FilesGetSignedUrl apiKey fileId)
                             (files_getSignedUrl host apiKey fileId) ;;
           setStatus (lit "Running OCR...") ;;;
           emit (Notice ([0xD83D; 0xDD0D] ++ lit " Processing OCR...")) ;;;
           let req := {| ocr_model := lit "mistral-ocr-latest";
                         documentUrl := signedUrl;
                         includeImageBase64 := extractImages settings |} in
           ocrResponse <- call (OcrProcess apiKey req) (ocr_process host apiKey req) ;;
           ret (parse_results (extractImages settings) ocrResponse)
       | _ => throw (lit "Failed to upload file to Mistral")
       end)
      (fun error =>
         emit (ConsoleError (lit "Mistral SDK Error:") error) ;;;
         message <- error_message error ;;
         throw (lit "Mistral OCR Failed: " ++ message)).

(** The write of one image: the statements of the [try] block of
    [saveOCRImages] up to the write. *)
Definition store_image (imagePath base64Data : jsstring) : M W unit :=
  arrayBuffer <- lift (base64ToArrayBuffer host base64Data) ;;
  existingFile <- ask (getAbstractFileByPath host imagePath) ;;
  match existingFile with
  | Some TFile => call (ModifyBinary imagePath arrayBuffer) (modifyBinary host imagePath arrayBuffer)
  | _ => call (CreateBinary imagePath arrayBuffer) (createBinary host imagePath arrayBuffer)
  end.

(** The body of the [for] loop of [saveOCRImages]. *)
Definition save_image (targetFolder : jsstring) (savedPaths : Obj.obj jsstring)
  (entry : jsstring * jsstring) : M W (Obj.obj jsstring) :=
  let '(imageName, base64Data) := entry in
  let imagePath := targetFolder ++ lit "/" ++ imageName in
  try_catch
    (store_image imagePath base64Data ;;;
     ret (Obj.set savedPaths imageName imagePath))
    (fun error =>
       emit (ConsoleError (lit "Failed to save image " ++ imageName ++ lit ":") error) ;;;
       ret savedPaths).


(** The folder the images go to; created when a subfolder is configured
    and is not there yet. *)
Definition target_folder (basePath : jsstring) : M W jsstring :=
  if truthy (imageSubfolder settings) then
    let targetFolder := basePath ++ lit "/" ++ imageSubfolder settings in
    folder <- ask (getAbstractFileByPath host targetFolder) ;;
    match folder with
    | Some TFolder => ret tt
    | _ => call (CreateFolder targetFolder) (createFolder host targetFolder)
    end ;;;
    ret targetFolder
  else ret basePath.

Definition saveOCRImages (imgs : Obj.obj jsstring) (basePath : jsstring)
  : M W (Obj.obj jsstring) :=
  if (length (Obj.keys imgs) =? 0)%nat then ret []
  else
    targetFolder <- target_folder basePath ;;
    savedPaths <- for_of (save_image targetFolder) (Obj.entries imgs) [] ;;
    emit (Notice ([0xD83D; 0xDCF7] ++ lit " Saved "
                  ++ dec (N.of_nat (length (Obj.keys savedPaths))) ++ lit " images")) ;;;
    ret savedPaths.

(** [presetManager.getPresetContent(name)] *)
Definition getPresetContent (name : jsstring) : M W (option jsstring) :=
  let path := presetsDir ++ lit "/" ++ name ++ lit ".md" in
  exists_ <- ask (adapter_exists host path) ;;
  if exists_ : bool then
    text <- (fun st => (st, adapter_read host path (world st))) ;;
    ret (Some text)
  else ret None.

(** The model [formatText] formats with: its first statements. *)
Definition select_model (provider : bool) (providerModel : jsstring)
  (modelOverride : option jsstring) : jsstring :=
  if provider then or_else modelOverride providerModel
  else or_else modelOverride (openRouterModel settings).

(** The handling of the completion text in [formatText], from
    [content.replace(/<think>.../)] to the inner [catch]. *)
Definition normalize_response (editor : bool) (content : jsstring) : M W jsstring :=
  let content := strip_think content in
  let content := strip_fences content in
  match parse_formatted content with
  | Some formatted_markdown =>
      let formattedMarkdown := cleanLatexDelimiters formatted_markdown in
      (if editor then emit (Notice ([0x2705] ++ lit " formatted!")) else ret tt) ;;;
      clearStatus ;;;
      ret formattedMarkdown
  | None =>
      (* the error of [JSON.parse] or of the schema is logged; its message
         is not modelled and stands as the empty text *)
      emit (ConsoleError (lit "Zod Validation Failed:") (Error [])) ;;;
      emit (Notice ([0x26A0; 0xFE0F] ++ lit " Formatting structure invalid. Returning raw output.")) ;;;
      clearStatus ;;;
      ret content
  end.

Definition formatText (rawText : jsstring) (modelOverride customInstruction : option jsstring)
  (editor : bool) : M W (option jsstring) :=
  provider <- ask (provider_present host) ;;
  providerModel <- ask (provider_getModel host (lit "ai-ocr-formatter")) ;;
  let model := select_model provider providerModel modelOverride in
  let fetcher : ChatRequest -> M W jsstring :=
    if provider : bool
    then fun req => call (FetchWithRetry req) (provider_fetchWithRetry host req)
    else localFetch in
  setStatus (lit "Formatting...") ;;;
  emit (Notice ([0xD83C; 0xDFA8] ++ lit " Formatting with "
                ++ last (split1 47 model) [] ++ lit "...")) ;;;
  let presetName := if truthy currentPreset then currentPreset else defaultPreset settings in
  systemPrompt <- getPresetContent presetName ;;
  let systemPrompt :=
    match systemPrompt with
    | Some ((_ :: _) as p) => p
    | _ => ACADEMIC_BLUE_PROMPT
    end in
  let systemPrompt :=
    match customInstruction with
    | Some ci =>
        if truthy ci && (0 <? length (trim ci))%nat
        then systemPrompt ++ [LF; LF] ++ lit "[USER CUSTOM INSTRUCTION]" ++ [LF] ++ ci
        else systemPrompt
    | None => systemPrompt
    end in
  let fullSystemPrompt := systemPrompt ++ [LF; LF] ++ zodInstruction in
  try_catch
    (content <- fetcher {| model := model;
                           system_content := fullSystemPrompt;
                           user_content :=
                             lit "Format the following OCR text. Language: "
                             ++ language settings ++ lit "." ++ [LF; LF]
                             ++ lit "---" ++ [LF] ++ rawText ++ [LF] ++ lit "---" |} ;;
     out <- normalize_response editor content ;;
     ret (Some out))
    (fun error =>
       message <- error_message error ;;
       emit (Notice ([0x274C] ++ lit " Formatting failed: " ++ message)) ;;;
       clearStatus ;;;
       ret None).

Definition processImage (base64Data mimeType : jsstring)
  (modelOverride customInstruction : option jsstring) : M W (option jsstring) :=
  try_catch
    (ocrResult <- performMistralOCR base64Data mimeType ;;
     if negb (truthy (result_markdown ocrResult)) then throw (lit "Empty OCR Result")
     else
       (if (0 <? length (Obj.keys (result_images ocrResult)))%nat then
          activeParent <- ask (activeFile_parent_path host) ;;
          let basePath := or_else activeParent [] in
          saveOCRImages (result_images ocrResult) basePath ;;;
          ret tt
        else ret tt) ;;;
       emit (Notice ([0x2705] ++ lit " OCR complete! Formatting...")) ;;;
       formatText (result_markdown ocrResult) modelOverride customInstruction false)
    (fun error =>
       message <- error_message error ;;
       emit (Notice ([0x274C] ++ lit " Error: " ++ message)) ;;;
       clearStatus ;;;
       ret None).

End Methods.

End Plugin.

Import Plugin.

(** ** A host for examples

    The vault is a list of file paths and a list of folder paths; the OCR
    service answers [response]; creating a file or a folder at a path of
    [refused] throws; the completion service answers [completion]. *)

Module Mock.

Record vault : Type := {
  files : list jsstring;
  folders : list jsstring
}.

Definition mem (p : jsstring) (l : list jsstring) : bool := existsb (JS.eqb p) l.

(** The message of V8, the engine of the desktop application. *)
Definition V8_message (value : nullish) : jsstring :=
  lit "Cannot read properties of "
  ++ match value with null => lit "null" | undefined => lit "undefined" end
  ++ lit " (reading 'message')".

Definition empty : vault := {| files := []; folders := [] |}.

Definition ops (response : option OCRResponse) (refused : list jsstring)
  (completion : outcome jsstring) : Ops vault := {|
  TypeError_message := V8_message;
  Date_now := fun _ => 0;
  atob := fun s => Ok s;
  base64ToArrayBuffer := fun s => Ok s;
  files_upload := fun _ _ w => (w, Ok (Some (lit "file-1")));
  files_getSignedUrl := fun _ _ w => (w, Ok (lit "https://signed.example/file-1"));
  ocr_process := fun _ _ w => (w, Ok response);
  getAbstractFileByPath := fun p w =>
    if mem p (files w) then Some TFile
    else if mem p (folders w) then Some TFolder
    else None;
  createFolder := fun p w =>
    if mem p refused then (w, Throw (Error (lit "Folder already exists.")))
    else ({| files := files w; folders := folders w ++ [p] |}, Ok tt);
  modifyBinary := fun _ _ w => (w, Ok tt);
  createBinary := fun p _ w =>
    if mem p refused then (w, Throw (Error (lit "File already exists.")))
    else ({| files := files w ++ [p]; folders := folders w |}, Ok tt);
  activeFile_parent_path := fun _ => Some (lit "notes");
  adapter_exists := fun _ _ => false;
  adapter_read := fun _ _ => Throw (Error (lit "ENOENT"));
  provider_present := fun _ => false;
  provider_getModel := fun _ _ => [];
  provider_fetchWithRetry := fun _ w => (w, completion);
  requestUrl := fun _ w => (w, completion)
|}.

(** The same host with the provider plugin installed, configured for
    the model [providerModel]. *)
Definition with_provider (providerModel : jsstring) (o : Ops vault) : Ops vault := {|
  TypeError_message := TypeError_message o;
  Date_now := Date_now o;
  atob := atob o;
  base64ToArrayBuffer := base64ToArrayBuffer o;
  files_upload := files_upload o;
  files_getSignedUrl := files_getSignedUrl o;
  ocr_process := ocr_process o;
  getAbstractFileByPath := getAbstractFileByPath o;
  createFolder := createFolder o;
  modifyBinary := modifyBinary o;
  createBinary := createBinary o;
  activeFile_parent_path := activeFile_parent_path o;
  adapter_exists := adapter_exists o;
  adapter_read := adapter_read o;
  provider_present := fun _ => true;
  provider_getModel := fun _ _ => providerModel;
  provider_fetchWithRetry := provider_fetchWithRetry o;
  requestUrl := requestUrl o
|}.

(** The same host with a vault whose [createFolder] rejects with
    [value]. *)
Definition rejecting_folders (value : nullish) (o : Ops vault) : Ops vault := {|
  TypeError_message := TypeError_message o;
  Date_now := Date_now o;
  atob := atob o;
  base64ToArrayBuffer := base64ToArrayBuffer o;
  files_upload := files_upload o;
  files_getSignedUrl := files_getSignedUrl o;
  ocr_process := ocr_process o;
  getAbstractFileByPath := getAbstractFileByPath o;
  createFolder := fun _ w => (w, Throw (Nullish value));
  modifyBinary := modifyBinary o;
  createBinary := createBinary o;
  activeFile_parent_path := activeFile_parent_path o;
  adapter_exists := adapter_exists o;
  adapter_read := adapter_read o;
  provider_present := provider_present o;
  provider_getModel := provider_getModel o;
  provider_fetchWithRetry := provider_fetchWithRetry o;
  requestUrl := requestUrl o
|}.

Definition start : State vault := {| world := empty; trace := [] |}.

Definition with_key : AIOcrSettings := {|
  mistralApiKey := lit "sk-test";
  language := language DEFAULT_SETTINGS;
  defaultPreset := defaultPreset DEFAULT_SETTINGS;
  openRouterApiKey := lit "or-test";
  openRouterModel := openRouterModel DEFAULT_SETTINGS;
  extractImages := true;
  imageSubfolder := imageSubfolder DEFAULT_SETTINGS
|}.

Definition page (text : jsstring) : OCRPage :=
  {| markdown := Some text; images := None |}.

Definition answer (l : list OCRPage) : option OCRResponse :=
  Some {| pages := Some l |}.

End Mock.

(** ** Observations on a run

    Vocabulary for what a method adds to the trace, whether it throws,
    and what it keeps of the world. *)

Module Observe.

Definition is_vault_write (e : Event) : bool :=
  match e with
  | CreateFolder _ | ModifyBinary _ _ | CreateBinary _ _ => true
  | _ => false
  end.

Definition is_completion (e : Event) : bool :=
  match e with
  | FetchWithRetry _ | RequestUrl _ => true
  | _ => false
  end.

(** The computation [c] extends the trace by events that all pass [Q]. *)
Definition adds_only {W A} (Q : Event -> bool) (c : M W A) : Prop :=
  forall st, exists l, trace (fst (c st)) = trace st ++ l /\ forallb Q l = true.

(** The computation [c] extends the trace by at most [n] events of the
    kind [P]. *)
Definition at_most {W A} (P : Event -> bool) (n : nat) (c : M W A) : Prop :=
  forall st, exists l,
    trace (fst (c st)) = trace st ++ l /\ (length (filter P l) <= n)%nat.

Definition never_throws {W A} (c : M W A) : Prop :=
  forall st, exists a, snd (c st) = Ok a.

(** The list [l] ends with the events [es]. *)
Definition ends_in (es l : list Event) : Prop := exists pre, l = pre ++ es.

(** Every run of [c] keeps the property [I] of the world. *)
Definition invariant {W A} (I : W -> Prop) (c : M W A) : Prop :=
  forall st, I (world st) -> I (world (fst (c st))).

(** What [saveOCRImages] may add to the trace: notices, console errors,
    the creation of the target folder [tf] when a subfolder is configured
    ([created]), and writes of [tf/name] for the names of the table. *)
Definition save_event (created : bool) (tf : jsstring) (names : list jsstring)
  (e : Event) : bool :=
  match e with
  | Notice _ | ConsoleError _ _ => true
  | CreateFolder p => created && JS.eqb p tf
  | ModifyBinary p _ | CreateBinary p _ =>
      existsb (fun k => JS.eqb p (tf ++ lit "/" ++ k)) names
  | _ => false
  end.

(** What [formatText] may add to the trace: status texts, notices,
    console errors, and completion requests on the one route that the
    presence of the provider plugin selects; the direct route carries the
    API key of the settings, which is not empty. *)
Definition route_event (provider : bool) (apiKey : jsstring) (e : Event) : bool :=
  match e with
  | Status _ | Notice _ | ConsoleError _ _ => true
  | FetchWithRetry _ => provider
  | RequestUrl request =>
      negb provider && truthy apiKey
      && JS.eqb (url request) (lit "https://openrouter.ai/api/v1/chat/completions")
      && JS.eqb (authorization request) (lit "Bearer " ++ apiKey)
  | _ => false
  end.

End Observe.

Import Observe.

(** ** The repairs of the completion text, without regular expressions *)

Module Text.

(** [s] without its prefix [p], when it starts with [p]. *)
Fixpoint strip_prefix (p s : jsstring) : option jsstring :=
  match p, s with
  | [], _ => Some s
  | a :: p', b :: s' => if b =? a then strip_prefix p' s' else None
  | _ :: _, [] => None
  end.

(** [s] without its suffix [p], when it ends with [p]. *)
Definition strip_suffix (p s : jsstring) : option jsstring :=
  option_map (@rev N) (strip_prefix (rev p) (rev s)).

(** The same as [strip_prefix], ASCII letters compared without case. *)
Fixpoint strip_prefix_ci (p s : jsstring) : option jsstring :=
  match p, s with
  | [], _ => Some s
  | a :: p', b :: s' => if one_ci a b then strip_prefix_ci p' s' else None
  | _ :: _, [] => None
  end.

(** The text after the first occurrence of [w] in [s], letters compared
    without case. *)
Fixpoint after_ci (w s : jsstring) : option jsstring :=
  match strip_prefix_ci w s with
  | Some r => Some r
  | None =>
      match s with
      | [] => None
      | _ :: s' => after_ci w s'
      end
  end.

(** [w] occurs in [s], letters compared without case. *)
Definition mentions_ci (w s : jsstring) : bool :=
  match after_ci w s with Some _ => true | None => false end.

(** From left to right: an opening tag that is followed by a closing tag
    is dropped with everything up to the first closing tag. *)
Fixpoint drop_think (fuel : nat) (s : jsstring) : jsstring :=
  match fuel with
  | O => s
  | S k =>
      match s with
      | [] => []
      | x :: s' =>
          match strip_prefix_ci (lit "<think>") s with
          | Some r =>
              match after_ci (lit "</think>") r with
              | Some rest => drop_think k rest
              | None => x :: drop_think k s'
              end
          | None => x :: drop_think k s'
          end
      end
  end.

(** [s.endsWith(p)] *)
Definition endsWith (p s : jsstring) : bool :=
  match strip_suffix p s with Some _ => true | None => false end.

(** [s.replace(p, r)] for a string [p] and a replacement [r] without
    dollar sign: the first occurrence of [p] is replaced. *)
Fixpoint replace_string (p r s : jsstring) : jsstring :=
  match strip_prefix p s with
  | Some rest => r ++ rest
  | None =>
      match s with
      | [] => []
      | x :: s' => x :: replace_string p r s'
      end
  end.

(** [p] occurs in [s]. *)
Fixpoint occurs (p s : jsstring) : bool :=
  match strip_prefix p s with
  | Some _ => true
  | None =>
      match s with
      | [] => false
      | _ :: s' => occurs p s'
      end
  end.

(** The lines of a template literal, each closed by a line feed. *)
Definition template (lines : list string) : jsstring :=
  concat (List.map (fun l => lit l ++ [LF]) lines).

End Text.

Import Text.

(** The fence repair of [formatText] in words: a leading [```json] with
    the whitespace after it, a leading [```] and a trailing [```] are
    removed, in this order. *)
Definition strip_fences_spec (content : jsstring) : jsstring :=
  let content :=
    match strip_prefix (lit "```json") content with
    | Some r => trimStart r
    | None => content
    end in
  let content :=
    match strip_prefix (lit "```") content with
    | Some r => r
    | None => content
    end in
  match strip_suffix (lit "```") content with
  | Some r => r
  | None => content
  end.

(** The think-block repair in words. *)
Definition strip_think_spec (content : jsstring) : jsstring :=
  trim (drop_think (S (length content)) content).

(** A completion request for the text [rawText]: its user message is
    the request to format [rawText] in [language], and its system prompt
    ends with the schema instruction. *)
Definition format_request (language rawText : jsstring) (e : Event) : bool :=
  let asks (req : ChatRequest) :=
    JS.eqb (user_content req)
      (lit "Format the following OCR text. Language: " ++ language ++ lit "."
       ++ [LF; LF] ++ lit "---" ++ [LF] ++ rawText ++ [LF] ++ lit "---")
    && endsWith ([LF; LF] ++ zodInstruction) (system_content req) in
  match e with
  | FetchWithRetry req => asks req
  | RequestUrl request => asks (body request)
  | _ => true
  end.

(** A completion request that carries the custom instruction [ci]: its
    system prompt ends with the instruction block, as given, and the schema
    instruction. *)
Definition instruction_request (ci : jsstring) (e : Event) : bool :=
  let carries (req : ChatRequest) :=
    endsWith ([LF; LF] ++ lit "[USER CUSTOM INSTRUCTION]" ++ [LF] ++ ci
              ++ [LF; LF] ++ zodInstruction)
      (system_content req) in
  match e with
  | FetchWithRetry req => carries req
  | RequestUrl request => carries (body request)
  | _ => true
  end.

(** ** The preset manager ([presetManager.ts]) and the editor command *)

Module Adapter.

(** [app.vault.adapter]: the operations of the preset manager that [Ops]
    does not have. *)
Record DataAdapter (W : Type) : Type := {
  adapter_mkdir : jsstring -> W -> W * outcome unit;
  adapter_write : jsstring -> jsstring -> W -> W * outcome unit;
  (* [(await adapter.list(path)).files] *)
  adapter_list : jsstring -> W -> outcome (list jsstring)
}.

(** The editor handed to the editor callback of a command. *)
Record Editor (W : Type) : Type := {
  getSelection : W -> jsstring;
  replaceSelection : jsstring -> W -> W
}.

(** A host operation that may change the world and is not traced. *)
Definition effect {W A} (op : W -> W * outcome A) : M W A :=
  fun st =>
    let '(w, r) := op (world st) in
    ({| world := w; trace := trace st |}, r).

(** A host operation that only reads the world and may throw. *)
Definition read {W A} (f : W -> outcome A) : M W A :=
  fun st => (st, f (world st)).

End Adapter.

Import Adapter.

Module PresetManager.

Open Scope js_scope.

Definition academic_blue_content : jsstring :=
  template
    [
     "## Academic Blue Style";
     "Use this style for university lecture notes (Math/CS/Engineering).";
     "";
     "**KEY RULES:**";
     "1. **Callouts**:";
     "   - `> [!definition]` for definitions";
     "   - `> [!result]` for theorems/formulas";
     "   - `> [!example]` for examples";
     "   - `> [!handwritten]` for warnings/notes";
     "";
     "2. **Math**:";
     "   - Use standard LaTeX: $x^2$ and $$ \sum x $$";
     "   - Normalize variable names (e.g. fix OCR errors like 'u_x' -> '$u_x$')";
     "";
     "3. **Structure**:";
     "   - Use # H1, ## H2, ### H3";
     "   - Separate major topics with '---'"
    ]%string.

Definition clean_markdown_content : jsstring :=
  template
    [
     "## Clean Markdown Style";
     "Output clean, well-structured markdown without special formatting.";
     "";
     "**KEY RULES:**";
     "1. **NO Callouts**: Do NOT use `> [!...]` callout blocks. Use plain text or bullet points instead.";
     "2. **NO HTML**: Do NOT use <details>, <summary>, or any HTML tags.";
     "";
     "3. **Structure**:";
     "   - Use # H1, ## H2, ### H3 for headings";
     "   - Use bullet points (-) for lists";
     "   - Use **bold** for key terms";
     "   - Use tables where appropriate";
     "";
     "4. **Math**:";
     "   - Use standard LaTeX: $x^2$ for inline, $$ \sum x $$ for block";
     "   - Fix OCR errors in variable names";
     "";
     "5. **Keep it Simple**: Focus on readability and clean hierarchy."
    ]%string.

(** The name of the preset in the file [f]: the last segment of the
    path, its first [.md] removed (the empty string when nothing is
    left). *)
Definition preset_name (f : jsstring) : jsstring :=
  or_else (Some (replace_string (lit ".md") [] (last (split1 47 f) []))) [].

Section Methods.

Variable W : Type.
Variable host : Ops W.
Variable adapter : DataAdapter W.
Variable presetsDir : jsstring.

Definition ensurePresetsDir : M W unit :=
  exists_ <- ask (adapter_exists host presetsDir) ;;
  if exists_ : bool then ret tt
  else effect (adapter_mkdir adapter presetsDir).

Definition initializeDefaultPresets : M W unit :=
  ensurePresetsDir ;;;
  let academicBluePath := presetsDir ++ lit "/Academic Blue.md" in
  exists_ <- ask (adapter_exists host academicBluePath) ;;
  (if exists_ : bool then ret tt
   else effect (adapter_write adapter academicBluePath academic_blue_content)) ;;;
  let cleanMarkdownPath := presetsDir ++ lit "/Clean Markdown.md" in
  exists_ <- ask (adapter_exists host cleanMarkdownPath) ;;
  if exists_ : bool then ret tt
  else effect (adapter_write adapter cleanMarkdownPath clean_markdown_content).

Definition getPresets : M W (list jsstring) :=
  ensurePresetsDir ;;;
  files <- read (adapter_list adapter presetsDir) ;;
  ret (List.map preset_name (filter (endsWith (lit ".md")) files)).

End Methods.

End PresetManager.

Import PresetManager.

Module Commands.

Open Scope js_scope.

Section Methods.

Variable W : Type.
Variable host : Ops W.
Variable settings : AIOcrSettings.
Variables currentPreset presetsDir : jsstring.

(** The editor callback of the command [format-selection] in [onload]. *)
Definition format_selection (editor : Editor W) : M W unit :=
  selection <- ask (getSelection editor) ;;
  if negb (truthy selection) || (length (trim selection) <? 5)%nat then
    emit (Notice ([0x26A0; 0xFE0F] ++ lit " Please select some text to format."))
  else
    formatted <- formatText host settings currentPreset presetsDir selection None None true ;;
    match formatted with
    | Some ((_ :: _) as text) => effect (fun w => (replaceSelection editor text w, Ok tt))
    | _ => ret tt
    end.

(** The preset the modal selects when its style dropdown is built in
    [onOpen], from the names [getPresets] returned. *)
Definition modal_preset (presets : list jsstring) : jsstring :=
  let current := defaultPreset settings in
  if negb (existsb (JS.eqb current) presets) && (0 <? length presets)%nat
  then hd [] presets
  else current.

End Methods.

End Commands.

Import Commands.

(** ** A host with a file system and an editor, for examples

    The adapter works on a table of files and a list of folders; the
    upload answers [upload] and the completion service [completion]. *)

Module Fs.

Record t : Type := {
  documents : Obj.obj jsstring;
  dirs : list jsstring;
  selection : jsstring
}.

Definition is_dir (p : jsstring) (w : t) : bool := existsb (JS.eqb p) (dirs w).

Definition host (upload : outcome (option jsstring)) (completion : outcome jsstring)
  : Ops t := {|
  TypeError_message := Mock.V8_message;
  Date_now := fun _ => 0;
  atob := fun s => Ok s;
  base64ToArrayBuffer := fun s => Ok s;
  files_upload := fun _ _ w => (w, upload);
  files_getSignedUrl := fun _ _ w => (w, Ok (lit "https://signed.example/file-1"));
  ocr_process := fun _ _ w => (w, Ok None);
  getAbstractFileByPath := fun p w =>
    match Obj.get (documents w) p with
    | Some _ => Some TFile
    | None => if is_dir p w then Some TFolder else None
    end;
  createFolder := fun p w =>
    ({| documents := documents w; dirs := dirs w ++ [p]; selection := selection w |}, Ok tt);
  modifyBinary := fun p data w =>
    ({| documents := Obj.define (documents w) p data; dirs := dirs w; selection := selection w |}, Ok tt);
  createBinary := fun p data w =>
    ({| documents := Obj.define (documents w) p data; dirs := dirs w; selection := selection w |}, Ok tt);
  activeFile_parent_path := fun _ => Some (lit "notes");
  adapter_exists := fun p w =>
    match Obj.get (documents w) p with
    | Some _ => true
    | None => is_dir p w
    end;
  adapter_read := fun p w =>
    match Obj.get (documents w) p with
    | Some text => Ok text
    | None => Throw (Error (lit "ENOENT"))
    end;
  provider_present := fun _ => false;
  provider_getModel := fun _ _ => [];
  provider_fetchWithRetry := fun _ w => (w, completion);
  requestUrl := fun _ w => (w, completion)
|}.

Definition adapter : DataAdapter t := {|
  adapter_mkdir := fun p w =>
    ({| documents := documents w; dirs := dirs w ++ [p]; selection := selection w |}, Ok tt);
  adapter_write := fun p text w =>
    ({| documents := Obj.define (documents w) p text; dirs := dirs w; selection := selection w |}, Ok tt);
  adapter_list := fun p w =>
    Ok (filter (fun f => match strip_prefix (p ++ lit "/") f with
                         | Some name => negb (existsb (N.eqb 47) name)
                         | None => false
                         end)
          (List.map fst (documents w)))
|}.

Definition editor : Editor t := {|
  getSelection := selection;
  replaceSelection := fun text w =>
    {| documents := documents w; dirs := dirs w; selection := text |}
|}.

Definition blank : t := {| documents := []; dirs := []; selection := [] |}.

Definition init (w : t) : State t := {| world := w; trace := [] |}.

(** The settings of [Mock.with_key] with the extraction of images
    switched off. *)
Definition text_only : AIOcrSettings := {|
  mistralApiKey := mistralApiKey Mock.with_key;
  language := language Mock.with_key;
  defaultPreset := defaultPreset Mock.with_key;
  openRouterApiKey := openRouterApiKey Mock.with_key;
  openRouterModel := openRouterModel Mock.with_key;
  extractImages := false;
  imageSubfolder := imageSubfolder Mock.with_key
|}.

End Fs.

(** * Properties *)

Unset Implicit Arguments.

(** ** Strings *)

Lemma is_space_backslash : is_space 92 = false.
Proof. reflexivity. Qed.

Lemma line_terminator_is_space c : is_line_terminator c = true -> is_space c = true.
Proof.
  unfold is_line_terminator. intros H.
  rewrite !orb_true_iff, !N.eqb_eq in H.
  destruct H as [[[H|H]|H]|H]; subst c; reflexivity.
Qed.

Lemma trimEnd_cons c s :
  trimEnd (c :: s) = match trimEnd s with
                     | [] => if is_space c then [] else [c]
                     | t => c :: t
                     end.
Proof. reflexivity. Qed.

Lemma trimEnd_nil_iff s : trimEnd s = [] <-> forallb is_space s = true.
Proof.
  induction s as [|c s IH]; simpl; [tauto|].
  destruct (trimEnd s) as [|d t] eqn:E.
  - destruct (is_space c); simpl; split; intros H; try discriminate.
    + apply IH; reflexivity.
    + reflexivity.
  - split; [discriminate|]. intros H. apply andb_true_iff in H as [_ H].
    apply IH in H. discriminate.
Qed.

Lemma trimStart_all_space s : forallb is_space s = true -> trimStart s = [].
Proof.
  induction s as [|c s IH]; simpl; [reflexivity|].
  intros H. apply andb_true_iff in H as [Hc Hs]. rewrite Hc. auto.
Qed.

Lemma trimStart_app_space w s :
  forallb is_space w = true -> trimStart (w ++ s) = trimStart s.
Proof.
  induction w as [|c w IH]; simpl; [reflexivity|].
  intros H. apply andb_true_iff in H as [Hc Hw]. rewrite Hc. auto.
Qed.

Lemma trimEnd_nonspace_head c s :
  is_space c = false -> trimEnd (c :: s) = c :: trimEnd s.
Proof.
  intros Hc. rewrite trimEnd_cons, Hc. destruct (trimEnd s); reflexivity.
Qed.

Lemma trimStart_head s :
  match trimStart s with
  | [] => True
  | c :: _ => is_space c = false
  end.
Proof.
  induction s as [|c s IH]; simpl; [exact I|].
  destruct (is_space c) eqn:E; [exact IH|exact E].
Qed.

Lemma trimStart_trimEnd_trimStart s :
  trimStart (trimEnd (trimStart s)) = trimEnd (trimStart s).
Proof.
  pose proof (trimStart_head s) as H.
  destruct (trimStart s) as [|c t]; [reflexivity|].
  rewrite (trimEnd_nonspace_head _ _ H). simpl. rewrite H. reflexivity.
Qed.

Lemma trimEnd_idem s : trimEnd (trimEnd s) = trimEnd s.
Proof.
  induction s as [|c s IH]; [reflexivity|].
  rewrite trimEnd_cons.
  destruct (trimEnd s) as [|d t] eqn:E.
  - destruct (is_space c) eqn:Ec; [reflexivity|]. simpl. rewrite Ec. reflexivity.
  - rewrite trimEnd_cons, IH. reflexivity.
Qed.

Lemma trim_idem s : trim (trim s) = trim s.
Proof.
  unfold trim. rewrite trimStart_trimEnd_trimStart. apply trimEnd_idem.
Qed.

Lemma trim_cons_space c s : is_space c = true -> trim (c :: s) = trim s.
Proof. intros H. unfold trim. cbn [trimStart]. rewrite H. reflexivity. Qed.

Lemma trim_cons_nonspace c s : is_space c = false -> trim (c :: s) = trimEnd (c :: s).
Proof. intros H. unfold trim. cbn [trimStart]. rewrite H. reflexivity. Qed.

(** The trimmed text is a part of the text trimmed at its end only. *)
Lemma forallb_trimEnd_trim (P : N -> bool) s :
  forallb P (trimEnd s) = true -> forallb P (trim s) = true.
Proof.
  induction s as [|c s IH]; [auto|].
  destruct (is_space c) eqn:Ec.
  - rewrite (trim_cons_space _ _ Ec), trimEnd_cons.
    destruct (trimEnd s) as [|d t] eqn:E.
    + intros _. apply IH. reflexivity.
    + intros H. apply IH. simpl in H. apply andb_true_iff in H. tauto.
  - rewrite (trim_cons_nonspace _ _ Ec). auto.
Qed.

(** ** The matcher on the delimiter patterns *)

Lemma run_rep_greedy c p at0 s :
  run (Rep true c :: p) at0 s =
  match
    match s with
    | x :: s' => if c x then option_map (grow x) (run (Rep true c :: p) false s') else None
    | [] => None
    end
  with
  | Some r => Some r
  | None => option_map (push []) (run p at0 s)
  end.
Proof. destruct s; reflexivity. Qed.

Lemma run_rep_lazy c p at0 s :
  run (Rep false c :: p) at0 s =
  match option_map (push []) (run p at0 s) with
  | Some r => Some r
  | None =>
      match s with
      | x :: s' => if c x then option_map (grow x) (run (Rep false c :: p) false s') else None
      | [] => None
      end
  end.
Proof. destruct s; reflexivity. Qed.

Lemma run_chr c p at0 s :
  run (Chr c :: p) at0 s =
  match s with
  | x :: s' => if c x then option_map (push [x]) (run p false s') else None
  | [] => None
  end.
Proof. reflexivity. Qed.

Lemma space_not_backslash x : is_space x = true -> (x =? 92) = false.
Proof.
  intros H. destruct (N.eqb_spec x 92) as [->|]; [discriminate|reflexivity].
Qed.

Lemma capture_push k pc r : capture (S k) (option_map (push pc) r) = capture k r.
Proof. destruct r as [[pcs rest]|]; reflexivity. Qed.

Lemma capture_grow_0 x r :
  capture 0 (option_map (grow x) r) = option_map (cons_fst x) (capture 0 r).
Proof. destruct r as [[[|pc pcs] rest]|]; reflexivity. Qed.

Lemma capture_grow_S k x r : capture (S k) (option_map (grow x) r) = capture (S k) r.
Proof. destruct r as [[[|pc pcs] rest]|]; try reflexivity. destruct k; reflexivity. Qed.

Lemma capture_none k r : capture k r = None -> r = None.
Proof. destruct r; [discriminate|reflexivity]. Qed.

Lemma find_close_eq c a s :
  find_close c (a :: s) =
  match s with
  | b :: t =>
      if (a =? 92) && (b =? c) then Some ([], t)
      else option_map (cons_fst a) (find_close c s)
  | [] => None
  end.
Proof. reflexivity. Qed.

Section Delimited.

Variables (opn cls : N) (body : cclass).

Lemma run_tail s : forall at0,
  option_map snd (run (tail_pat cls) at0 s) = closes_here cls s.
Proof.
  unfold tail_pat, closes_here.
  induction s as [|x s IH]; intros at0; [reflexivity|].
  rewrite run_rep_greedy. cbn [trimStart]. unfold space at 1.
  destruct (is_space x) eqn:Ex.
  - specialize (IH false).
    destruct (run (Rep true space :: _) false s) as [r|] eqn:E.
    + simpl. simpl in IH. rewrite <- IH. destruct r as [[|pc pcs] rest]; reflexivity.
    + cbn [option_map]. rewrite !run_chr. unfold one at 1.
      rewrite (space_not_backslash _ Ex). exact IH.
  - rewrite !run_chr. unfold one at 1.
    destruct s as [|b rest]; [destruct (x =? 92); reflexivity|].
    destruct (x =? 92); [|reflexivity].
    unfold one.
    destruct (b =? cls); reflexivity.
Qed.

Lemma closes_here_find s rest :
  closes_here cls s = Some rest ->
  exists w, find_close cls s = Some (w, rest) /\ forallb is_space w = true.
Proof.
  unfold closes_here. induction s as [|x s IH]; [discriminate|].
  cbn [trimStart]. destruct (is_space x) eqn:Ex.
  - intros H. destruct (IH H) as (w & Hw & Hs).
    exists (x :: w). split; [|simpl; rewrite Ex; exact Hs].
    destruct s as [|b t]; [discriminate|].
    rewrite find_close_eq, (space_not_backslash _ Ex). cbn [andb].
    rewrite Hw. reflexivity.
  - destruct s as [|b t]; [discriminate|].
    destruct ((x =? 92) && (b =? cls)) eqn:E; [|discriminate].
    intros H. injection H as <-. exists []. simpl. rewrite E. auto.
Qed.

Lemma closes_here_none s inner rest :
  closes_here cls s = None ->
  find_close cls s = Some (inner, rest) ->
  forallb is_space inner = false.
Proof.
  unfold closes_here. revert inner rest.
  induction s as [|x s IH]; intros inner rest; [discriminate|].
  cbn [trimStart]. destruct s as [|b t]; [discriminate|].
  rewrite find_close_eq.
  destruct (is_space x) eqn:Ex.
  - rewrite (space_not_backslash _ Ex). cbn [andb]. intros Hc.
    destruct (find_close cls (b :: t)) as [[i r]|] eqn:E; [|discriminate].
    intros H. injection H as <- <-. simpl. rewrite Ex.
    apply (IH _ _ Hc eq_refl).
  - destruct ((x =? 92) && (b =? cls)); [discriminate|]. intros _.
    destruct (find_close cls (b :: t)) as [[i r]|]; [|discriminate].
    intros H. injection H as <- <-. simpl. rewrite Ex. reflexivity.
Qed.

Lemma trimEnd_cons_not_all x l :
  forallb is_space (x :: l) = false -> trimEnd (x :: l) = x :: trimEnd l.
Proof.
  intros H. rewrite trimEnd_cons.
  destruct (trimEnd l) as [|d t] eqn:E; [|reflexivity].
  apply trimEnd_nil_iff in E. simpl in H. rewrite E, andb_true_r in H.
  rewrite H. reflexivity.
Qed.

Lemma find_close_cons x s :
  closes_here cls (x :: s) = None ->
  find_close cls (x :: s) = option_map (cons_fst x) (find_close cls s).
Proof.
  unfold closes_here. cbn [trimStart]. rewrite find_close_eq.
  destruct s as [|b t]; [reflexivity|].
  destruct (is_space x) eqn:Ex.
  - rewrite (space_not_backslash _ Ex). reflexivity.
  - destruct ((x =? 92) && (b =? cls)); [discriminate|reflexivity].
Qed.

Lemma run_lazy s : forall at0,
  capture 0 (run (lazy_pat body cls) at0 s) =
  match find_close cls s with
  | Some (inner, rest) =>
      if forallb body (trimEnd inner) then Some (trimEnd inner, rest) else None
  | None => None
  end.
Proof.
  unfold lazy_pat.
  induction s as [|x s IH]; intros at0; rewrite run_rep_lazy.
  - reflexivity.
  - pose proof (run_tail (x :: s) at0) as Ht.
    destruct (closes_here cls (x :: s)) as [rest|] eqn:Ec.
    + destruct (closes_here_find _ _ Ec) as (w & Hw & Hs).
      rewrite Hw. apply trimEnd_nil_iff in Hs. rewrite Hs. simpl forallb. cbv iota.
      destruct (run (tail_pat cls) at0 (x :: s)) as [[pcs r]|]; [|discriminate].
      simpl in Ht. injection Ht as ->. reflexivity.
    + destruct (run (tail_pat cls) at0 (x :: s)) as [r|]; [discriminate|].
      simpl option_map at 1. cbv iota.
      rewrite (find_close_cons _ _ Ec).
      pose proof (closes_here_none (x :: s)) as Hn.
      rewrite (find_close_cons _ _ Ec) in Hn.
      destruct (find_close cls s) as [[inner rest]|] eqn:Ef.
      * specialize (Hn _ _ Ec eq_refl). cbn [option_map cons_fst fst snd] in *.
        rewrite (trimEnd_cons_not_all _ _ Hn). cbn [forallb].
        destruct (body x); [|reflexivity]. cbn [andb].
        rewrite capture_grow_0, (IH false).
        destruct (forallb body (trimEnd inner)); reflexivity.
      * cbn [option_map]. destruct (body x); [|reflexivity].
        rewrite capture_grow_0, (IH false). reflexivity.
Qed.

Lemma find_close_space x s :
  is_space x = true ->
  find_close cls (x :: s) = option_map (cons_fst x) (find_close cls s).
Proof.
  intros Ex. rewrite find_close_eq, (space_not_backslash _ Ex).
  destruct s; reflexivity.
Qed.

Lemma find_close_nonspace x s inner rest :
  is_space x = false ->
  find_close cls (x :: s) = Some (inner, rest) ->
  trim inner = trimEnd inner.
Proof.
  intros Ex. rewrite find_close_eq. destruct s as [|b t]; [discriminate|].
  destruct ((x =? 92) && (b =? cls)).
  - intros H. injection H as <- <-. reflexivity.
  - destruct (find_close cls (b :: t)) as [[i r]|]; [|discriminate].
    intros H. injection H as <- <-. apply trim_cons_nonspace, Ex.
Qed.

Lemma run_inner s : forall at0,
  capture 1 (run (inner_pat body cls) at0 s) =
  match find_close cls s with
  | Some (inner, rest) =>
      if forallb body (trim inner) then Some (trim inner, rest) else None
  | None => None
  end.
Proof.
  unfold inner_pat.
  induction s as [|x s IH]; intros at0; rewrite run_rep_greedy.
  - rewrite capture_push, run_lazy. reflexivity.
  - unfold space at 1. destruct (is_space x) eqn:Ex.
    + rewrite (find_close_space _ _ Ex).
      specialize (IH false).
      destruct (run (Rep true space :: lazy_pat body cls) false s) as [r|] eqn:E.
      * cbn [option_map]. change (Some (grow x r)) with (option_map (grow x) (Some r)).
        rewrite capture_grow_S, IH.
        destruct (find_close cls s) as [[inner rest]|]; [|reflexivity].
        cbn [option_map cons_fst fst snd]. rewrite (trim_cons_space _ _ Ex). reflexivity.
      * cbn [option_map]. rewrite capture_push, run_lazy, (find_close_space _ _ Ex).
        destruct (find_close cls s) as [[inner rest]|]; [|reflexivity].
        cbn [option_map cons_fst fst snd]. rewrite (trim_cons_space _ _ Ex).
        cbn [capture option_map] in IH.
        destruct (forallb body (trim inner)) eqn:Eb; [discriminate|].
        destruct (forallb body (trimEnd (x :: inner))) eqn:Et; [|reflexivity].
        apply forallb_trimEnd_trim in Et. rewrite (trim_cons_space _ _ Ex) in Et.
        congruence.
    + rewrite capture_push, run_lazy.
      destruct (find_close cls (x :: s)) as [[inner rest]|] eqn:Ef; [|reflexivity].
      rewrite (find_close_nonspace _ _ _ _ Ex Ef). reflexivity.
Qed.

(** What the matcher finds with a delimiter pattern at the start of [s]:
    the nearest closing delimiter ends the match, and the group, once
    trimmed, is the trimmed text between the delimiters. *)
Lemma run_delim at0 s :
  option_map (fun r => (trim (fst r), snd r))
    (capture 3 (run (delim_pat opn cls body) at0 s))
  = pair_match opn cls body s.
Proof.
  unfold delim_pat, pair_match, pair_at. rewrite run_chr.
  destruct s as [|a [|b t]]; [reflexivity| |].
  - unfold one. destruct (a =? 92); reflexivity.
  - rewrite run_chr. unfold one.
    destruct (a =? 92); [|reflexivity]. destruct (b =? opn); [|reflexivity].
    cbn [andb]. rewrite !capture_push, run_inner.
    destruct (find_close cls t) as [[inner rest]|]; [|reflexivity].
    destruct (forallb body (trim inner)); [|reflexivity].
    cbn [option_map fst snd]. rewrite trim_idem. reflexivity.
Qed.

Lemma find_close_length s inner rest :
  find_close cls s = Some (inner, rest) -> (length rest < length s)%nat.
Proof.
  revert inner rest. induction s as [|a s IH]; intros inner rest; [discriminate|].
  rewrite find_close_eq. destruct s as [|b t]; [discriminate|].
  destruct ((a =? 92) && (b =? cls)).
  - intros H. injection H as <- <-. simpl. lia.
  - destruct (find_close cls (b :: t)) as [[i r]|]; [|discriminate].
    intros H. injection H as <- <-. specialize (IH _ _ eq_refl). simpl in *. lia.
Qed.

Lemma pair_at_length s inner rest :
  pair_at opn cls s = Some (inner, rest) -> (length rest < length s)%nat.
Proof.
  unfold pair_at. destruct s as [|a [|b t]]; try discriminate.
  destruct ((a =? 92) && (b =? opn)); [|discriminate].
  intros H. apply find_close_length in H. simpl. lia.
Qed.

(** The global replacement with a delimiter pattern is the rewriting of
    pairs from left to right. *)
Lemma replace_from_delim (wrap : jsstring -> jsstring) k : forall at0 s,
  replace_from k (delim_pat opn cls body) (fun pcs => wrap (trim (nth 3 pcs []))) at0 s
  = rewrite_pairs k opn cls (forallb body) wrap s.
Proof.
  induction k as [|k IH]; intros at0 s; [reflexivity|].
  cbn [replace_from rewrite_pairs].
  pose proof (run_delim at0 s) as H. unfold pair_match in H.
  destruct s as [|a s'].
  - destruct (run (delim_pat opn cls body) at0 []) as [[pcs r]|]; [discriminate|reflexivity].
  - destruct (pair_at opn cls (a :: s')) as [[inner rest]|] eqn:Ep.
    + destruct (forallb body (trim inner)).
      * destruct (run (delim_pat opn cls body) at0 (a :: s')) as [[pcs r]|]; [|discriminate].
        cbn [capture option_map fst snd] in H. injection H as H1 H2. subst r.
        apply pair_at_length in Ep. apply Nat.ltb_lt in Ep. rewrite Ep, IH.
        do 2 f_equal. exact H1.
      * destruct (run (delim_pat opn cls body) at0 (a :: s')) as [[pcs r]|]; [discriminate|].
        rewrite IH. reflexivity.
    + destruct (run (delim_pat opn cls body) at0 (a :: s')) as [[pcs r]|]; [discriminate|].
      rewrite IH. reflexivity.
Qed.

End Delimited.

(** ** Global replacement: the fuel is enough *)

Lemma replace_from_fuel p f : forall k1 k2 at0 s,
  (length s < k1)%nat -> (length s < k2)%nat ->
  replace_from k1 p f at0 s = replace_from k2 p f at0 s.
Proof.
  induction k1 as [|k1 IH]; intros k2 at0 s H1 H2; [lia|].
  destruct k2 as [|k2]; [lia|]. cbn [replace_from].
  destruct (run p at0 s) as [[pcs rest]|].
  - destruct (length rest <? length s)%nat eqn:E.
    + apply Nat.ltb_lt in E. f_equal. apply IH; lia.
    + destruct s as [|x s']; [reflexivity|]. do 2 f_equal. apply IH; simpl in *; lia.
  - destruct s as [|x s']; [reflexivity|]. f_equal. apply IH; simpl in *; lia.
Qed.

Lemma replace_from_S k p f at0 s :
  replace_from (S k) p f at0 s =
  match run p at0 s with
  | Some (pcs, rest) =>
      if (length rest <? length s)%nat
      then f pcs ++ replace_from k p f false rest
      else f pcs ++ match s with
                    | [] => []
                    | x :: s' => x :: replace_from k p f false s'
                    end
  | None =>
      match s with
      | [] => []
      | x :: s' => x :: replace_from k p f false s'
      end
  end.
Proof. reflexivity. Qed.

(** The equation of [replace_all]: one step of the search, at any place
    of the input. *)
Lemma replace_all_step p f at0 s :
  replace_from (S (length s)) p f at0 s =
  match run p at0 s with
  | Some (pcs, rest) =>
      if (length rest <? length s)%nat
      then f pcs ++ replace_from (S (length rest)) p f false rest
      else f pcs ++ match s with
                    | [] => []
                    | x :: s' => x :: replace_from (S (length s')) p f false s'
                    end
  | None =>
      match s with
      | [] => []
      | x :: s' => x :: replace_from (S (length s')) p f false s'
      end
  end.
Proof.
  rewrite replace_from_S.
  destruct (run p at0 s) as [[pcs rest]|].
  - destruct (length rest <? length s)%nat eqn:E.
    + apply Nat.ltb_lt in E. f_equal. apply replace_from_fuel; lia.
    + destruct s as [|x s']; reflexivity.
  - destruct s as [|x s']; reflexivity.
Qed.

Lemma replace_from_chr c v : forall k at0 s,
  (length s < k)%nat ->
  replace_from k [Chr c] (fun _ => [v]) at0 s = List.map (fun x => if c x then v else x) s.
Proof.
  induction k as [|k IH]; intros at0 s Hk; [lia|].
  destruct s as [|x s']; [reflexivity|].
  cbn [replace_from]. rewrite run_chr. simpl in Hk.
  destruct (c x) eqn:Ec; cbn [option_map run push fst snd List.map]; rewrite Ec.
  - assert (E : (length s' <? length (x :: s'))%nat = true) by (apply Nat.ltb_lt; simpl; lia).
    rewrite E. cbn [app]. f_equal. apply IH. lia.
  - f_equal. apply IH. lia.
Qed.

(** ** The canonicalizer, read from left to right *)

Lemma rewrite_pairs_ext opn cls ok1 ok2 wrap :
  (forall x, ok1 x = ok2 x) ->
  forall k s, rewrite_pairs k opn cls ok1 wrap s = rewrite_pairs k opn cls ok2 wrap s.
Proof.
  intros Hok. induction k as [|k IH]; intros s; [reflexivity|].
  cbn [rewrite_pairs]. destruct s as [|a s']; [reflexivity|].
  destruct (pair_at opn cls (a :: s')) as [[inner rest]|].
  - rewrite Hok. destruct (ok2 (trim inner)); rewrite IH; reflexivity.
  - rewrite IH. reflexivity.
Qed.

Lemma forallb_any s : forallb any s = true.
Proof. induction s; simpl; auto. Qed.

Lemma replace_all_chr c v s :
  replace_all [Chr c] (fun _ => [v]) s = List.map (fun x => if c x then v else x) s.
Proof. apply replace_from_chr. lia. Qed.

Lemma replace_all_block s :
  replace_all re_block block_repl s = rewrite_all 91 93 (fun _ => true) wrap_block s.
Proof.
  unfold replace_all, rewrite_all.
  change re_block with (delim_pat 91 93 any).
  change block_repl with (fun pcs => wrap_block (trim (nth 3 pcs []))).
  rewrite replace_from_delim. apply rewrite_pairs_ext. apply forallb_any.
Qed.

Lemma replace_all_inline s :
  replace_all re_inline inline_repl s = rewrite_all 40 41 single_line wrap_inline s.
Proof.
  unfold replace_all, rewrite_all.
  change re_inline with (delim_pat 40 41 dot).
  change inline_repl with (fun pcs => wrap_inline (trim (nth 3 pcs []))).
  rewrite replace_from_delim. reflexivity.
Qed.

Lemma scrub_steps s :
  replace_all re_odd_space (fun _ => [SP]) (replace_all re_nbsp (fun _ => [SP]) s)
  = scrub s.
Proof. unfold re_odd_space, re_nbsp. rewrite !replace_all_chr. reflexivity. Qed.

Lemma cleanLatexDelimiters_lines text :
  cleanLatexDelimiters text = canonicalize_lines text.
Proof.
  destruct text as [|c t]; [reflexivity|].
  unfold cleanLatexDelimiters, canonicalize_lines. cbn [truthy negb].
  rewrite replace_all_inline, replace_all_block, scrub_steps. reflexivity.
Qed.

Lemma rewrite_pairs_no_pair opn cls ok wrap s :
  has_pair opn cls s = false ->
  forall k, rewrite_pairs k opn cls ok wrap s = s.
Proof.
  induction s as [|a s IH]; intros H k; destruct k as [|k]; try reflexivity.
  cbn [rewrite_pairs]. cbn [has_pair] in H.
  destruct (pair_at opn cls (a :: s)); [discriminate|].
  rewrite (IH H). reflexivity.
Qed.

Lemma rewrite_all_no_pair opn cls ok wrap s :
  has_pair opn cls s = false -> rewrite_all opn cls ok wrap s = s.
Proof. intros H. apply rewrite_pairs_no_pair, H. Qed.

Lemma scrub_clean x : existsb disallowed_space x = false -> scrub x = x.
Proof.
  unfold scrub. rewrite List.map_map.
  induction x as [|c x IH]; [reflexivity|].
  cbn [existsb List.map]. unfold disallowed_space at 1.
  intros H. apply orb_false_iff in H as [H1 H2]. apply orb_false_iff in H1 as [Ha Hb].
  rewrite Ha, Hb, (IH H2). reflexivity.
Qed.

(** A text in canonical form is left as it is. *)
Lemma canonical_form_fixed x :
  canonical_form x = true -> cleanLatexDelimiters x = x.
Proof.
  unfold canonical_form. rewrite !andb_true_iff, !negb_true_iff.
  intros [[Hs Hb] Hi].
  rewrite cleanLatexDelimiters_lines. unfold canonicalize_lines.
  rewrite (scrub_clean _ Hs), (rewrite_all_no_pair _ _ _ _ _ Hb).
  apply rewrite_all_no_pair, Hi.
Qed.

(** ** One pair in a text without other backslashes *)

Lemma no_backslash_app a b :
  no_backslash (a ++ b) = no_backslash a && no_backslash b.
Proof. apply forallb_app. Qed.

Lemma pair_at_nobs opn cls a s :
  (a =? 92) = false -> pair_at opn cls (a :: s) = None.
Proof. intros H. unfold pair_at. destruct s; [reflexivity|]. rewrite H. reflexivity. Qed.

Lemma pair_at_other opn cls b s :
  (b =? opn) = false -> pair_at opn cls (92 :: b :: s) = None.
Proof. intros H. unfold pair_at. rewrite H, andb_false_r. reflexivity. Qed.

Lemma has_pair_app_nobs opn cls pre t :
  no_backslash pre = true -> has_pair opn cls (pre ++ t) = has_pair opn cls t.
Proof.
  induction pre as [|a pre IH]; [reflexivity|].
  cbn [no_backslash forallb]. rewrite andb_true_iff, negb_true_iff.
  intros [Ha Hp]. cbn [app has_pair]. rewrite (pair_at_nobs _ _ _ _ Ha). apply IH, Hp.
Qed.

Lemma has_pair_nobs opn cls s : no_backslash s = true -> has_pair opn cls s = false.
Proof.
  intros H. rewrite <- (app_nil_r s). rewrite (has_pair_app_nobs _ _ _ _ H). reflexivity.
Qed.

Lemma rewrite_pairs_app_nobs opn cls ok wrap pre t :
  no_backslash pre = true ->
  forall k, rewrite_pairs (length pre + k) opn cls ok wrap (pre ++ t)
            = pre ++ rewrite_pairs k opn cls ok wrap t.
Proof.
  induction pre as [|a pre IH]; [reflexivity|].
  cbn [no_backslash forallb]. rewrite andb_true_iff, negb_true_iff.
  intros [Ha Hp] k. cbn [app length Nat.add rewrite_pairs].
  rewrite (pair_at_nobs _ _ _ _ Ha), (IH Hp). reflexivity.
Qed.

Lemma find_close_app_nobs c inner post :
  no_backslash inner = true ->
  find_close c (inner ++ 92 :: c :: post) = Some (inner, post).
Proof.
  induction inner as [|a inner IH].
  - intros _. cbn [app]. rewrite find_close_eq, !N.eqb_refl. reflexivity.
  - cbn [no_backslash forallb]. rewrite andb_true_iff, negb_true_iff.
    intros [Ha Hp]. specialize (IH Hp). cbn [app]. rewrite find_close_eq, Ha.
    cbn [andb]. destruct inner as [|b inner']; cbn [app] in *; rewrite IH; reflexivity.
Qed.

Lemma forallb_trimStart (P : N -> bool) s :
  forallb P s = true -> forallb P (trimStart s) = true.
Proof.
  induction s as [|c s IH]; [auto|]. cbn [trimStart].
  destruct (is_space c); [|auto]. cbn [forallb]. rewrite andb_true_iff. tauto.
Qed.

Lemma forallb_trimEnd (P : N -> bool) s :
  forallb P s = true -> forallb P (trimEnd s) = true.
Proof.
  induction s as [|c s IH]; [auto|]. rewrite trimEnd_cons.
  cbn [forallb]. rewrite andb_true_iff. intros [Hc Hs]. specialize (IH Hs).
  destruct (trimEnd s) as [|d t].
  - destruct (is_space c); [reflexivity|]. simpl. rewrite Hc. reflexivity.
  - cbn [forallb] in *. rewrite Hc. exact IH.
Qed.

Lemma forallb_trim (P : N -> bool) s :
  forallb P s = true -> forallb P (trim s) = true.
Proof. intros H. apply forallb_trimEnd, forallb_trimStart, H. Qed.

Lemma rewrite_pairs_S k opn cls ok wrap a s :
  rewrite_pairs (S k) opn cls ok wrap (a :: s) =
  match pair_at opn cls (a :: s) with
  | Some (inner, rest) =>
      if ok (trim inner)
      then wrap (trim inner) ++ rewrite_pairs k opn cls ok wrap rest
      else a :: rewrite_pairs k opn cls ok wrap s
  | None => a :: rewrite_pairs k opn cls ok wrap s
  end.
Proof. reflexivity. Qed.

Lemma has_pair_cons opn cls a s :
  has_pair opn cls (a :: s) =
  match pair_at opn cls (a :: s) with
  | Some _ => true
  | None => has_pair opn cls s
  end.
Proof. reflexivity. Qed.

Section OnePair.

Variables (opn cls : N) (ok : jsstring -> bool) (wrap : jsstring -> jsstring).
Variables pre inner post : jsstring.
Hypothesis opn_nobs : (opn =? 92) = false.
Hypothesis cls_nobs : (cls =? 92) = false.
Hypothesis cls_opn : (cls =? opn) = false.
Hypothesis pre_nobs : no_backslash pre = true.
Hypothesis inner_nobs : no_backslash inner = true.
Hypothesis post_nobs : no_backslash post = true.

Lemma pair_at_one :
  pair_at opn cls (92 :: opn :: inner ++ 92 :: cls :: post) = Some (inner, post).
Proof.
  unfold pair_at. rewrite !N.eqb_refl. cbn [andb].
  apply find_close_app_nobs, inner_nobs.
Qed.

(** A pair whose trimmed content passes [ok] is rewritten, and nothing
    else changes. *)
Lemma rewrite_all_one_ok :
  ok (trim inner) = true ->
  rewrite_all opn cls ok wrap (pre ++ 92 :: opn :: inner ++ 92 :: cls :: post)
  = pre ++ wrap (trim inner) ++ post.
Proof.
  intros Hok. unfold rewrite_all.
  rewrite length_app, <- Nat.add_succ_r, (rewrite_pairs_app_nobs _ _ _ _ _ _ pre_nobs).
  f_equal. rewrite rewrite_pairs_S, pair_at_one, Hok. f_equal.
  apply rewrite_pairs_no_pair, has_pair_nobs, post_nobs.
Qed.

Lemma has_pair_after_open :
  has_pair opn cls (opn :: inner ++ 92 :: cls :: post) = false.
Proof.
  change (opn :: inner ++ 92 :: cls :: post) with ((opn :: inner) ++ 92 :: cls :: post).
  rewrite has_pair_app_nobs.
  2:{ cbn [no_backslash forallb]. rewrite opn_nobs. exact inner_nobs. }
  rewrite has_pair_cons, (pair_at_other _ _ _ _ cls_opn).
  apply has_pair_nobs. cbn [no_backslash forallb]. rewrite cls_nobs. exact post_nobs.
Qed.

(** A pair whose trimmed content fails [ok] stays as it is. *)
Lemma rewrite_all_one_not_ok :
  ok (trim inner) = false ->
  rewrite_all opn cls ok wrap (pre ++ 92 :: opn :: inner ++ 92 :: cls :: post)
  = pre ++ 92 :: opn :: inner ++ 92 :: cls :: post.
Proof.
  intros Hok. unfold rewrite_all.
  rewrite length_app, <- Nat.add_succ_r, (rewrite_pairs_app_nobs _ _ _ _ _ _ pre_nobs).
  f_equal. rewrite rewrite_pairs_S, pair_at_one, Hok. f_equal.
  apply rewrite_pairs_no_pair, has_pair_after_open.
Qed.

(** No pair of another kind [\o ... \c] is in the text. *)
Lemma has_pair_one_other o c :
  (opn =? o) = false -> (cls =? o) = false ->
  has_pair o c (pre ++ 92 :: opn :: inner ++ 92 :: cls :: post) = false.
Proof.
  intros Ho Hc. rewrite (has_pair_app_nobs _ _ _ _ pre_nobs).
  rewrite has_pair_cons, (pair_at_other _ _ _ _ Ho).
  change (opn :: inner ++ 92 :: cls :: post) with ((opn :: inner) ++ 92 :: cls :: post).
  rewrite has_pair_app_nobs.
  2:{ cbn [no_backslash forallb]. rewrite opn_nobs. exact inner_nobs. }
  rewrite has_pair_cons, (pair_at_other _ _ _ _ Hc).
  apply has_pair_nobs. cbn [no_backslash forallb]. rewrite cls_nobs. exact post_nobs.
Qed.

End OnePair.

(** ** One pair through the whole canonicalizer *)

Lemma existsb_app_false (P : N -> bool) a b :
  existsb P (a ++ b) = false <-> existsb P a = false /\ existsb P b = false.
Proof. rewrite existsb_app. apply orb_false_iff. Qed.

Lemma no_backslash_wrap_block c : no_backslash c = true -> no_backslash (wrap_block c) = true.
Proof.
  intros H. unfold wrap_block. rewrite !no_backslash_app, H. reflexivity.
Qed.

Lemma no_backslash_wrap_inline c : no_backslash c = true -> no_backslash (wrap_inline c) = true.
Proof.
  intros H. unfold wrap_inline. rewrite !no_backslash_app, H. reflexivity.
Qed.

Section OnePairClean.

Variables pre inner post : jsstring.
Hypothesis pre_nobs : no_backslash pre = true.
Hypothesis inner_nobs : no_backslash inner = true.
Hypothesis post_nobs : no_backslash post = true.
Hypothesis no_odd : existsb disallowed_space (pre ++ inner ++ post) = false.

Lemma one_pair_scrub o c :
  disallowed_space o = false -> disallowed_space c = false ->
  scrub (pre ++ 92 :: o :: inner ++ 92 :: c :: post)
  = pre ++ 92 :: o :: inner ++ 92 :: c :: post.
Proof.
  intros Ho Hc. apply scrub_clean.
  apply existsb_app_false in no_odd as [Hp Hr].
  apply existsb_app_false in Hr as [Hi Hq].
  apply existsb_app_false. split; [exact Hp|].
  cbn [existsb]. rewrite Ho. change (disallowed_space 92) with false. cbn [orb].
  apply existsb_app_false. split; [exact Hi|].
  cbn [existsb]. rewrite Hc. exact Hq.
Qed.

Lemma clean_one_block :
  cleanLatexDelimiters (pre ++ lit "\[" ++ inner ++ lit "\]" ++ post)
  = pre ++ wrap_block (trim inner) ++ post.
Proof.
  rewrite cleanLatexDelimiters_lines. unfold canonicalize_lines.
  change (pre ++ lit "\[" ++ inner ++ lit "\]" ++ post)
    with (pre ++ 92 :: 91 :: inner ++ 92 :: 93 :: post).
  rewrite one_pair_scrub by reflexivity.
  rewrite rewrite_all_one_ok by (reflexivity || assumption).
  apply rewrite_all_no_pair, has_pair_nobs.
  rewrite !no_backslash_app, pre_nobs, post_nobs.
  rewrite no_backslash_wrap_block; [reflexivity|].
  apply forallb_trim, inner_nobs.
Qed.

Lemma clean_one_inline :
  cleanLatexDelimiters (pre ++ lit "\(" ++ inner ++ lit "\)" ++ post)
  = if single_line (trim inner)
    then pre ++ wrap_inline (trim inner) ++ post
    else pre ++ lit "\(" ++ inner ++ lit "\)" ++ post.
Proof.
  rewrite cleanLatexDelimiters_lines. unfold canonicalize_lines.
  change (pre ++ lit "\(" ++ inner ++ lit "\)" ++ post)
    with (pre ++ 92 :: 40 :: inner ++ 92 :: 41 :: post).
  rewrite one_pair_scrub by reflexivity.
  rewrite (rewrite_all_no_pair 91 93).
  2:{ apply has_pair_one_other; (reflexivity || assumption). }
  destruct (single_line (trim inner)) eqn:E.
  - apply rewrite_all_one_ok; (reflexivity || assumption).
  - apply rewrite_all_one_not_ok; (reflexivity || assumption).
Qed.

End OnePairClean.

(** ** The claims on the canonicalizer *)



(** C8.  On a text in canonical form (no [\[..\]] pair, no [\(..\)] pair,
    none of the disallowed whitespace characters) the canonicalizer is
    idempotent. *)
Theorem cleanLatexDelimiters_idempotent_canonical x :
  canonical_form x = true ->
  cleanLatexDelimiters (cleanLatexDelimiters x) = cleanLatexDelimiters x.
Proof.
  intros H. rewrite !(canonical_form_fixed x H). reflexivity.
Qed.

Lemma cleanLatexDelimiters_idempotent_canonical_witness :
  let x := lit "Let $a=b$ and \[ open, \) close" in
  canonical_form x = true
  /\ cleanLatexDelimiters (cleanLatexDelimiters x) = cleanLatexDelimiters x.
Proof.
  cbv zeta. split; [reflexivity|].
  apply cleanLatexDelimiters_idempotent_canonical. reflexivity.
Defined.

(** ** The OCR extractor *)

Ltac run_step :=
  match goal with
  | |- context [match ?x with _ => _ end] => destruct x eqn:?
  | H : context [match ?x with _ => _ end] |- _ => destruct x eqn:?
  end.

Section Extractor.

Variable W : Type.
Variable host : Ops W.
Variable settings : AIOcrSettings.

(** A successful call returns what [parse_results] makes of the answer of
    the OCR service. *)
Lemma performMistralOCR_inv base64Data mimeType st st' r :
  performMistralOCR host settings base64Data mimeType st = (st', Ok r) ->
  exists w req resp,
    ocr_process host (mistralApiKey settings) req w = (world st', Ok resp)
    /\ r = parse_results (extractImages settings) resp.
Proof.
  unfold performMistralOCR.
  destruct (truthy (mistralApiKey settings)); cbn [negb]; [|discriminate].
  unfold bind, try_catch, setStatus, emit, ask, lift, call, throw, ret.
  cbn [world trace].
  intros H. repeat run_step; try discriminate.
  repeat match goal with
         | E : (_, _) = (_, _) |- _ => inversion E; clear E
         end.
  subst. cbn [world]. eauto.
Qed.

(** C5.  With an empty OCR credential the call throws at once: the state
    is the state before the call, so nothing was sent (no upload, no
    signed-URL request, no OCR request) and nothing else happened. *)
Theorem performMistralOCR_auth_gate base64Data mimeType st :
  mistralApiKey settings = [] ->
  performMistralOCR host settings base64Data mimeType st
  = (st, Throw (Error (lit "Mistral API Key not configured")))
  /\ filter is_network (trace (fst (performMistralOCR host settings base64Data mimeType st)))
     = filter is_network (trace st).
Proof.
  intros H. unfold performMistralOCR. rewrite H. split; reflexivity.
Qed.

(** C2 (as amended).  The empty-result check is made by the pipeline, not
    by the extractor: when the extraction succeeds with a markdown that is
    empty after trimming, [processImage] raises [Empty OCR Result], reports
    it in a notice and returns [null]; no image is saved and no formatting
    request is made.  ([performMistralOCR] itself returns the empty
    markdown as an ordinary result.) *)
Theorem processImage_empty_result currentPreset presetsDir base64Data mimeType
  modelOverride customInstruction st st' r :
  performMistralOCR host settings base64Data mimeType st = (st', Ok r) ->
  result_markdown r = [] ->
  processImage host settings currentPreset presetsDir base64Data mimeType
    modelOverride customInstruction st
  = ({| world := world st';
        trace := trace st' ++ [Notice ([0x274C] ++ lit " Error: Empty OCR Result"); Status []] |},
     Ok None).
Proof.
  intros H He. unfold processImage, try_catch, bind at 1. rewrite H, He.
  cbn. rewrite <- app_assoc. reflexivity.
Qed.

End Extractor.

(** ** The page join *)

Lemma join_cons sep x l :
  join sep (x :: l) = x ++ concat (List.map (fun y => sep ++ y) l).
Proof.
  revert x. induction l as [|y l IH]; intros x.
  - simpl. rewrite app_nil_r. reflexivity.
  - change (join sep (x :: y :: l)) with (x ++ sep ++ join sep (y :: l)).
    rewrite IH. cbn [List.map concat]. rewrite <- app_assoc. reflexivity.
Qed.

Lemma forEach_pages_fst extract l : forall i acc,
  fst (forEach_pages extract l (S i) acc)
  = fst acc ++ concat (List.map (fun y => page_separator ++ y) (List.map page_text l)).
Proof.
  induction l as [|p l IH]; intros i acc.
  - simpl. rewrite app_nil_r. reflexivity.
  - cbn [forEach_pages List.map concat]. rewrite IH.
    unfold add_page at 1. cbn [fst Nat.ltb Nat.leb]. unfold page_text at 2.
    rewrite <- !app_assoc. reflexivity.
Qed.

Lemma forEach_pages_join extract l :
  fst (forEach_pages extract l 0 ([], [])) = join page_separator (List.map page_text l).
Proof.
  destruct l as [|p l]; [reflexivity|].
  cbn [forEach_pages List.map]. rewrite forEach_pages_fst, join_cons. reflexivity.
Qed.

Lemma parse_results_markdown extract resp :
  result_markdown (parse_results extract resp)
  = trim (join page_separator (List.map page_text (response_pages resp))).
Proof.
  unfold parse_results, response_pages.
  destruct resp as [[[l|]]|]; try reflexivity.
  cbn [pages]. rewrite <- (forEach_pages_join extract l).
  destruct (forEach_pages extract l 0 ([], [])); reflexivity.
Qed.

(** A join of [n] texts holds [n - 1] separators. *)
Lemma join_length sep x l :
  length (join sep (x :: l))
  = (list_sum (List.map (@length N) (x :: l)) + length l * length sep)%nat.
Proof.
  revert x. induction l as [|y l IH]; intros x.
  - simpl. lia.
  - change (join sep (x :: y :: l)) with (x ++ sep ++ join sep (y :: l)).
    rewrite !length_app, IH.
    change (length (y :: l)) with (S (length l)).
    cbn [List.map list_sum fold_right]. lia.
Qed.

(** C3 (as amended).  The markdown a successful extraction returns is the
    trimmed join of the page texts (an absent text counting as empty) of
    the answer of the OCR service, the separator standing between
    consecutive pages only. *)
Theorem performMistralOCR_page_join W (host : Ops W) settings base64Data mimeType st st' r :
  performMistralOCR host settings base64Data mimeType st = (st', Ok r) ->
  exists w req resp,
    ocr_process host (mistralApiKey settings) req w = (world st', Ok resp)
    /\ result_markdown r
       = trim (join page_separator (List.map page_text (response_pages resp))).
Proof.
  intros H. destruct (performMistralOCR_inv _ _ _ _ _ _ _ _ H) as (w & req & resp & Hr & ->).
  exists w, req, resp. split; [exact Hr|]. apply parse_results_markdown.
Qed.

Lemma performMistralOCR_page_join_witness :
  exists w req resp,
    ocr_process (Mock.ops (Mock.answer [Mock.page (lit "A"); Mock.page (lit "B"); Mock.page (lit "C")])
                   [] (Throw (Error []))) (mistralApiKey Mock.with_key) req w
    = (Mock.empty, Ok resp)
    /\ lit "A" ++ page_separator ++ lit "B" ++ page_separator ++ lit "C"
       = trim (join page_separator (List.map page_text (response_pages resp))).
Proof.
  exact (performMistralOCR_page_join _
           (Mock.ops (Mock.answer [Mock.page (lit "A"); Mock.page (lit "B"); Mock.page (lit "C")])
              [] (Throw (Error [])))
           Mock.with_key (lit "QUJD") (lit "image/png") Mock.start _ _ eq_refl).
Defined.

(** The example of the specification: three pages, two separators. *)
Example page_join_three extract :
  result_markdown
    (parse_results extract
       (Mock.answer [Mock.page (lit "A"); Mock.page (lit "B"); Mock.page (lit "C")]))
  = lit "A" ++ [LF; LF] ++ lit "---" ++ [LF; LF] ++ lit "B"
    ++ [LF; LF] ++ lit "---" ++ [LF; LF] ++ lit "C".
Proof. destruct extract; reflexivity. Qed.

(** C3, as stated, fails: the returned markdown is trimmed, so it is not
    the join when the first page starts with whitespace. *)
Lemma page_join_is_trimmed :
  let pages := [Mock.page (lit " A"); Mock.page (lit "B")] in
  let out := performMistralOCR (Mock.ops (Mock.answer pages) [] (Throw (Error [])))
               Mock.with_key (lit "QUJD") (lit "image/png") Mock.start in
  option_map result_markdown (match snd out with Ok r => Some r | Throw _ => None end)
  = Some (lit "A" ++ page_separator ++ lit "B")
  /\ join page_separator (List.map page_text pages) = lit " A" ++ page_separator ++ lit "B"
  /\ lit "A" ++ page_separator ++ lit "B" <> lit " A" ++ page_separator ++ lit "B".
Proof.
  cbv zeta. split; [vm_compute; reflexivity|].
  split; [vm_compute; reflexivity|]. vm_compute. discriminate.
Qed.

Lemma performMistralOCR_auth_gate_witness :
  mistralApiKey DEFAULT_SETTINGS = []
  /\ performMistralOCR (Mock.ops None [] (Throw (Error []))) DEFAULT_SETTINGS
       (lit "QUJD") (lit "image/png") Mock.start
     = (Mock.start, Throw (Error (lit "Mistral API Key not configured"))).
Proof.
  split; [reflexivity|].
  exact (proj1 (performMistralOCR_auth_gate _ (Mock.ops None [] (Throw (Error []))) DEFAULT_SETTINGS
                  (lit "QUJD") (lit "image/png") Mock.start eq_refl)).
Defined.

Lemma processImage_empty_result_witness :
  let host := Mock.ops (Mock.answer []) [] (Throw (Error [])) in
  let st' := fst (performMistralOCR host Mock.with_key (lit "QUJD") (lit "image/png") Mock.start) in
  processImage host Mock.with_key [] (lit "presets") (lit "QUJD") (lit "image/png")
    None None Mock.start
  = ({| world := world st';
        trace := trace st' ++ [Notice ([0x274C] ++ lit " Error: Empty OCR Result"); Status []] |},
     Ok None).
Proof.
  cbv zeta.
  exact (processImage_empty_result _ (Mock.ops (Mock.answer []) [] (Throw (Error []))) Mock.with_key
           [] (lit "presets") (lit "QUJD") (lit "image/png") None None Mock.start
           _ {| result_markdown := []; result_images := [] |} eq_refl eq_refl).
Defined.

(** C2, as stated, fails: with a configured credential and an answer
    without pages the extraction succeeds, and its markdown is empty. *)
Lemma performMistralOCR_returns_empty :
  snd (performMistralOCR (Mock.ops (Mock.answer []) [] (Throw (Error []))) Mock.with_key
         (lit "QUJD") (lit "image/png") Mock.start)
  = Ok {| result_markdown := []; result_images := [] |}.
Proof. vm_compute. reflexivity. Qed.

(** ** The image table *)

(** Enumeration order: array indices first, ascending, then the other
    keys as they were created. *)
Example entries_order :
  Obj.keys (Obj.set (Obj.set (Obj.set (Obj.set [] (lit "b") 1) (lit "2") 2) (lit "a") 3)
              (lit "1") 4)
  = [lit "1"; lit "2"; lit "b"; lit "a"].
Proof. reflexivity. Qed.

Lemma eqb_eq s t : JS.eqb s t = true <-> s = t.
Proof.
  revert t. induction s as [|a s IH]; intros [|b t]; simpl; split; try discriminate; auto.
  - rewrite andb_true_iff, N.eqb_eq, IH. intros [-> ->]. reflexivity.
  - intros H. injection H as -> ->. rewrite N.eqb_refl. apply IH. reflexivity.
Qed.

Lemma eqb_refl s : JS.eqb s s = true.
Proof. apply eqb_eq. reflexivity. Qed.

Lemma eqb_neq s t : JS.eqb s t = false <-> s <> t.
Proof.
  split.
  - intros H E. apply eqb_eq in E. congruence.
  - intros H. destruct (JS.eqb s t) eqn:E; [|reflexivity]. apply eqb_eq in E. contradiction.
Qed.

Lemma get_define {V} (o : Obj.obj V) k v k' :
  Obj.get (Obj.define o k v) k' = if JS.eqb k k' then Some v else Obj.get o k'.
Proof.
  induction o as [|[k0 v0] o IH]; cbn [Obj.define Obj.get].
  - reflexivity.
  - destruct (JS.eqb k0 k) eqn:E0.
    + apply eqb_eq in E0. subst k0. cbn [Obj.get].
      destruct (JS.eqb k k'); reflexivity.
    + cbn [Obj.get]. destruct (JS.eqb k0 k') eqn:E1; [|exact IH].
      apply eqb_eq in E1. subst k0.
      destruct (JS.eqb k k') eqn:E2; [|reflexivity].
      apply eqb_eq in E2. subst k'. rewrite eqb_refl in E0. discriminate.
Qed.

(** An assignment is seen at its key, unless it was the assignment to
    [__proto__] that does nothing. *)
Lemma get_set {V} (o : Obj.obj V) k v k' :
  Obj.get (Obj.set o k v) k'
  = if JS.eqb k k'
       && (negb (JS.eqb k (lit "__proto__"))
           || match Obj.get o k with Some _ => true | None => false end)
    then Some v
    else Obj.get o k'.
Proof.
  unfold Obj.set. destruct (JS.eqb k (lit "__proto__")); cbn [negb orb].
  - destruct (Obj.get o k) eqn:E.
    + rewrite get_define, andb_true_r. reflexivity.
    + rewrite andb_false_r. reflexivity.
  - rewrite get_define, andb_true_r. reflexivity.
Qed.

Lemma split1_cons sep s :
  exists f fs, split1 sep s = f :: fs.
Proof.
  induction s as [|c s (f & fs & E)]; simpl; eauto.
  destruct (c =? sep); eauto. rewrite E. eauto.
Qed.

(** The first field and what follows it. *)
Lemma split1_spec sep s f fs :
  split1 sep s = f :: fs ->
  existsb (N.eqb sep) f = false
  /\ ((fs = [] /\ s = f) \/ exists s', s = f ++ sep :: s' /\ fs = split1 sep s').
Proof.
  revert f fs. induction s as [|c s IH]; intros f fs; simpl.
  - intros H. injection H as <- <-. auto.
  - destruct (c =? sep) eqn:Ec.
    + intros H. injection H as <- <-. apply N.eqb_eq in Ec. subst c.
      split; [reflexivity|]. right. exists s. auto.
    + destruct (split1_cons sep s) as (f' & fs' & E). rewrite E.
      intros H. injection H as <- <-. destruct (IH _ _ E) as [Hf Hs].
      split.
      * simpl. rewrite N.eqb_sym, Ec. exact Hf.
      * destruct Hs as [[-> ->]|(s' & -> & ->)]; [left; auto|right].
        exists s'. auto.
Qed.

Lemma split1_no_sep sep s :
  existsb (N.eqb sep) s = false -> split1 sep s = [s].
Proof.
  induction s as [|c s IH]; [reflexivity|]. simpl.
  rewrite orb_false_iff, N.eqb_sym. intros [Hc Hs]. rewrite Hc, (IH Hs). reflexivity.
Qed.

(** The second field of a text is what stands between its first
    separator and the next one. *)
Lemma split1_second sep s v :
  nth_error (split1 sep s) 1 = Some v ->
  exists prefix rest,
    s = prefix ++ sep :: v ++ rest
    /\ existsb (N.eqb sep) prefix = false
    /\ existsb (N.eqb sep) v = false
    /\ (rest = [] \/ exists rest', rest = sep :: rest').
Proof.
  destruct (split1_cons sep s) as (f & fs & E). rewrite E. cbn [nth_error].
  destruct (split1_spec _ _ _ _ E) as [Hf [[-> _]|(s' & -> & ->)]]; [discriminate|].
  destruct (split1_cons sep s') as (g & gs & E'). rewrite E'. cbn [nth_error].
  intros H. injection H as ->.
  destruct (split1_spec _ _ _ _ E') as [Hg [[_ ->]|(s'' & -> & _)]].
  - exists f, []. rewrite app_nil_r. auto.
  - exists f, (sep :: s''). repeat split; eauto.
Qed.

Lemma add_image_get imgs image k v :
  Obj.get (add_image imgs image) k = Some v ->
  Obj.get imgs k = Some v
  \/ (id image = k /\ v <> [] /\ is_payload_of v image).
Proof.
  unfold add_image, is_payload_of.
  destruct (imageBase64 image) as [p|] eqn:Ep; cbn [or_else].
  2:{ cbn. auto. }
  destruct (truthy p) eqn:Et.
  2:{ cbn. auto. }
  destruct (startsWith (lit "data:") p) eqn:Es.
  - destruct (nth_error (split1 44 p) 1) as [d|] eqn:En; [|auto].
    destruct (truthy d) eqn:Ed; [|auto].
    rewrite get_set. destruct (JS.eqb (id image) k) eqn:Ek; [|auto].
    cbn [andb]. destruct (_ || _); [|auto].
    intros H. injection H as <-. apply eqb_eq in Ek. right.
    split; [exact Ek|]. split; [destruct d; discriminate|].
    exists p. split; [reflexivity|]. right. split; [exact Es|].
    apply split1_second, En.
  - rewrite Et, get_set. destruct (JS.eqb (id image) k) eqn:Ek; [|auto].
    cbn [andb]. destruct (_ || _); [|auto].
    intros H. injection H as <-. apply eqb_eq in Ek. right.
    split; [exact Ek|]. split; [destruct p; discriminate|].
    exists p. auto.
Qed.

Lemma add_image_missing imgs image :
  payload_missing image = true -> add_image imgs image = imgs.
Proof.
  unfold payload_missing, add_image.
  destruct (imageBase64 image) as [[|c p]|]; try reflexivity.
  rewrite andb_true_iff, negb_true_iff. intros [Hs Hc].
  cbn [or_else truthy]. rewrite Hs, (split1_no_sep _ _ Hc). reflexivity.
Qed.

Lemma add_image_other imgs image k :
  id image <> k -> Obj.get (add_image imgs image) k = Obj.get imgs k.
Proof.
  intros H. apply eqb_neq in H. unfold add_image.
  destruct (if startsWith _ _ then _ else _) as [d|]; [|reflexivity].
  destruct (truthy d); [|reflexivity]. rewrite get_set, H. reflexivity.
Qed.

Lemma fold_add_image_get l : forall imgs k v,
  Obj.get (fold_left add_image l imgs) k = Some v ->
  Obj.get imgs k = Some v
  \/ exists image, In image l /\ id image = k /\ v <> [] /\ is_payload_of v image.
Proof.
  induction l as [|image l IH]; intros imgs k v; cbn [fold_left]; [auto|].
  intros H. destruct (IH _ _ _ H) as [H1|(im & Hin & Hrest)].
  - destruct (add_image_get _ _ _ _ H1) as [H2|H2]; [auto|].
    right. exists image. split; [left; reflexivity|exact H2].
  - right. exists im. split; [right; exact Hin|exact Hrest].
Qed.

Lemma fold_add_image_absent l k : forall imgs,
  (forall image, In image l -> id image = k -> payload_missing image = true) ->
  Obj.get (fold_left add_image l imgs) k = Obj.get imgs k.
Proof.
  induction l as [|image l IH]; intros imgs H; cbn [fold_left]; [reflexivity|].
  rewrite IH by (intros im Hin; apply H; right; exact Hin).
  destruct (JS.eqb (id image) k) eqn:E.
  - apply eqb_eq in E. rewrite add_image_missing; [reflexivity|].
    apply H; [left; reflexivity|exact E].
  - apply eqb_neq in E. apply add_image_other, E.
Qed.

Lemma is_base64_no_comma s : is_base64 s = true -> existsb (N.eqb 44) s = false.
Proof.
  induction s as [|c s IH]; [reflexivity|]. cbn [is_base64 forallb existsb].
  rewrite andb_true_iff. intros [Hc Hs]. rewrite (IH Hs), orb_false_r.
  destruct (N.eqb_spec 44 c) as [<-|]; [discriminate|reflexivity].
Qed.

Lemma is_base64_not_data s : is_base64 s = true -> startsWith (lit "data:") s = false.
Proof.
  intros H. destruct (startsWith (lit "data:") s) eqn:E; [|reflexivity].
  change (lit "data:") with [100; 97; 116; 97; 58] in E.
  destruct s as [|a [|b [|c [|d [|e s]]]]]; cbn [startsWith] in E;
    rewrite ?andb_false_r in E; try discriminate.
  rewrite !andb_true_iff, !N.eqb_eq in E.
  destruct E as (_ & _ & _ & _ & E & _). subst e.
  cbn [is_base64 forallb] in H. rewrite !andb_true_iff in H.
  destruct H as (_ & _ & _ & _ & H & _). discriminate.
Qed.

Lemma startsWith_app p a b : startsWith p a = true -> startsWith p (a ++ b) = true.
Proof.
  revert a. induction p as [|x p IH]; intros [|y a]; simpl; try discriminate; auto.
  rewrite !andb_true_iff. intros [H1 H2]. auto.
Qed.

(** The position of the first separator of a text is determined. *)
Lemma first_sep_unique sep a1 b1 a2 b2 :
  existsb (N.eqb sep) a1 = false -> existsb (N.eqb sep) a2 = false ->
  a1 ++ sep :: b1 = a2 ++ sep :: b2 -> a1 = a2 /\ b1 = b2.
Proof.
  revert a2. induction a1 as [|x a1 IH]; intros [|y a2]; cbn [existsb app].
  - intros _ _ H. injection H as ->. auto.
  - rewrite orb_false_iff. intros _ [Hy _] H. injection H as -> _.
    rewrite N.eqb_refl in Hy. discriminate.
  - rewrite orb_false_iff. intros [Hx _] _ H. injection H as -> _.
    rewrite N.eqb_refl in Hx. discriminate.
  - rewrite !orb_false_iff. intros [_ H1] [_ H2] H. injection H as -> H.
    destruct (IH _ H1 H2 H) as [-> ->]. auto.
Qed.

(** With payloads as the service documents them, the values are base64
    text. *)
Lemma payload_base64 v image :
  is_payload_of v image ->
  (forall p, imageBase64 image = Some p -> well_formed_payload p) ->
  is_base64 v = true.
Proof.
  intros (p & Hp & Hv) Hw. specialize (Hw p Hp).
  destruct Hv as [[Hs ->]|(Hs & prefix & rest & -> & Hc1 & Hc2 & Hr)].
  - destruct Hw as [Hb|(header & data & -> & Hh & _ & _)]; [exact Hb|].
    rewrite (startsWith_app _ _ _ Hh) in Hs. discriminate.
  - destruct Hw as [Hb|(header & data & E & Hh & Hc & Hd)].
    + rewrite (is_base64_not_data _ Hb) in Hs. discriminate.
    + symmetry in E. destruct (first_sep_unique _ _ _ _ _ Hc Hc1 E) as [-> ->].
      unfold is_base64 in *. rewrite forallb_app in Hd.
      apply andb_true_iff in Hd. tauto.
Qed.

Lemma forEach_pages_snd extract l : forall i acc,
  snd (forEach_pages extract l i acc)
  = if extract
    then fold_left add_image
           (flat_map (fun page => match images page with Some il => il | None => [] end) l)
           (snd acc)
    else snd acc.
Proof.
  induction l as [|p l IH]; intros i acc.
  - destruct extract; reflexivity.
  - cbn [forEach_pages flat_map]. rewrite IH. unfold add_page. cbn [snd].
    destruct extract; [|destruct (images p); reflexivity].
    rewrite fold_left_app. destruct (images p) as [[|im il]|]; reflexivity.
Qed.

Lemma parse_results_images extract resp :
  result_images (parse_results extract resp)
  = if extract then fold_left add_image (response_images resp) [] else [].
Proof.
  unfold parse_results, response_images, response_pages.
  destruct resp as [[[l|]]|]; try (destruct extract; reflexivity).
  cbn [pages]. pose proof (forEach_pages_snd extract l 0 ([], [])) as E.
  destruct (forEach_pages extract l 0 ([], [])). exact E.
Qed.

(** C10 (as amended).  Every value of the image table a successful
    extraction returns is a non-empty string: the payload of an image of
    that name in the answer, with a leading [data:] prefix removed.  The
    payload is stored as it comes; it is base64 text when the payload is
    base64 text or a data URL of base64 text.  An image whose payload is
    absent, empty or a [data:] URL without a comma adds no entry: a name
    that only such images carry is not in the table. *)
Theorem performMistralOCR_images W (host : Ops W) settings base64Data mimeType st st' r :
  performMistralOCR host settings base64Data mimeType st = (st', Ok r) ->
  exists w req resp,
    ocr_process host (mistralApiKey settings) req w = (world st', Ok resp)
    /\ (forall k v,
          Obj.get (result_images r) k = Some v ->
          v <> [] /\ exists image,
                       In image (response_images resp) /\ id image = k
                       /\ is_payload_of v image
                       /\ ((forall p, imageBase64 image = Some p -> well_formed_payload p) ->
                           is_base64 v = true))
    /\ (forall k,
          (forall image, In image (response_images resp) -> id image = k ->
                         payload_missing image = true) ->
          Obj.get (result_images r) k = None).
Proof.
  intros H. destruct (performMistralOCR_inv _ _ _ _ _ _ _ _ H) as (w & req & resp & Hr & ->).
  exists w, req, resp. split; [exact Hr|].
  rewrite parse_results_images. split.
  - intros k v Hg. destruct (extractImages settings); [|discriminate].
    destruct (fold_add_image_get _ _ _ _ Hg) as [Hn|(im & Hin & Hid & Hv & Hp)].
    + discriminate.
    + split; [exact Hv|]. exists im. repeat split; auto.
      apply payload_base64, Hp.
  - intros k Hk. destruct (extractImages settings); [|reflexivity].
    rewrite (fold_add_image_absent _ _ _ Hk). reflexivity.
Qed.

Lemma performMistralOCR_images_witness :
  let answer :=
    Some {| pages := Some
      [ {| markdown := Some (lit "page");
           images := Some
             [ {| id := lit "img-0.jpeg";
                  imageBase64 := Some (lit "data:image/jpeg;base64,AAAA") |};
               {| id := lit "img-1.jpeg"; imageBase64 := None |};
               {| id := lit "img-2.jpeg"; imageBase64 := Some (lit "data:nocomma") |};
               {| id := lit "img-3.jpeg"; imageBase64 := Some [] |} ] |} ] |} in
  let table := [(lit "img-0.jpeg", lit "AAAA")] in
  exists w req resp,
    ocr_process (Mock.ops answer [] (Throw (Error []))) (mistralApiKey Mock.with_key) req w
    = (Mock.empty, Ok resp)
    /\ (forall k v,
          Obj.get table k = Some v ->
          v <> [] /\ exists image,
                       In image (response_images resp) /\ id image = k
                       /\ is_payload_of v image
                       /\ ((forall p, imageBase64 image = Some p -> well_formed_payload p) ->
                           is_base64 v = true))
    /\ (forall k,
          (forall image, In image (response_images resp) -> id image = k ->
                         payload_missing image = true) ->
          Obj.get table k = None).
Proof.
  cbv zeta.
  exact (performMistralOCR_images _
           (Mock.ops
              (Some {| pages := Some
                 [ {| markdown := Some (lit "page");
                      images := Some
                        [ {| id := lit "img-0.jpeg";
                             imageBase64 := Some (lit "data:image/jpeg;base64,AAAA") |};
                          {| id := lit "img-1.jpeg"; imageBase64 := None |};
                          {| id := lit "img-2.jpeg"; imageBase64 := Some (lit "data:nocomma") |};
                          {| id := lit "img-3.jpeg"; imageBase64 := Some [] |} ] |} ] |})
              [] (Throw (Error [])))
           Mock.with_key (lit "QUJD") (lit "image/png") Mock.start _ _ eq_refl).
Defined.

(** C10, as stated, fails: the payload is not checked.  A payload that
    is not base64 text is stored as it is, and so is a data URL whose
    scheme is not in lower case, prefix included. *)
Lemma performMistralOCR_stores_any_payload :
  let answer :=
    Some {| pages := Some
      [ {| markdown := Some (lit "page");
           images := Some
             [ {| id := lit "img-0.svg"; imageBase64 := Some (lit "<svg/>") |};
               {| id := lit "img-1.png";
                  imageBase64 := Some (lit "DATA:image/png;base64,AAAA") |} ] |} ] |} in
  let out := performMistralOCR (Mock.ops answer [] (Throw (Error []))) Mock.with_key
               (lit "QUJD") (lit "image/png") Mock.start in
  option_map result_images (match snd out with Ok r => Some r | Throw _ => None end)
  = Some [(lit "img-0.svg", lit "<svg/>");
          (lit "img-1.png", lit "DATA:image/png;base64,AAAA")]
  /\ is_base64 (lit "<svg/>") = false
  /\ is_base64 (lit "DATA:image/png;base64,AAAA") = false.
Proof. vm_compute. repeat split. Qed.

(** An image named [__proto__] adds no entry either: the assignment
    [images["__proto__"] = base64Data] creates no property. *)
Example parse_results_proto :
  result_images
    (parse_results true
       (Some {| pages := Some
          [ {| markdown := Some (lit "page");
               images := Some
                 [ {| id := lit "__proto__"; imageBase64 := Some (lit "AAAA") |};
                   {| id := lit "img-1.png"; imageBase64 := Some (lit "BBBB") |} ] |} ] |}))
  = [(lit "img-1.png", lit "BBBB")].
Proof. reflexivity. Qed.

(** ** Image persistence *)

Section Persistence.

Variable W : Type.
Variable host : Ops W.
Variable settings : AIOcrSettings.





Lemma target_folder_path basePath st st1 tf :
  target_folder host settings basePath st = (st1, Ok tf) ->
  tf = if truthy (imageSubfolder settings)
       then basePath ++ lit "/" ++ imageSubfolder settings
       else basePath.
Proof.
  unfold target_folder. destruct (truthy (imageSubfolder settings)).
  - unfold bind, ask, call, ret. intros H. repeat run_step; try discriminate;
      inversion H; reflexivity.
  - intros H. inversion H. reflexivity.
Qed.



End Persistence.


(** The example of the specification: of three images the second fails
    to write; the table holds the first and the third. *)
Example saveOCRImages_second_fails :
  snd (saveOCRImages (Mock.ops None [lit "notes/assets/img-1.jpeg"] (Throw (Error []))) Mock.with_key
         [(lit "img-0.jpeg", lit "AAAA"); (lit "img-1.jpeg", lit "BBBB");
          (lit "img-2.jpeg", lit "CCCC")]
         (lit "notes") Mock.start)
  = Ok [(lit "img-0.jpeg", lit "notes/assets/img-0.jpeg");
        (lit "img-2.jpeg", lit "notes/assets/img-2.jpeg")].
Proof. vm_compute. reflexivity. Qed.

(** An image that is overwritten: the file is there already. *)
Example saveOCRImages_overwrites :
  let st := {| world := {| Mock.files := [lit "notes/assets/img-0.jpeg"];
                           Mock.folders := [lit "notes/assets"] |};
               trace := [] |} in
  trace (fst (saveOCRImages (Mock.ops None [] (Throw (Error []))) Mock.with_key
                [(lit "img-0.jpeg", lit "AAAA"); (lit "img-1.jpeg", lit "BBBB")]
                (lit "notes") st))
  = [ModifyBinary (lit "notes/assets/img-0.jpeg") (lit "AAAA");
     CreateBinary (lit "notes/assets/img-1.jpeg") (lit "BBBB");
     Notice ([0xD83D; 0xDCF7] ++ lit " Saved 2 images")].
Proof. vm_compute. reflexivity. Qed.


(** ** The response normalizer *)

(** C1 (as amended).  The handling of the completion text never fails:
    for every completion text it returns a text and throws nothing.  When
    the cleaned text (think-blocks and code fences stripped) parses and
    validates, the result is the [formatted_markdown] passed through the
    canonicalizer; when it does not, the result is the cleaned text
    itself, as it is. *)
Theorem normalize_response_total W editor raw (st : State W) :
  exists st',
    normalize_response editor raw st
    = (st', Ok match parse_formatted (strip_fences (strip_think raw)) with
               | Some formatted_markdown => cleanLatexDelimiters formatted_markdown
               | None => strip_fences (strip_think raw)
               end)
    /\ world st' = world st.
Proof.
  unfold normalize_response.
  destruct (parse_formatted (strip_fences (strip_think raw))) as [md|].
  - destruct editor; eexists; split; reflexivity.
  - eexists; split; reflexivity.
Qed.

(** C1, as stated, fails: a completion that is not JSON comes back as it
    is; the canonicalizer would have rewritten it. *)
Lemma normalize_response_fallback_not_canonicalized :
  let raw := lit "\( a \)" in
  parse_formatted (strip_fences (strip_think raw)) = None
  /\ snd (normalize_response false raw Mock.start) = Ok raw
  /\ cleanLatexDelimiters (strip_fences (strip_think raw)) = lit "$a$".
Proof.
  cbv zeta. split; [vm_compute; reflexivity|].
  split; vm_compute; reflexivity.
Qed.

(** The examples of the specification: the valid path, a think-block in
    front of the document, a fenced document. *)
Example normalize_valid_json :
  snd (normalize_response false
         (lit "{" ++ [QUOTE] ++ lit "formatted_markdown" ++ [QUOTE] ++ lit ": "
          ++ [QUOTE] ++ lit "# Title\nBody" ++ [QUOTE] ++ lit ", "
          ++ [QUOTE] ++ lit "confidence_score" ++ [QUOTE] ++ lit ": 0.9}")
         Mock.start)
  = Ok (lit "# Title" ++ [LF] ++ lit "Body").
Proof. vm_compute. reflexivity. Qed.

Example normalize_think_block :
  snd (normalize_response false
         (lit "<think>scratch</think>{" ++ [QUOTE] ++ lit "formatted_markdown" ++ [QUOTE]
          ++ lit ":" ++ [QUOTE] ++ lit "ok" ++ [QUOTE] ++ lit "}")
         Mock.start)
  = Ok (lit "ok").
Proof. vm_compute. reflexivity. Qed.

Example normalize_fenced :
  snd (normalize_response false
         (lit "```json" ++ [LF] ++ lit "{" ++ [QUOTE] ++ lit "formatted_markdown" ++ [QUOTE]
          ++ lit ":" ++ [QUOTE] ++ lit "\\( x \\)" ++ [QUOTE] ++ lit "}" ++ [LF] ++ lit "```")
         Mock.start)
  = Ok (lit "$x$").
Proof. vm_compute. reflexivity. Qed.

(** ** A span in any context *)

Lemma find_close_app_some c X Y i r :
  find_close c X = Some (i, r) -> find_close c (X ++ Y) = Some (i, r ++ Y).
Proof.
  revert i r. induction X as [|a X IH]; intros i r; [discriminate|].
  rewrite find_close_eq. destruct X as [|b X']; [discriminate|].
  cbn [app]. rewrite (find_close_eq c a (b :: X' ++ Y)). cbn [app] in IH.
  destruct ((a =? 92) && (b =? c)).
  - intros H. injection H as <- <-. reflexivity.
  - destruct (find_close c (b :: X')) as [[i' r']|]; [|discriminate].
    intros H. injection H as <- <-. rewrite (IH _ _ eq_refl). reflexivity.
Qed.

Lemma find_close_app_none c X Y :
  (c =? 92) = false ->
  find_close c X = None ->
  find_close c (X ++ 92 :: Y) = option_map (prepend X) (find_close c (92 :: Y)).
Proof.
  intros Hc. induction X as [|a X IH].
  - intros _. cbn [app]. destruct (find_close c (92 :: Y)) as [[i r]|]; reflexivity.
  - rewrite find_close_eq. destruct X as [|b X'].
    + intros _. cbn [app]. rewrite find_close_eq, (N.eqb_sym 92 c), Hc, andb_false_r.
      destruct (find_close c (92 :: Y)) as [[i r]|]; reflexivity.
    + cbn [app]. rewrite (find_close_eq c a (b :: X' ++ 92 :: Y)). cbn [app] in IH.
      destruct ((a =? 92) && (b =? c)); [discriminate|].
      destruct (find_close c (b :: X')) as [[i' r']|]; [discriminate|].
      intros _. rewrite (IH eq_refl).
      destruct (find_close c (92 :: Y)) as [[i r]|]; reflexivity.
Qed.

Lemma find_close_nobs_prefix c P Z :
  no_backslash P = true ->
  find_close c (P ++ Z) = option_map (prepend P) (find_close c Z).
Proof.
  induction P as [|a P IH].
  - intros _. cbn [app]. destruct (find_close c Z) as [[i r]|]; reflexivity.
  - cbn [no_backslash forallb]. rewrite andb_true_iff, negb_true_iff.
    intros [Ha Hp]. specialize (IH Hp). cbn [app]. rewrite find_close_eq, Ha. cbn [andb].
    rewrite IH. destruct (P ++ Z) as [|b t] eqn:E.
    + destruct P; [|discriminate]. cbn [app] in E. subst Z. reflexivity.
    + destruct (find_close c Z) as [[i r]|]; reflexivity.
Qed.

Lemma rewrite_pairs_skip opn cls ok wrap P B :
  no_open opn P = true ->
  forall k, exists B', rewrite_pairs k opn cls ok wrap (P ++ B) = P ++ B'.
Proof.
  induction P as [|a P IH]; intros H k.
  - eexists. reflexivity.
  - destruct k as [|k]; [exists B; reflexivity|].
    cbn [app]. rewrite rewrite_pairs_S.
    assert (Hp : pair_at opn cls (a :: P ++ B) = None /\ no_open opn P = true).
    { cbn [no_open] in H. destruct P as [|b P'].
      - apply negb_true_iff in H. split; [|reflexivity].
        apply pair_at_nobs, H.
      - apply andb_true_iff in H as [H1 H2]. split; [|exact H2].
        apply negb_true_iff in H1. unfold pair_at. cbn [app]. rewrite H1. reflexivity. }
    destruct Hp as [Hp Hn]. rewrite Hp.
    destruct (IH Hn k) as (B' & E). rewrite E. exists B'. reflexivity.
Qed.

Lemma no_open_cons2 opn a b s :
  no_open opn (a :: b :: s) = negb ((a =? 92) && (b =? opn)) && no_open opn (b :: s).
Proof. reflexivity. Qed.

Lemma no_open_nobs opn P : no_backslash P = true -> no_open opn P = true.
Proof.
  induction P as [|a P IH]; [reflexivity|].
  cbn [no_backslash forallb no_open]. rewrite andb_true_iff, negb_true_iff.
  intros [Ha Hp]. rewrite Ha. destruct P; [reflexivity|]. cbn [andb negb]. apply IH, Hp.
Qed.

Lemma no_open_app opn P c Q :
  no_backslash P = true -> no_open opn (c :: Q) = true ->
  no_open opn (P ++ c :: Q) = true.
Proof.
  intros Hp Hq. induction P as [|a P IH]; [exact Hq|].
  cbn [no_backslash forallb] in Hp. apply andb_true_iff in Hp as [Ha Hp].
  apply negb_true_iff in Ha. cbn [app no_open].
  destruct (P ++ c :: Q) eqn:E; [destruct P; discriminate|].
  rewrite Ha. cbn [andb negb]. apply IH, Hp.
Qed.

(** Trimming does not reach into a text between two code units that are
    not whitespace. *)
Lemma trimStart_keeps X c Z :
  is_space c = false -> exists T, trimStart (X ++ c :: Z) = T ++ c :: Z.
Proof.
  intros Hc. induction X as [|a X (T & E)].
  - exists []. cbn. rewrite Hc. reflexivity.
  - cbn [app trimStart]. destruct (is_space a); [exists T; exact E|].
    exists (a :: X). reflexivity.
Qed.

Lemma trimEnd_app L M : trimEnd M <> [] -> trimEnd (L ++ M) = L ++ trimEnd M.
Proof.
  intros H. induction L as [|a L IH]; [reflexivity|].
  cbn [app]. rewrite trimEnd_cons, IH.
  destruct (L ++ trimEnd M) eqn:E; [|reflexivity].
  destruct L; [|discriminate]. cbn [app] in E. contradiction.
Qed.

Lemma trimEnd_keeps L c Y :
  is_space c = false -> trimEnd (L ++ c :: Y) = L ++ c :: trimEnd Y.
Proof.
  intros Hc. rewrite trimEnd_app; rewrite (trimEnd_nonspace_head _ _ Hc);
    [reflexivity|discriminate].
Qed.

Lemma trim_keeps X c M d Y :
  is_space c = false -> is_space d = false ->
  exists T1 T2, trim (X ++ c :: M ++ d :: Y) = T1 ++ c :: M ++ d :: T2.
Proof.
  intros Hc Hd. unfold trim.
  destruct (trimStart_keeps X c (M ++ d :: Y) Hc) as (T1 & E). rewrite E.
  exists T1, (trimEnd Y).
  change (T1 ++ c :: M ++ d :: Y) with (T1 ++ (c :: M) ++ d :: Y).
  rewrite app_assoc, (trimEnd_keeps _ _ _ Hd), <- app_assoc. reflexivity.
Qed.

Lemma free_of_none c s : free_of c s = true -> find_close c s = None.
Proof. unfold free_of. destruct (find_close c s); [discriminate|reflexivity]. Qed.

(** The closing delimiter after a content that holds none is the nearest
    one. *)
Lemma find_close_pair c inner post :
  (c =? 92) = false -> find_close c inner = None ->
  find_close c (inner ++ 92 :: c :: post) = Some (inner, post).
Proof.
  intros Hc H. rewrite (find_close_app_none c inner _ Hc H), find_close_eq, !N.eqb_refl.
  unfold prepend. cbn. rewrite app_nil_r. reflexivity.
Qed.

Lemma find_close_head c a s :
  (a =? 92) = false -> find_close c (a :: s) = option_map (cons_fst a) (find_close c s).
Proof. intros Ha. rewrite find_close_eq, Ha. destruct s; reflexivity. Qed.

Lemma no_open_through opn P Q :
  (opn =? 92) = false -> find_close opn P = None ->
  no_open opn (92 :: Q) = true -> no_open opn (P ++ 92 :: Q) = true.
Proof.
  intros Ho. induction P as [|a P IH]; intros Hp Hq; [exact Hq|].
  cbn [app]. destruct P as [|b P'].
  - cbn [app] in *. rewrite no_open_cons2, (N.eqb_sym 92 opn), Ho, andb_false_r.
    exact Hq.
  - cbn [app] in *. rewrite no_open_cons2. rewrite find_close_eq in Hp.
    destruct ((a =? 92) && (b =? opn)); [discriminate|].
    destruct (find_close opn (b :: P')) as [[i r]|] eqn:E; [discriminate|].
    cbn [negb andb]. apply IH; [reflexivity|exact Hq].
Qed.

Section SpanKept.

Variable inner : jsstring.
Hypothesis inner_no_open : find_close 91 inner = None.
Hypothesis inner_no_close : find_close 93 inner = None.

Lemma span_shape B :
  inline_span inner ++ B = 92 :: 40 :: inner ++ 92 :: 41 :: B.
Proof. unfold inline_span. cbn [app]. rewrite <- app_assoc. reflexivity. Qed.

Lemma find_close_span_block B :
  find_close 93 (inline_span inner ++ B)
  = option_map (prepend (inline_span inner)) (find_close 93 B).
Proof.
  rewrite span_shape, find_close_eq. cbn [N.eqb Pos.eqb andb].
  change (40 :: inner ++ 92 :: 41 :: B) with ((40 :: inner) ++ 92 :: 41 :: B).
  rewrite find_close_app_none;
    [|reflexivity|rewrite find_close_head, inner_no_close; reflexivity].
  rewrite find_close_eq. cbn [N.eqb Pos.eqb andb].
  rewrite (find_close_head 93 41 B eq_refl).
  destruct (find_close 93 B) as [[i r]|]; [|reflexivity].
  unfold cons_fst, prepend, inline_span. cbn [option_map fst snd app].
  rewrite <- !app_assoc. reflexivity.
Qed.

Lemma no_open_span_block : no_open 91 (inline_span inner) = true.
Proof.
  unfold inline_span. rewrite no_open_cons2. cbn [N.eqb Pos.eqb andb negb].
  change (40 :: inner ++ [92; 41]) with ((40 :: inner) ++ [92; 41]).
  apply no_open_through; [reflexivity| |reflexivity].
  rewrite find_close_head, inner_no_open; reflexivity.
Qed.

(** The block rewrite keeps the span, wherever it stands. *)
Lemma block_keeps_span k : forall X B,
  exists X' B',
    rewrite_pairs k 91 93 (fun _ => true) wrap_block (X ++ inline_span inner ++ B)
    = X' ++ inline_span inner ++ B'.
Proof.
  induction k as [|k IH]; intros X B; [exists X, B; reflexivity|].
  destruct X as [|a X1].
  - destruct (rewrite_pairs_skip 91 93 (fun _ => true) wrap_block _ B no_open_span_block (S k))
      as (B' & E).
    exists [], B'. exact E.
  - cbn [app]. rewrite rewrite_pairs_S.
    destruct (pair_at 91 93 (a :: X1 ++ inline_span inner ++ B)) as [[i r]|] eqn:Ep.
    2:{ destruct (IH X1 B) as (X' & B' & E). rewrite E. exists (a :: X'), B'. reflexivity. }
    unfold pair_at in Ep.
    destruct X1 as [|b X2].
    { cbn [app] in Ep. rewrite span_shape in Ep.
      rewrite andb_false_r in Ep. discriminate. }
    cbn [app] in Ep. destruct ((a =? 92) && (b =? 91)); [|discriminate].
    destruct (find_close 93 X2) as [[i' r']|] eqn:Ef.
    + rewrite (find_close_app_some _ _ _ _ _ Ef) in Ep. injection Ep as <- <-.
      change (92 :: 40 :: (inner ++ [92; 41]) ++ B) with (inline_span inner ++ B).
      destruct (IH r' B) as (X' & B' & E). rewrite E.
      exists (wrap_block (trim i') ++ X'), B'. rewrite <- app_assoc. reflexivity.
    + rewrite span_shape, (find_close_app_none 93 X2 _ eq_refl Ef) in Ep.
      rewrite <- span_shape, find_close_span_block in Ep.
      destruct (find_close 93 B) as [[iB rB]|]; [|discriminate].
      cbn [option_map prepend fst snd] in Ep. injection Ep as <- <-.
      unfold inline_span.
      destruct (trim_keeps X2 92 (40 :: inner ++ [92]) 41 iB eq_refl eq_refl)
        as (T1 & T2 & E).
      assert (Es : forall Z, 92 :: 40 :: (inner ++ [92; 41]) ++ Z
                             = 92 :: (40 :: inner ++ [92]) ++ 41 :: Z).
      { intros Z. cbn [app]. rewrite <- !app_assoc. reflexivity. }
      rewrite Es, E. unfold wrap_block.
      exists (lit "$$" ++ [LF] ++ T1),
        (T2 ++ [LF] ++ lit "$$"
         ++ rewrite_pairs k 91 93 (fun _ => true) wrap_block rB).
      change ((92 :: 40 :: inner ++ [92; 41]) ++ ?Z)
        with (92 :: 40 :: (inner ++ [92; 41]) ++ Z).
      rewrite Es. repeat (rewrite <- app_assoc || cbn [app]). reflexivity.
Qed.

End SpanKept.

Section SpanKeptInline.

Variable inner : jsstring.
Hypothesis inner_no_open : find_close 40 inner = None.
Hypothesis inner_no_close : find_close 41 inner = None.
Hypothesis inner_lines : single_line (trim inner) = false.

Lemma find_close_span_inline B :
  find_close 41 (inline_span inner ++ B) = Some (92 :: 40 :: inner, B).
Proof.
  rewrite span_shape, find_close_eq. cbn [N.eqb Pos.eqb andb].
  rewrite (find_close_head 41 40 _ eq_refl).
  rewrite (find_close_pair 41 inner B eq_refl inner_no_close). reflexivity.
Qed.

Lemma no_open_span_rest : no_open 40 (40 :: inner ++ [92; 41]) = true.
Proof.
  change (40 :: inner ++ [92; 41]) with ((40 :: inner) ++ [92; 41]).
  apply no_open_through; [reflexivity| |reflexivity].
  rewrite find_close_head, inner_no_open; reflexivity.
Qed.

(** A pair that ends at the closing delimiter of the span holds the line
    break of the span. *)
Lemma single_line_through X :
  single_line (trim (X ++ 92 :: 40 :: inner)) = false.
Proof.
  destruct (single_line (trim (X ++ 92 :: 40 :: inner))) eqn:E; [|reflexivity].
  rewrite <- inner_lines. symmetry. apply forallb_trimEnd_trim.
  unfold trim in E.
  destruct (trimStart_keeps X 92 (40 :: inner) eq_refl) as (T & Et). rewrite Et in E.
  change (T ++ 92 :: 40 :: inner) with (T ++ 92 :: [] ++ 40 :: inner) in E.
  rewrite app_comm_cons, app_assoc in E.
  rewrite (trimEnd_keeps _ 40 inner eq_refl) in E.
  unfold single_line in E. rewrite forallb_app in E.
  apply andb_true_iff in E as [_ E]. cbn [forallb] in E.
  apply andb_true_iff in E as [_ E]. exact E.
Qed.

(** The inline rewrite keeps the span, wherever it stands. *)
Lemma inline_keeps_span k : forall X B,
  exists X' B',
    rewrite_pairs k 40 41 single_line wrap_inline (X ++ inline_span inner ++ B)
    = X' ++ inline_span inner ++ B'.
Proof.
  induction k as [|k IH]; intros X B; [exists X, B; reflexivity|].
  destruct X as [|a X1].
  - cbn [app]. rewrite span_shape, rewrite_pairs_S.
    unfold pair_at. cbn [N.eqb Pos.eqb andb].
    rewrite (find_close_pair 41 inner B eq_refl inner_no_close), inner_lines.
    replace (40 :: inner ++ 92 :: 41 :: B) with ((40 :: inner ++ [92; 41]) ++ B)
      by (cbn [app]; rewrite <- app_assoc; reflexivity).
    destruct (rewrite_pairs_skip 40 41 single_line wrap_inline _ B
                no_open_span_rest k) as (B' & E).
    exists [], B'. rewrite E. reflexivity.
  - cbn [app]. rewrite rewrite_pairs_S.
    destruct (pair_at 40 41 (a :: X1 ++ inline_span inner ++ B)) as [[i r]|] eqn:Ep.
    2:{ destruct (IH X1 B) as (X' & B' & E). rewrite E. exists (a :: X'), B'. reflexivity. }
    destruct (single_line (trim i)) eqn:Es.
    2:{ destruct (IH X1 B) as (X' & B' & E). rewrite E. exists (a :: X'), B'. reflexivity. }
    unfold pair_at in Ep.
    destruct X1 as [|b X2].
    { cbn [app] in Ep. rewrite span_shape in Ep.
      rewrite andb_false_r in Ep. discriminate. }
    cbn [app] in Ep. destruct ((a =? 92) && (b =? 40)); [|discriminate].
    destruct (find_close 41 X2) as [[i' r']|] eqn:Ef.
    + rewrite (find_close_app_some _ _ _ _ _ Ef) in Ep. injection Ep as <- <-.
      change (92 :: 40 :: (inner ++ [92; 41]) ++ B) with (inline_span inner ++ B).
      destruct (IH r' B) as (X' & B' & E). rewrite E.
      exists (wrap_inline (trim i') ++ X'), B'. rewrite <- app_assoc. reflexivity.
    + rewrite span_shape, (find_close_app_none 41 X2 _ eq_refl Ef) in Ep.
      rewrite <- span_shape, find_close_span_inline in Ep.
      cbn [option_map prepend fst snd] in Ep. injection Ep as <- <-.
      rewrite single_line_through in Es. discriminate.
Qed.

End SpanKeptInline.

Lemma scrub_app a b : scrub (a ++ b) = scrub a ++ scrub b.
Proof. unfold scrub. rewrite !List.map_app. reflexivity. Qed.

Lemma scrub_span inner :
  existsb disallowed_space inner = false -> scrub (inline_span inner) = inline_span inner.
Proof.
  intros H. apply scrub_clean. unfold inline_span. cbn [existsb].
  change (disallowed_space 92) with false. change (disallowed_space 40) with false.
  cbn [orb]. apply existsb_app_false. split; [exact H|reflexivity].
Qed.

(** What the two patterns find at a pair: an opening delimiter and the
    nearest closing delimiter after it. *)
Lemma run_block_pair at0 inner post :
  free_of 93 inner = true ->
  option_map (fun r => (trim (fst r), snd r))
    (capture 3 (run re_block at0 (lit "\[" ++ inner ++ lit "\]" ++ post)))
  = Some (trim inner, post).
Proof.
  intros H. apply free_of_none in H.
  change re_block with (delim_pat 91 93 any). rewrite run_delim.
  unfold pair_match.
  change (lit "\[" ++ inner ++ lit "\]" ++ post) with (92 :: 91 :: inner ++ 92 :: 93 :: post).
  unfold pair_at. cbn [N.eqb Pos.eqb andb].
  rewrite (find_close_pair 93 inner post eq_refl H), forallb_any. reflexivity.
Qed.

Lemma run_inline_pair at0 inner post :
  free_of 41 inner = true ->
  option_map (fun r => (trim (fst r), snd r))
    (capture 3 (run re_inline at0 (lit "\(" ++ inner ++ lit "\)" ++ post)))
  = if single_line (trim inner) then Some (trim inner, post) else None.
Proof.
  intros H. apply free_of_none in H.
  change re_inline with (delim_pat 40 41 dot). rewrite run_delim.
  unfold pair_match.
  change (lit "\(" ++ inner ++ lit "\)" ++ post) with (92 :: 40 :: inner ++ 92 :: 41 :: post).
  unfold pair_at. cbn [N.eqb Pos.eqb andb].
  rewrite (find_close_pair 41 inner post eq_refl H). reflexivity.
Qed.

(** C9 (as amended).  A pair is an opening delimiter and the nearest
    closing delimiter after it.  At a [\[ ... \]] pair the block pattern
    matches whatever the content, line breaks included.  At a [\( ... \)]
    pair the inline pattern matches exactly when the content, once trimmed
    of whitespace, holds no line terminator (a line break next to a
    delimiter is whitespace and does not prevent the match).  In every
    text, a [\( ... \)] span whose trimmed content holds a line terminator
    is left unchanged in the output, provided its content holds no
    delimiter of either kind and no disallowed whitespace; the content may
    hold any other text, backslashes included. *)
Theorem delimiter_pairs_and_line_breaks :
  (forall at0 inner post,
     free_of 93 inner = true ->
     option_map (fun r => (trim (fst r), snd r))
       (capture 3 (run re_block at0 (lit "\[" ++ inner ++ lit "\]" ++ post)))
     = Some (trim inner, post))
  /\ (forall at0 inner post,
        free_of 41 inner = true ->
        option_map (fun r => (trim (fst r), snd r))
          (capture 3 (run re_inline at0 (lit "\(" ++ inner ++ lit "\)" ++ post)))
        = if single_line (trim inner) then Some (trim inner, post) else None)
  /\ (forall pre inner post,
        no_delimiter inner = true ->
        existsb disallowed_space inner = false ->
        single_line (trim inner) = false ->
        exists pre' post',
          cleanLatexDelimiters (pre ++ lit "\(" ++ inner ++ lit "\)" ++ post)
          = pre' ++ lit "\(" ++ inner ++ lit "\)" ++ post').
Proof.
  split; [intros at0 inner post; apply run_block_pair|].
  split; [intros at0 inner post; apply run_inline_pair|].
  intros pre inner post Hd Hs Hl.
  unfold no_delimiter in Hd. rewrite !andb_true_iff in Hd.
  destruct Hd as [[[H40 H41] H91] H93].
  apply free_of_none in H40, H41, H91, H93.
  rewrite cleanLatexDelimiters_lines. unfold canonicalize_lines.
  replace (pre ++ lit "\(" ++ inner ++ lit "\)" ++ post)
    with (pre ++ inline_span inner ++ post)
    by (unfold inline_span; cbn [app]; rewrite <- app_assoc; reflexivity).
  rewrite !scrub_app, (scrub_span _ Hs). unfold rewrite_all.
  destruct (block_keeps_span inner H91 H93
              (S (length (scrub pre ++ inline_span inner ++ scrub post)))
              (scrub pre) (scrub post)) as (X1 & B1 & E1).
  rewrite E1.
  destruct (inline_keeps_span inner H40 H41 Hl
              (S (length (X1 ++ inline_span inner ++ B1))) X1 B1)
    as (X2 & B2 & E2).
  rewrite E2. exists X2, B2.
  unfold inline_span. cbn [app]. rewrite <- app_assoc. reflexivity.
Qed.

Lemma delimiter_pairs_and_line_breaks_witness :
  let pre := lit "see \[ x " in
  let inner := lit " \alpha" ++ [LF] ++ lit "+ \beta " in
  let post := lit " \] and \( c \)" in
  (forall at0,
     option_map (fun r => (trim (fst r), snd r))
       (capture 3 (run re_block at0 (lit "\[" ++ inner ++ lit "\]" ++ post)))
     = Some (lit "\alpha" ++ [LF] ++ lit "+ \beta", post))
  /\ (forall at0,
        option_map (fun r => (trim (fst r), snd r))
          (capture 3 (run re_inline at0 (lit "\(" ++ inner ++ lit "\)" ++ post)))
        = None)
  /\ (exists pre' post',
        cleanLatexDelimiters (pre ++ lit "\(" ++ inner ++ lit "\)" ++ post)
        = pre' ++ lit "\(" ++ inner ++ lit "\)" ++ post').
Proof.
  cbv zeta.
  pose proof delimiter_pairs_and_line_breaks as (H1 & H2 & H3).
  split; [intros at0;
          exact (H1 at0 (lit " \alpha" ++ [LF] ++ lit "+ \beta ") (lit " \] and \( c \)")
                   eq_refl)|].
  split; [intros at0;
          exact (H2 at0 (lit " \alpha" ++ [LF] ++ lit "+ \beta ") (lit " \] and \( c \)")
                   eq_refl)|].
  exact (H3 (lit "see \[ x ") (lit " \alpha" ++ [LF] ++ lit "+ \beta ")
           (lit " \] and \( c \)") eq_refl eq_refl eq_refl).
Defined.

(** The text of the witness, through the canonicalizer: the span sits in
    a block and before a span on one line; both are rewritten around it. *)
Example span_kept_in_context :
  cleanLatexDelimiters
    (lit "see \[ x \( \alpha" ++ [LF] ++ lit "+ \beta \) \] and \( c \)")
  = lit "see $$" ++ [LF] ++ lit "x \( \alpha" ++ [LF] ++ lit "+ \beta \)" ++ [LF]
    ++ lit "$$ and $c$".
Proof. vm_compute. reflexivity. Qed.

(** Why the content must hold no delimiter: an opening delimiter inside
    the span pairs with the closing delimiter of the span when what stands
    between them lies on one line, and a block inside the span is
    rewritten. *)
Example span_with_delimiter_inside :
  cleanLatexDelimiters (lit "\( a" ++ [LF] ++ lit "\( b \)")
  = lit "\( a" ++ [LF] ++ lit "$b$"
  /\ cleanLatexDelimiters (lit "\( a" ++ [LF] ++ lit "\[ b \] \)")
     = lit "\( a" ++ [LF] ++ lit "$$" ++ [LF] ++ lit "b" ++ [LF] ++ lit "$$ \)".
Proof. split; vm_compute; reflexivity. Qed.

(** C9, as stated, fails: the delimiters of this span lie on different
    lines, and the span is rewritten, because the line break next to the
    opening delimiter is whitespace for [\s*]. *)
Lemma inline_span_on_two_lines_rewritten :
  let x := lit "\(" ++ [LF] ++ lit "a\)" in
  cleanLatexDelimiters x = lit "$a$" /\ cleanLatexDelimiters x <> x.
Proof.
  cbv zeta. split; [vm_compute; reflexivity|]. vm_compute. discriminate.
Qed.

(** ** [JSON.parse]: the fuel is enough *)

Ltac len := unfold jsstring, cons_fst in *; cbn [length fst snd] in *; lia.

Lemma skip_ws_length s : (length (JSON.skip_ws s) <= length s)%nat.
Proof.
  induction s as [|c s IH]; simpl; [lia|]. destruct (JSON.is_ws c); len.
Qed.

Lemma eat_length c s r : JSON.eat c s = Some r -> length s = S (length r).
Proof.
  destruct s as [|x s']; [discriminate|]. simpl.
  destruct (x =? c); [|discriminate]. intros H. injection H as <-. reflexivity.
Qed.

Lemma parse_chars_length n : forall s str r,
  (length s <= n)%nat -> JSON.parse_chars s = Some (str, r) -> (length r < length s)%nat.
Proof.
  induction n as [|n IH]; intros s str r Hn.
  - destruct s; [discriminate|simpl in Hn; lia].
  - destruct s as [|c s']; [discriminate|]. cbn [JSON.parse_chars].
    simpl in Hn.
    destruct (c =? 34).
    { intros H. injection H as <- <-. len. }
    destruct (c =? 92).
    { destruct s' as [|e s'']; [discriminate|].
      destruct (e =? 117).
      - destruct s'' as [|a [|b [|c' [|d t]]]]; try discriminate.
        destruct (JSON.hex4 a b c' d); [|discriminate].
        destruct (JSON.parse_chars t) as [[str' r']|] eqn:E; [|discriminate].
        intros H. injection H as <- <-.
        apply IH in E; len.
      - destruct (JSON.escape e); [|discriminate].
        destruct (JSON.parse_chars s'') as [[str' r']|] eqn:E; [|discriminate].
        intros H. injection H as <- <-.
        apply IH in E; len. }
    destruct (c <? 32); [discriminate|].
    destruct (JSON.parse_chars s') as [[str' r']|] eqn:E; [|discriminate].
    intros H. injection H as <- <-. apply IH in E; len.
Qed.

Lemma take_digits_length s : (length (snd (JSON.take_digits s)) <= length s)%nat.
Proof.
  induction s as [|c s IH]; simpl; [lia|].
  destruct (Obj.is_digit c); len.
Qed.

Lemma parse_int_length s i r :
  JSON.parse_int s = Some (i, r) -> (length r < length s)%nat.
Proof.
  unfold JSON.parse_int. destruct s as [|c s']; [discriminate|].
  destruct (c =? 48); [intros H; injection H as <- <-; len|].
  destruct (in_range 49 57 c); [|discriminate].
  pose proof (take_digits_length s').
  intros H'. injection H' as <- <-. len.
Qed.

Lemma parse_frac_length s f r :
  JSON.parse_frac s = Some (f, r) -> (length r <= length s)%nat.
Proof.
  unfold JSON.parse_frac. destruct (JSON.eat 46 s) as [s'|] eqn:E.
  - apply eat_length in E. pose proof (take_digits_length s').
    destruct (JSON.take_digits s') as [[|x ds] r']; [discriminate|].
    intros H'. injection H' as <- <-. len.
  - intros H. injection H as <- <-. lia.
Qed.

Lemma parse_exp_length s e r :
  JSON.parse_exp s = Some (e, r) -> (length r <= length s)%nat.
Proof.
  unfold JSON.parse_exp. destruct s as [|x s']; [intros H; injection H as <- <-; lia|].
  destruct ((x =? 101) || (x =? 69)); [|intros H; injection H as <- <-; lia].
  match goal with
  | |- context [let '(sign, s1) := ?X in _] =>
      assert (Hs : (length (snd X) <= length s')%nat);
        [destruct s' as [|g s'']; [simpl; lia|];
         destruct ((g =? 43) || (g =? 45)); len
        |destruct X as [sign s5]; cbn [snd] in Hs]
  end.
  pose proof (take_digits_length s5).
  destruct (JSON.take_digits s5) as [[|y ds] r']; [discriminate|].
  intros H'. injection H' as <- <-. len.
Qed.

Lemma parse_number_length s l r :
  JSON.parse_number s = Some (l, r) -> (length r < length s)%nat.
Proof.
  unfold JSON.parse_number.
  match goal with
  | |- context [let '(minus, s0) := ?X in _] =>
      assert (Hm : (length (snd X) <= length s)%nat);
        [destruct (JSON.eat 45 s) as [s'|] eqn:E; [apply eat_length in E; len|len]
        |destruct X as [minus s0]; cbn [snd] in Hm]
  end.
  destruct (JSON.parse_int s0) as [[i s1]|] eqn:Ei; [|discriminate].
  destruct (JSON.parse_frac s1) as [[f s2]|] eqn:Ef; [|discriminate].
  destruct (JSON.parse_exp s2) as [[e s3]|] eqn:Ee; [|discriminate].
  apply parse_int_length in Ei. apply parse_frac_length in Ef. apply parse_exp_length in Ee.
  intros H. injection H as <- <-. len.
Qed.

Lemma startsWith_length p s : startsWith p s = true -> (length p <= length s)%nat.
Proof.
  revert s. induction p as [|a p IH]; intros [|b s]; simpl; try lia; try discriminate.
  rewrite andb_true_iff. intros [_ H]. apply IH in H. lia.
Qed.

Lemma expect_length word v s v' r :
  word <> [] -> JSON.expect word v s = Some (v', r) -> (length r < length s)%nat.
Proof.
  intros Hw. unfold JSON.expect. destruct (startsWith word s) eqn:E; [|discriminate].
  apply startsWith_length in E. intros H. injection H as <- <-.
  destruct word; [contradiction|]. rewrite length_skipn. len.
Qed.

(** Every value, every element list and every member list takes at least
    one code unit. *)
Lemma parse_consumes k :
  (forall s v r, JSON.parse_value k s = Some (v, r) -> (length r < length s)%nat)
  /\ (forall s l r, JSON.parse_elements k s = Some (l, r) -> (length r < length s)%nat)
  /\ (forall acc s o r, JSON.parse_members k acc s = Some (o, r) -> (length r < length s)%nat).
Proof.
  induction k as [|k (IHv & IHe & IHm)]; [repeat split; discriminate|].
  repeat split.
  - intros s v r. cbn [JSON.parse_value].
    pose proof (skip_ws_length s) as Hs.
    destruct (JSON.skip_ws s) as [|c t]; [discriminate|].
    destruct (c =? 34).
    { destruct (JSON.parse_chars t) as [[str r']|] eqn:E; [|discriminate].
      apply (parse_chars_length _ _ _ _ (le_n _)) in E.
      intros H. injection H as <- <-. len. }
    destruct (c =? 123).
    { pose proof (skip_ws_length t) as Ht.
      destruct (JSON.eat 125 (JSON.skip_ws t)) as [r'|] eqn:E.
      - apply eat_length in E. intros H. injection H as <- <-. len.
      - destruct (JSON.parse_members k [] t) as [[o r']|] eqn:Em; [|discriminate].
        apply IHm in Em. intros H. injection H as <- <-. len. }
    destruct (c =? 91).
    { pose proof (skip_ws_length t) as Ht.
      destruct (JSON.eat 93 (JSON.skip_ws t)) as [r'|] eqn:E.
      - apply eat_length in E. intros H. injection H as <- <-. len.
      - destruct (JSON.parse_elements k t) as [[l r']|] eqn:Em; [|discriminate].
        apply IHe in Em. intros H. injection H as <- <-. len. }
    destruct (c =? 116).
    { intros H. apply expect_length in H; [len|discriminate]. }
    destruct (c =? 102).
    { intros H. apply expect_length in H; [len|discriminate]. }
    destruct (c =? 110).
    { intros H. apply expect_length in H; [len|discriminate]. }
    destruct (JSON.parse_number (c :: t)) as [[l r']|] eqn:E; [|discriminate].
    apply parse_number_length in E. intros H. injection H as <- <-. len.
  - intros s l r. cbn [JSON.parse_elements].
    destruct (JSON.parse_value k s) as [[v r0]|] eqn:Ev; [|discriminate].
    apply IHv in Ev. pose proof (skip_ws_length r0) as Hs.
    destruct (JSON.eat 44 (JSON.skip_ws r0)) as [r'|] eqn:E.
    + apply eat_length in E.
      destruct (JSON.parse_elements k r') as [[l' r1]|] eqn:Ee; [|discriminate].
      apply IHe in Ee. intros H. injection H as <- <-. len.
    + destruct (JSON.eat 93 (JSON.skip_ws r0)) as [r'|] eqn:E'; [|discriminate].
      apply eat_length in E'. intros H. injection H as <- <-. len.
  - intros acc s o r. cbn [JSON.parse_members].
    pose proof (skip_ws_length s) as Hs.
    destruct (JSON.eat 34 (JSON.skip_ws s)) as [t|] eqn:Eq; [|discriminate].
    apply eat_length in Eq.
    destruct (JSON.parse_chars t) as [[key r0]|] eqn:Ec; [|discriminate].
    apply (parse_chars_length _ _ _ _ (le_n _)) in Ec.
    pose proof (skip_ws_length r0) as Hr0.
    destruct (JSON.eat 58 (JSON.skip_ws r0)) as [r'|] eqn:E58; [|discriminate].
    apply eat_length in E58.
    destruct (JSON.parse_value k r') as [[v r'']|] eqn:Ev; [|discriminate].
    apply IHv in Ev. pose proof (skip_ws_length r'') as Hr''.
    destruct (JSON.eat 44 (JSON.skip_ws r'')) as [r3|] eqn:E.
    + apply eat_length in E. intros H. apply IHm in H. len.
    + destruct (JSON.eat 125 (JSON.skip_ws r'')) as [r3|] eqn:E'; [|discriminate].
      apply eat_length in E'. intros H. injection H as <- <-. len.
Qed.

(** Beyond twice the length of the text the result does not depend on the
    fuel. *)
Lemma parse_fuel k1 : forall k2,
  (forall s, (2 * length s + 1 <= k1)%nat -> (2 * length s + 1 <= k2)%nat ->
             JSON.parse_value k1 s = JSON.parse_value k2 s)
  /\ (forall s, (2 * length s + 2 <= k1)%nat -> (2 * length s + 2 <= k2)%nat ->
                JSON.parse_elements k1 s = JSON.parse_elements k2 s)
  /\ (forall acc s, (2 * length s + 2 <= k1)%nat -> (2 * length s + 2 <= k2)%nat ->
                    JSON.parse_members k1 acc s = JSON.parse_members k2 acc s).
Proof.
  induction k1 as [|k1 IH]; intros k2.
  { repeat split; intros; lia. }
  destruct k2 as [|k2].
  { repeat split; intros; lia. }
  destruct (IH k2) as (IHv & IHe & IHm). clear IH.
  destruct (parse_consumes k1) as (Cv & Ce & Cm).
  repeat split.
  - intros s H1 H2. cbn [JSON.parse_value].
    pose proof (skip_ws_length s) as Hs.
    destruct (JSON.skip_ws s) as [|c t]; [reflexivity|].
    assert (Ht : (2 * length t + 2 <= k1)%nat /\ (2 * length t + 2 <= k2)%nat) by len.
    destruct Ht as [Ht1 Ht2].
    rewrite (IHm [] t Ht1 Ht2), (IHe t Ht1 Ht2). reflexivity.
  - intros s H1 H2. cbn [JSON.parse_elements].
    rewrite (IHv s) by lia.
    destruct (JSON.parse_value k2 s) as [[v r0]|] eqn:Ev; [|reflexivity].
    rewrite <- (IHv s) in Ev by lia. apply Cv in Ev.
    pose proof (skip_ws_length r0) as Hr0.
    destruct (JSON.eat 44 (JSON.skip_ws r0)) as [r'|] eqn:E; [|reflexivity].
    apply eat_length in E. rewrite (IHe r') by len. reflexivity.
  - intros acc s H1 H2. cbn [JSON.parse_members].
    pose proof (skip_ws_length s) as Hs.
    destruct (JSON.eat 34 (JSON.skip_ws s)) as [t|] eqn:Eq; [|reflexivity].
    apply eat_length in Eq.
    destruct (JSON.parse_chars t) as [[key r0]|] eqn:Ec; [|reflexivity].
    apply (parse_chars_length _ _ _ _ (le_n _)) in Ec.
    pose proof (skip_ws_length r0) as Hr0.
    destruct (JSON.eat 58 (JSON.skip_ws r0)) as [r'|] eqn:E58; [|reflexivity].
    apply eat_length in E58.
    rewrite (IHv r') by len.
    destruct (JSON.parse_value k2 r') as [[v r'']|] eqn:Ev; [|reflexivity].
    rewrite <- (IHv r') in Ev by len. apply Cv in Ev.
    pose proof (skip_ws_length r'') as Hr''.
    destruct (JSON.eat 44 (JSON.skip_ws r'')) as [r3|] eqn:E; [|reflexivity].
    apply eat_length in E. apply IHm; len.
Qed.

(** [JSON.parse] has all the fuel it can use: with more, the document
    read is the same. *)
Lemma JSON_parse_fuel k text :
  (2 * length text + 2 <= k)%nat ->
  JSON.parse_value k text = JSON.parse_value (2 * length text + 2) text.
Proof.
  intros H. apply (proj1 (parse_fuel k (2 * length text + 2))); lia.
Qed.

(** ** The rewriting of pairs: the fuel is enough *)

Lemma rewrite_pairs_fuel opn cls ok wrap : forall k1 k2 s,
  (length s < k1)%nat -> (length s < k2)%nat ->
  rewrite_pairs k1 opn cls ok wrap s = rewrite_pairs k2 opn cls ok wrap s.
Proof.
  induction k1 as [|k1 IH]; intros k2 s H1 H2; [lia|].
  destruct k2 as [|k2]; [lia|].
  destruct s as [|a s']; [reflexivity|]. rewrite !rewrite_pairs_S.
  destruct (pair_at opn cls (a :: s')) as [[inner rest]|] eqn:E.
  - apply pair_at_length in E.
    destruct (ok (trim inner)); f_equal; apply IH; simpl in *; lia.
  - f_equal. apply IH; simpl in *; lia.
Qed.

(** * Further properties *)

(** ** What a computation adds to the trace *)

Section AddsOnly.

Variable W : Type.
Variable Q : Event -> bool.

Lemma adds_only_same A (c : M W A) :
  (forall st, fst (c st) = st) -> adds_only Q c.
Proof. intros H st. exists []. rewrite H, app_nil_r. auto. Qed.

Lemma adds_only_ret A (a : A) : adds_only Q (ret (W:=W) a).
Proof. apply adds_only_same. reflexivity. Qed.

Lemma adds_only_throw A msg : adds_only Q (throw (W:=W) (A:=A) msg).
Proof. apply adds_only_same. reflexivity. Qed.

Lemma adds_only_ask A (f : W -> A) : adds_only Q (ask f).
Proof. apply adds_only_same. reflexivity. Qed.

Lemma adds_only_lift A (r : outcome A) : adds_only Q (lift (W:=W) r).
Proof. apply adds_only_same. reflexivity. Qed.

Lemma adds_only_read A (f : W -> outcome A) :
  adds_only Q (fun st : State W => (st, f (world st))).
Proof. apply adds_only_same. reflexivity. Qed.

Lemma adds_only_emit e : Q e = true -> adds_only Q (emit (W:=W) e).
Proof. intros H st. exists [e]. cbn. rewrite H. auto. Qed.

Lemma adds_only_call A e (op : W -> W * outcome A) :
  Q e = true -> adds_only Q (call e op).
Proof.
  intros H st. exists [e]. unfold call. destruct (op (world st)).
  cbn. rewrite H. auto.
Qed.

Lemma adds_only_bind_ok A B (c : M W A) (k : A -> M W B) :
  adds_only Q c ->
  (forall a st st', c st = (st', Ok a) -> adds_only Q (k a)) ->
  adds_only Q (bind c k).
Proof.
  intros Hc Hk st. unfold bind.
  destruct (Hc st) as (l1 & E1 & F1).
  destruct (c st) as [st1 [a|msg]] eqn:E; cbn [fst] in *.
  - destruct (Hk a st st1 E st1) as (l2 & E2 & F2).
    exists (l1 ++ l2). rewrite E2, E1, app_assoc, forallb_app, F1, F2. auto.
  - exists l1. auto.
Qed.

Lemma adds_only_bind A B (c : M W A) (k : A -> M W B) :
  adds_only Q c -> (forall a, adds_only Q (k a)) -> adds_only Q (bind c k).
Proof. intros Hc Hk. apply adds_only_bind_ok; auto. Qed.

Lemma adds_only_try_catch A (c : M W A) (h : thrown -> M W A) :
  adds_only Q c -> (forall msg, adds_only Q (h msg)) -> adds_only Q (try_catch c h).
Proof.
  intros Hc Hh st. unfold try_catch.
  destruct (Hc st) as (l1 & E1 & F1).
  destruct (c st) as [st1 [a|msg]]; cbn [fst] in *.
  - exists l1. auto.
  - destruct (Hh msg st1) as (l2 & E2 & F2).
    exists (l1 ++ l2). rewrite E2, E1, app_assoc, forallb_app, F1, F2. auto.
Qed.

Lemma adds_only_for_of A B (step : B -> A -> M W B) l :
  (forall acc x, In x l -> adds_only Q (step acc x)) ->
  forall acc, adds_only Q (for_of step l acc).
Proof.
  induction l as [|x l IH]; intros H acc; cbn [for_of].
  - apply adds_only_ret.
  - apply adds_only_bind; [apply H; left; reflexivity|].
    intros a. apply IH. intros acc' y Hy. apply H. right. exact Hy.
Qed.

End AddsOnly.

(** No event recognised by [P] is added when all added events are
    outside [P]. *)
Lemma adds_only_filter W A (P : Event -> bool) (c : M W A) :
  adds_only (fun e => negb (P e)) c ->
  forall st, filter P (trace (fst (c st))) = filter P (trace st).
Proof.
  intros H st. destruct (H st) as (l & E & F). rewrite E, filter_app.
  assert (N : filter P l = []).
  { clear E. induction l as [|e l IH]; [reflexivity|].
    cbn in F |- *. apply andb_prop in F. destruct F as [F1 F2].
    destruct (P e); [discriminate|]. auto. }
  rewrite N, app_nil_r. reflexivity.
Qed.

Ltac adds_step :=
  match goal with
  | |- adds_only _ (ret _) => apply adds_only_ret
  | |- adds_only _ (throw _) => apply adds_only_throw
  | |- adds_only _ (ask _) => apply adds_only_ask
  | |- adds_only _ (lift _) => apply adds_only_lift
  | |- adds_only _ (emit _) => apply adds_only_emit; reflexivity
  | |- adds_only _ (call _ _) => apply adds_only_call; reflexivity
  | |- adds_only _ (bind _ _) => apply adds_only_bind; [|intro]
  | |- adds_only _ (try_catch _ _) => apply adds_only_try_catch; [|intro]
  | |- adds_only _ (if ?b then _ else _) => destruct b
  | |- adds_only _ ((if ?b then _ else _) _) => destruct b; cbv beta
  | |- adds_only _ (match ?x with _ => _ end) => destruct x
  | |- adds_only _ (fun st => (st, _)) => apply adds_only_read
  | |- adds_only _ (error_message _ _) => unfold error_message
  | |- adds_only _ _ => assumption
  end.

(** ** Exceptions *)

Section NeverThrows.

Variable W : Type.

Lemma never_throws_ret A (a : A) : never_throws (ret (W:=W) a).
Proof. intros st. exists a. reflexivity. Qed.

Lemma never_throws_emit e : never_throws (emit (W:=W) e).
Proof. intros st. exists tt. reflexivity. Qed.

Lemma never_throws_ask A (f : W -> A) : never_throws (ask f).
Proof. intros st. eexists. reflexivity. Qed.

Lemma never_throws_bind A B (c : M W A) (k : A -> M W B) :
  never_throws c -> (forall a, never_throws (k a)) -> never_throws (bind c k).
Proof.
  intros Hc Hk st. unfold bind. destruct (Hc st) as [a Ha].
  destruct (c st) as [st1 r]. cbn [snd] in Ha. subst r. apply Hk.
Qed.

Lemma never_throws_try_catch A (c : M W A) (h : thrown -> M W A) :
  (forall msg, never_throws (h msg)) -> never_throws (try_catch c h).
Proof.
  intros Hh st. unfold try_catch. destruct (c st) as [st1 [a|msg]].
  - exists a. reflexivity.
  - apply Hh.
Qed.

End NeverThrows.

(** ** Counting events *)

Section AtMost.

Variable W : Type.
Variable P : Event -> bool.

Lemma at_most_zero A (c : M W A) :
  adds_only (fun e => negb (P e)) c -> at_most P 0 c.
Proof.
  intros H st. destruct (H st) as (l & E & F). exists l. split; [exact E|].
  clear E. induction l as [|e l IH]; [reflexivity|].
  cbn in F |- *. apply andb_prop in F. destruct F as [F1 F2].
  destruct (P e); [discriminate|]. auto.
Qed.

Lemma at_most_le A (c : M W A) n m : (n <= m)%nat -> at_most P n c -> at_most P m c.
Proof.
  intros Hle H st. destruct (H st) as (l & E & F). exists l. split; [exact E|lia].
Qed.

Lemma at_most_call A e (op : W -> W * outcome A) : at_most P 1 (call e op).
Proof.
  intros st. exists [e]. unfold call. destruct (op (world st)).
  split; [reflexivity|]. cbn. destruct (P e); cbn; lia.
Qed.

Lemma at_most_bind A B (c : M W A) (k : A -> M W B) n m :
  at_most P n c -> (forall a, at_most P m (k a)) -> at_most P (n + m) (bind c k).
Proof.
  intros Hc Hk st. unfold bind.
  destruct (Hc st) as (l1 & E1 & F1).
  destruct (c st) as [st1 [a|msg]]; cbn [fst] in *.
  - destruct (Hk a st1) as (l2 & E2 & F2).
    exists (l1 ++ l2). rewrite E2, E1, app_assoc, filter_app, length_app.
    split; [reflexivity|lia].
  - exists l1. split; [exact E1|lia].
Qed.

Lemma at_most_try_catch A (c : M W A) (h : thrown -> M W A) n m :
  at_most P n c -> (forall msg, at_most P m (h msg)) -> at_most P (n + m) (try_catch c h).
Proof.
  intros Hc Hh st. unfold try_catch.
  destruct (Hc st) as (l1 & E1 & F1).
  destruct (c st) as [st1 [a|msg]]; cbn [fst] in *.
  - exists l1. split; [exact E1|lia].
  - destruct (Hh msg st1) as (l2 & E2 & F2).
    exists (l1 ++ l2). rewrite E2, E1, app_assoc, filter_app, length_app.
    split; [reflexivity|lia].
Qed.

End AtMost.

Lemma bind_ok_inv W A B (c : M W A) (k : A -> M W B) st st' b :
  bind c k st = (st', Ok b) ->
  exists a st1, c st = (st1, Ok a) /\ k a st1 = (st', Ok b).
Proof.
  unfold bind. destruct (c st) as [st1 [a|m]]; [|discriminate].
  intros H. exists a, st1. auto.
Qed.

Lemma ends_in_snoc es (l : list Event) e : ends_in es l -> ends_in (es ++ [e]) (l ++ [e]).
Proof. intros [pre ->]. exists pre. rewrite app_assoc. reflexivity. Qed.

Lemma ends_in_app es (l1 l2 : list Event) : ends_in es l2 -> ends_in es (l1 ++ l2).
Proof. intros [pre ->]. exists (l1 ++ pre). rewrite app_assoc. reflexivity. Qed.

Lemma effect_run W A (op : W -> W * outcome A) (st : State W) :
  effect op st = ({| world := fst (op (world st)); trace := trace st |}, snd (op (world st))).
Proof. unfold effect. destruct (op (world st)). reflexivity. Qed.

Section Invariant.

Variable W : Type.
Variable I : W -> Prop.

Lemma invariant_ret A (a : A) : invariant I (ret (W:=W) a).
Proof. intros st H. exact H. Qed.

Lemma invariant_bind A B (c : M W A) (k : A -> M W B) :
  invariant I c -> (forall a, invariant I (k a)) -> invariant I (bind c k).
Proof.
  intros Hc Hk st H. unfold bind. specialize (Hc st H).
  destruct (c st) as [st1 [a|m]]; cbn [fst] in *; [apply Hk; exact Hc|exact Hc].
Qed.

(** A step that is made only when a test on the world fails. *)
Lemma invariant_unless A (f : W -> bool) (c : M W A) (a : A) :
  (forall st, f (world st) = false -> I (world st) -> I (world (fst (c st)))) ->
  invariant I (bind (ask f) (fun e : bool => if e then ret a else c)).
Proof.
  intros Hc st H. unfold bind, ask. destruct (f (world st)) eqn:E; [exact H|].
  apply Hc; assumption.
Qed.

Lemma invariant_unless_then A B (f : W -> bool) (c : M W A) (a : A) (k : A -> M W B) :
  (forall st, f (world st) = false -> I (world st) -> I (world (fst (c st)))) ->
  (forall x, invariant I (k x)) ->
  invariant I (bind (ask f) (fun e : bool => bind (if e then ret a else c) k)).
Proof.
  intros Hc Hk st H. unfold bind at 1, ask.
  destruct (f (world st)) eqn:E.
  - apply invariant_bind; [apply invariant_ret|exact Hk|exact H].
  - unfold bind. specialize (Hc st E H).
    destruct (c st) as [st1 [x|m]]; cbn [fst] in *; [apply Hk; exact Hc|exact Hc].
Qed.

End Invariant.

(** ** The canonicalizer: what it leaves and what it never leaves *)

Lemma find_close_forallb (P : N -> bool) c : forall s inner rest,
  forallb P s = true -> find_close c s = Some (inner, rest) ->
  forallb P inner = true /\ forallb P rest = true.
Proof.
  induction s as [|a s IH]; intros inner rest Hs H; [discriminate|].
  rewrite find_close_eq in H. destruct s as [|b t]; [discriminate|].
  destruct ((a =? 92) && (b =? c)).
  - inversion H. subst. cbn in Hs. apply andb_prop in Hs. destruct Hs as [_ Hs].
    apply andb_prop in Hs. destruct Hs as [_ Hs]. split; [reflexivity|exact Hs].
  - destruct (find_close c (b :: t)) as [[i r]|] eqn:E; [|discriminate].
    cbn in H. inversion H. subst.
    cbn [forallb] in Hs. apply andb_prop in Hs. destruct Hs as [Ha Hs].
    destruct (IH i rest Hs eq_refl) as [Hi Hr].
    split; [|exact Hr]. cbn [forallb]. rewrite Ha, Hi. reflexivity.
Qed.

Lemma rewrite_pairs_forallb (P : N -> bool) opn cls ok wrap :
  (forall x, forallb P x = true -> forallb P (wrap x) = true) ->
  forall k s, forallb P s = true -> forallb P (rewrite_pairs k opn cls ok wrap s) = true.
Proof.
  intros Hw. induction k as [|k IH]; intros s Hs; [exact Hs|].
  destruct s as [|a s]; [reflexivity|].
  rewrite rewrite_pairs_S.
  assert (Hcopy : forallb P (a :: rewrite_pairs k opn cls ok wrap s) = true).
  { cbn [forallb] in Hs |- *. apply andb_prop in Hs. destruct Hs as [Ha Hs].
    rewrite Ha, (IH s Hs). reflexivity. }
  destruct (pair_at opn cls (a :: s)) as [[inner rest]|] eqn:E; [|exact Hcopy].
  destruct (ok (trim inner)); [|exact Hcopy].
  unfold pair_at in E. destruct s as [|b t]; [discriminate|].
  destruct ((a =? 92) && (b =? opn)); [|discriminate].
  cbn [forallb] in Hs. apply andb_prop in Hs. destruct Hs as [_ Hs].
  apply andb_prop in Hs. destruct Hs as [_ Hs].
  destruct (find_close_forallb P cls t inner rest Hs E) as [Hi Hr].
  rewrite forallb_app, (Hw _ (forallb_trim P inner Hi)), (IH rest Hr). reflexivity.
Qed.

Lemma scrub_allowed s : forallb (fun c => negb (disallowed_space c)) (scrub s) = true.
Proof.
  unfold scrub. induction s as [|c s IH]; [reflexivity|].
  cbn [List.map forallb]. rewrite IH, andb_true_r.
  unfold disallowed_space.
  destruct (c =? 0xA0) eqn:E1.
  - reflexivity.
  - destruct (is_odd_space c) eqn:E2; [reflexivity|].
    rewrite E1, E2. reflexivity.
Qed.

(** X1.  The text that comes out holds none of the whitespace characters
    that the first two replacements remove: the delimiter rewrites add
    dollar signs and line feeds only. *)
Theorem cleanLatexDelimiters_no_odd_space text :
  existsb disallowed_space (cleanLatexDelimiters text) = false.
Proof.
  assert (H : forallb (fun c => negb (disallowed_space c)) (cleanLatexDelimiters text) = true).
  { rewrite cleanLatexDelimiters_lines. unfold canonicalize_lines, rewrite_all.
    apply rewrite_pairs_forallb.
    { intros x Hx. unfold wrap_inline. rewrite !forallb_app, Hx. reflexivity. }
    apply rewrite_pairs_forallb.
    { intros x Hx. unfold wrap_block. rewrite !forallb_app, Hx. reflexivity. }
    apply scrub_allowed. }
  induction (cleanLatexDelimiters text) as [|c s IH]; [reflexivity|].
  cbn [forallb existsb] in *. apply andb_prop in H. destruct H as [Hc Hs].
  rewrite (IH Hs). destruct (disallowed_space c); [discriminate|reflexivity].
Qed.

Lemma no_backslash_scrub s : no_backslash s = true -> no_backslash (scrub s) = true.
Proof.
  unfold no_backslash, scrub. induction s as [|c s IH]; intros H; [reflexivity|].
  cbn [List.map forallb] in *. apply andb_prop in H. destruct H as [Hc Hs].
  rewrite (IH Hs), andb_true_r.
  destruct (c =? 0xA0) eqn:E1; [reflexivity|].
  destruct (is_odd_space c) eqn:E2; [reflexivity|exact Hc].
Qed.

Lemma rewrite_all_app_nobs opn cls ok wrap pre t :
  no_backslash pre = true ->
  rewrite_all opn cls ok wrap (pre ++ t) = pre ++ rewrite_all opn cls ok wrap t.
Proof.
  intros H. unfold rewrite_all.
  rewrite (rewrite_pairs_fuel opn cls ok wrap (S (length (pre ++ t)))
             (length pre + S (length t)) (pre ++ t)).
  - apply rewrite_pairs_app_nobs, H.
  - lia.
  - rewrite length_app. lia.
Qed.

(** X2.  Text in front of the first backslash goes through the canonicalizer
    on its own: only its whitespace is scrubbed.  In particular a text
    without any backslash is scrubbed and otherwise unchanged. *)
Theorem cleanLatexDelimiters_prefix pre text :
  no_backslash pre = true ->
  cleanLatexDelimiters (pre ++ text) = scrub pre ++ cleanLatexDelimiters text
  /\ cleanLatexDelimiters pre = scrub pre.
Proof.
  intros H.
  assert (G : forall t, cleanLatexDelimiters (pre ++ t) = scrub pre ++ cleanLatexDelimiters t).
  { intros t. rewrite !cleanLatexDelimiters_lines. unfold canonicalize_lines.
    rewrite scrub_app.
    rewrite (rewrite_all_app_nobs 91 93), (rewrite_all_app_nobs 40 41);
      auto using no_backslash_scrub. }
  split; [apply G|].
  rewrite <- (app_nil_r pre) at 1. rewrite G. apply app_nil_r.
Qed.

Lemma cleanLatexDelimiters_prefix_witness :
  no_backslash (lit "Area: 5" ++ [0xA0] ++ lit "m") = true
  /\ cleanLatexDelimiters ((lit "Area: 5" ++ [0xA0] ++ lit "m") ++ lit " \( a \)")
     = scrub (lit "Area: 5" ++ [0xA0] ++ lit "m") ++ cleanLatexDelimiters (lit " \( a \)").
Proof.
  split; [reflexivity|].
  exact (proj1 (cleanLatexDelimiters_prefix (lit "Area: 5" ++ [0xA0] ++ lit "m")
                  (lit " \( a \)") eq_refl)).
Defined.

(** ** The repairs of the completion text *)

Lemma rest_push pc r : option_map snd (option_map (push pc) r) = option_map snd r.
Proof. destruct r; reflexivity. Qed.

Lemma rest_grow x r : option_map snd (option_map (grow x) r) = option_map snd r.
Proof. destruct r as [[[|pc pcs] rest]|]; reflexivity. Qed.

Lemma run_chars_rest w p : forall at0 s,
  option_map snd (run (chars w ++ p) at0 s)
  = match strip_prefix w s with
    | Some r => option_map snd (run p (match w with [] => at0 | _ :: _ => false end) r)
    | None => None
    end.
Proof.
  induction w as [|a w IH]; intros at0 s; [reflexivity|].
  cbn [chars List.map app]. rewrite run_chr. cbn [strip_prefix].
  destruct s as [|x s]; [reflexivity|]. unfold one at 1.
  destruct (x =? a); [|reflexivity].
  rewrite rest_push. change (List.map (fun c => Chr (one c)) w) with (chars w).
  rewrite IH. destruct w; reflexivity.
Qed.

Lemma run_chars_ci_rest w p : forall at0 s,
  option_map snd (run (chars_ci w ++ p) at0 s)
  = match strip_prefix_ci w s with
    | Some r => option_map snd (run p (match w with [] => at0 | _ :: _ => false end) r)
    | None => None
    end.
Proof.
  induction w as [|a w IH]; intros at0 s; [reflexivity|].
  cbn [chars_ci List.map app]. rewrite run_chr. cbn [strip_prefix_ci].
  destruct s as [|x s]; [reflexivity|].
  destruct (one_ci a x); [|reflexivity].
  rewrite rest_push. change (List.map (fun c => Chr (one_ci c)) w) with (chars_ci w).
  rewrite IH. destruct w; reflexivity.
Qed.

Lemma run_spaces_rest : forall s at0,
  option_map snd (run [Rep true space] at0 s) = Some (trimStart s).
Proof.
  induction s as [|x s IH]; intros at0; [reflexivity|].
  rewrite run_rep_greedy. unfold space at 1. cbn [trimStart].
  destruct (is_space x).
  - specialize (IH false).
    destruct (run [Rep true space] false s) as [r|]; [|discriminate].
    cbn [option_map] in *. destruct r as [[|pc pcs] rest]; exact IH.
  - reflexivity.
Qed.

Lemma replace_first_from_bol p f : forall s,
  replace_first_from (Bol :: p) f false s = s.
Proof.
  induction s as [|x s IH]; [reflexivity|].
  cbn [replace_first_from run]. f_equal. exact IH.
Qed.

Lemma replace_first_bol p s :
  replace_first (Bol :: p) erase s
  = match option_map snd (run p true s) with
    | Some r => r
    | None => s
    end.
Proof.
  unfold replace_first. destruct s as [|x s].
  - cbn [replace_first_from run].
    destruct (run p true []) as [[pcs rest]|]; reflexivity.
  - cbn [replace_first_from run].
    destruct (run p true (x :: s)) as [[pcs rest]|]; cbn [option_map push fst snd].
    + reflexivity.
    + rewrite replace_first_from_bol. reflexivity.
Qed.

Lemma strip_prefix_spec p : forall s r,
  strip_prefix p s = Some r <-> s = p ++ r.
Proof.
  induction p as [|a p IH]; intros s r.
  - cbn. split; congruence.
  - destruct s as [|b s]; cbn [strip_prefix app].
    + split; discriminate.
    + destruct (N.eqb_spec b a) as [->|Hn].
      * rewrite IH. split; congruence.
      * split; [discriminate|]. intros H. inversion H. contradiction.
Qed.

Lemma strip_suffix_spec p s r :
  strip_suffix p s = Some r <-> s = r ++ p.
Proof.
  unfold strip_suffix. split.
  - destruct (strip_prefix (rev p) (rev s)) as [q|] eqn:E; [|discriminate].
    cbn. intros H. inversion H. subst r.
    apply strip_prefix_spec in E.
    rewrite <- (rev_involutive s), E, rev_app_distr, rev_involutive. reflexivity.
  - intros ->. rewrite rev_app_distr.
    destruct (strip_prefix (rev p) (rev p ++ rev r)) as [q|] eqn:E.
    + apply strip_prefix_spec in E. apply app_inv_head in E. subst q.
      cbn. rewrite rev_involutive. reflexivity.
    + assert (H : strip_prefix (rev p) (rev p ++ rev r) = Some (rev r))
        by (apply strip_prefix_spec; reflexivity).
      congruence.
Qed.

Lemma run_close_rest w at0 s :
  w <> [] ->
  option_map snd (run (chars w ++ [Eol]) at0 s) = if JS.eqb s w then Some [] else None.
Proof.
  intros Hw. rewrite run_chars_rest.
  destruct (strip_prefix w s) as [r|] eqn:E.
  - apply strip_prefix_spec in E. subst s.
    destruct r as [|c r].
    + rewrite app_nil_r, eqb_refl. destruct w; reflexivity.
    + destruct (JS.eqb (w ++ c :: r) w) eqn:Q.
      * apply eqb_eq in Q. rewrite <- (app_nil_r w) in Q at 2.
        apply app_inv_head in Q. discriminate.
      * destruct w; [contradiction|reflexivity].
  - destruct (JS.eqb s w) eqn:Q; [|reflexivity].
    apply eqb_eq in Q. subst s.
    assert (H : strip_prefix w w = Some []) by (apply strip_prefix_spec; symmetry; apply app_nil_r).
    congruence.
Qed.

Lemma replace_first_from_close w : w <> [] -> forall s at0,
  replace_first_from (chars w ++ [Eol]) erase at0 s
  = match strip_suffix w s with Some r => r | None => s end.
Proof.
  intros Hw. induction s as [|x s IH]; intros at0.
  - cbn [replace_first_from].
    pose proof (run_close_rest w at0 [] Hw) as R.
    destruct w as [|a w]; [contradiction|]. cbn [JS.eqb] in R.
    destruct (run (chars (a :: w) ++ [Eol]) at0 []); [discriminate|].
    destruct (strip_suffix (a :: w) []) as [r|] eqn:E; [|reflexivity].
    apply strip_suffix_spec in E. destruct r; discriminate.
  - cbn [replace_first_from].
    pose proof (run_close_rest w at0 (x :: s) Hw) as R.
    destruct (run (chars w ++ [Eol]) at0 (x :: s)) as [[pcs rest]|].
    + cbn [option_map snd] in R. destruct (JS.eqb (x :: s) w) eqn:Q; [|discriminate].
      inversion R. subst rest. apply eqb_eq in Q.
      assert (E : strip_suffix w (x :: s) = Some []) by (apply strip_suffix_spec; exact Q).
      rewrite E. reflexivity.
    + cbn [option_map] in R. destruct (JS.eqb (x :: s) w) eqn:Q; [discriminate|].
      apply eqb_neq in Q. rewrite IH.
      destruct (strip_suffix w s) as [r|] eqn:E.
      * apply strip_suffix_spec in E.
        assert (E' : strip_suffix w (x :: s) = Some (x :: r))
          by (apply strip_suffix_spec; rewrite E; reflexivity).
        rewrite E'. reflexivity.
      * destruct (strip_suffix w (x :: s)) as [r|] eqn:E'; [|reflexivity].
        apply strip_suffix_spec in E'. destruct r as [|y r].
        -- cbn in E'. contradiction.
        -- cbn in E'. inversion E'. subst y.
           assert (E2 : strip_suffix w s = Some r) by (apply strip_suffix_spec; assumption).
           congruence.
Qed.

Lemma fence_json content :
  replace_first re_fence_json erase content
  = match strip_prefix (lit "```json") content with
    | Some r => trimStart r
    | None => content
    end.
Proof.
  change re_fence_json with (Bol :: chars (lit "```json") ++ [Rep true space]).
  rewrite replace_first_bol, run_chars_rest.
  destruct (strip_prefix (lit "```json") content); [|reflexivity].
  rewrite run_spaces_rest. reflexivity.
Qed.

Lemma fence_open content :
  replace_first re_fence_open erase content
  = match strip_prefix (lit "```") content with
    | Some r => r
    | None => content
    end.
Proof.
  change re_fence_open with (Bol :: chars (lit "```") ++ []).
  rewrite replace_first_bol, run_chars_rest.
  destruct (strip_prefix (lit "```") content); reflexivity.
Qed.

Lemma fence_close content :
  replace_first re_fence_close erase content
  = match strip_suffix (lit "```") content with
    | Some r => r
    | None => content
    end.
Proof.
  change re_fence_close with (chars (lit "```") ++ [Eol]).
  unfold replace_first. apply replace_first_from_close. discriminate.
Qed.

(** X3.  The three fence replacements of [formatText] remove a leading
    [```json] with the whitespace that follows it, then a leading [```],
    then a trailing [```]; nothing else of the text changes. *)
Theorem strip_fences_prefix_suffix content :
  strip_fences content = strip_fences_spec content.
Proof.
  unfold strip_fences, strip_fences_spec.
  rewrite fence_close, fence_open, fence_json. reflexivity.
Qed.

(** *** Think blocks *)

Lemma strip_prefix_ci_length w : forall s r,
  strip_prefix_ci w s = Some r -> length s = (length w + length r)%nat.
Proof.
  induction w as [|a w IH]; intros s r H.
  - inversion H. reflexivity.
  - destruct s as [|b s]; [discriminate|]. cbn [strip_prefix_ci] in H.
    destruct (one_ci a b); [|discriminate].
    cbn [length]. rewrite (IH _ _ H). reflexivity.
Qed.

Lemma after_ci_length w : forall s r,
  after_ci w s = Some r -> (length r <= length s)%nat.
Proof.
  induction s as [|x s IH]; intros r H.
  - cbn [after_ci] in H. destruct (strip_prefix_ci w []) as [q|] eqn:E; [|discriminate].
    inversion H. subst q. apply strip_prefix_ci_length in E. cbn in E. lia.
  - cbn [after_ci] in H. destruct (strip_prefix_ci w (x :: s)) as [q|] eqn:E.
    + inversion H. subst q. apply strip_prefix_ci_length in E. lia.
    + apply IH in H. cbn [length]. lia.
Qed.

Lemma rest_or_else (X Y : option result) :
  option_map snd (match option_map (push []) X with Some r => Some r | None => Y end)
  = match option_map snd X with
    | Some r => Some r
    | None => option_map snd Y
    end.
Proof. destruct X as [[pcs rest]|]; reflexivity. Qed.

Lemma run_chars_ci_only v at0 s :
  v <> [] ->
  option_map snd (run (chars_ci v ++ []) at0 s) = strip_prefix_ci v s.
Proof.
  intros Hv. rewrite run_chars_ci_rest.
  destruct (strip_prefix_ci v s); [|reflexivity]. destruct v; [contradiction|reflexivity].
Qed.

Lemma run_lazy_any_rest v : v <> [] -> forall s at0,
  option_map snd (run (Rep false any :: chars_ci v ++ []) at0 s) = after_ci v s.
Proof.
  intros Hv. induction s as [|x s IH]; intros at0.
  - rewrite run_rep_lazy, rest_or_else, run_chars_ci_only by exact Hv.
    cbn [after_ci]. destruct (strip_prefix_ci v []); reflexivity.
  - rewrite run_rep_lazy, rest_or_else, run_chars_ci_only by exact Hv.
    cbn [after_ci]. destruct (strip_prefix_ci v (x :: s)); [reflexivity|].
    unfold any at 1. rewrite rest_grow. apply IH.
Qed.

Lemma run_think_rest at0 s :
  option_map snd (run re_think at0 s)
  = match strip_prefix_ci (lit "<think>") s with
    | Some r => after_ci (lit "</think>") r
    | None => None
    end.
Proof.
  change re_think
    with (chars_ci (lit "<think>") ++ Rep false any :: chars_ci (lit "</think>") ++ []).
  rewrite run_chars_ci_rest.
  destruct (strip_prefix_ci (lit "<think>") s); [|reflexivity].
  apply run_lazy_any_rest. discriminate.
Qed.

Lemma replace_from_think : forall k at0 s,
  replace_from k re_think erase at0 s = drop_think k s.
Proof.
  induction k as [|k IH]; intros at0 s; [reflexivity|].
  rewrite replace_from_S. pose proof (run_think_rest at0 s) as R.
  destruct s as [|x s].
  - cbn [drop_think].
    destruct (run re_think at0 []) as [[pcs rest]|]; [|reflexivity].
    cbn in R. discriminate.
  - cbn [drop_think].
    destruct (run re_think at0 (x :: s)) as [[pcs rest]|]; cbn [option_map snd] in R.
    + destruct (strip_prefix_ci (lit "<think>") (x :: s)) as [r|] eqn:E; [|discriminate].
      rewrite <- R.
      apply strip_prefix_ci_length in E. symmetry in R. apply after_ci_length in R.
      assert (L : (length rest <? length (x :: s))%nat = true).
      { apply Nat.ltb_lt. rewrite E. change (length (lit "<think>")) with 7%nat.
        unfold jsstring in *. lia. }
      rewrite L. unfold erase at 1. cbn [app]. apply IH.
    + destruct (strip_prefix_ci (lit "<think>") (x :: s)) as [r|].
      * rewrite <- R. rewrite IH. reflexivity.
      * rewrite IH. reflexivity.
Qed.

Lemma strip_think_scan content : strip_think content = strip_think_spec content.
Proof.
  unfold strip_think, strip_think_spec, replace_all. rewrite replace_from_think. reflexivity.
Qed.

Lemma drop_think_S k x s :
  drop_think (S k) (x :: s)
  = match strip_prefix_ci (lit "<think>") (x :: s) with
    | Some r =>
        match after_ci (lit "</think>") r with
        | Some rest => drop_think k rest
        | None => x :: drop_think k s
        end
    | None => x :: drop_think k s
    end.
Proof. reflexivity. Qed.

Lemma drop_think_fuel : forall k1 k2 s,
  (length s < k1)%nat -> (length s < k2)%nat -> drop_think k1 s = drop_think k2 s.
Proof.
  induction k1 as [|k1 IH]; intros k2 s H1 H2; [lia|].
  destruct k2 as [|k2]; [lia|].
  destruct s as [|x s]; [reflexivity|]. cbn [drop_think].
  cbn [length] in H1, H2.
  assert (C : x :: drop_think k1 s = x :: drop_think k2 s) by (f_equal; apply IH; lia).
  destruct (strip_prefix_ci (lit "<think>") (x :: s)) as [r|] eqn:E; [|exact C].
  destruct (after_ci (lit "</think>") r) as [rest|] eqn:A; [|exact C].
  apply strip_prefix_ci_length in E. apply after_ci_length in A.
  change (length (lit "<think>")) with 7%nat in E. cbn [length] in E.
  unfold jsstring in *. apply IH; lia.
Qed.

Lemma after_ci_none_tail w x s : after_ci w (x :: s) = None -> after_ci w s = None.
Proof.
  cbn [after_ci]. destruct (strip_prefix_ci w (x :: s)); [discriminate|auto].
Qed.

Lemma after_ci_none_head w s : after_ci w s = None -> strip_prefix_ci w s = None.
Proof.
  destruct s; cbn [after_ci]; destruct (strip_prefix_ci w _); congruence.
Qed.

Lemma drop_think_none : forall k s,
  mentions_ci (lit "<think>") s = false -> drop_think k s = s.
Proof.
  unfold mentions_ci. induction k as [|k IH]; intros s H; [reflexivity|].
  destruct s as [|x s]; [reflexivity|]. cbn [drop_think].
  destruct (after_ci (lit "<think>") (x :: s)) eqn:A; [discriminate|].
  rewrite (after_ci_none_head _ _ A).
  f_equal. apply IH. rewrite (after_ci_none_tail _ _ _ A). reflexivity.
Qed.

(** X4.  A completion that starts with a think block is handled as the text
    after the block: the block ends at the first closing tag, and the tags
    are recognised in any letter case. *)
Theorem normalize_response_think_block W editor content r rest (st : State W) :
  strip_prefix_ci (lit "<think>") content = Some r ->
  after_ci (lit "</think>") r = Some rest ->
  strip_think content = strip_think rest
  /\ normalize_response editor content st = normalize_response editor rest st.
Proof.
  intros Hr Ha.
  assert (E : strip_think content = strip_think rest).
  { rewrite !strip_think_scan. unfold strip_think_spec.
    destruct content as [|x s]; [discriminate|].
    rewrite (drop_think_S (length (x :: s)) x s), Hr, Ha.
    apply strip_prefix_ci_length in Hr. apply after_ci_length in Ha.
    change (length (lit "<think>")) with 7%nat in Hr.
    f_equal. apply drop_think_fuel; cbn [length] in *; unfold jsstring in *; lia. }
  split; [exact E|]. unfold normalize_response. rewrite E. reflexivity.
Qed.

Lemma normalize_response_think_block_witness :
  strip_think (lit "<THINK>a </think> b</Think> {}") = strip_think (lit " b</Think> {}")
  /\ normalize_response false (lit "<THINK>a </think> b</Think> {}") Mock.start
     = normalize_response false (lit " b</Think> {}") Mock.start.
Proof.
  exact (normalize_response_think_block Mock.vault false
           (lit "<THINK>a </think> b</Think> {}") (lit "a </think> b</Think> {}")
           (lit " b</Think> {}") Mock.start eq_refl eq_refl).
Defined.

Lemma strip_think_none content :
  mentions_ci (lit "<think>") content = false -> strip_think content = trim content.
Proof.
  intros H. rewrite strip_think_scan. unfold strip_think_spec.
  rewrite drop_think_none by exact H. reflexivity.
Qed.

Lemma trimEnd_app_space a w : forallb is_space w = true -> trimEnd (a ++ w) = trimEnd a.
Proof.
  intros Hw. induction a as [|x a IH].
  - cbn [app]. apply trimEnd_nil_iff in Hw. rewrite Hw. reflexivity.
  - cbn [app]. rewrite !trimEnd_cons, IH. reflexivity.
Qed.

Lemma trimEnd_snoc_nonspace a x : is_space x = false -> trimEnd (a ++ [x]) = a ++ [x].
Proof.
  intros Hx. induction a as [|y a IH].
  - cbn. rewrite Hx. reflexivity.
  - cbn [app]. rewrite trimEnd_cons, IH. destruct (a ++ [x]) eqn:E; [|reflexivity].
    destruct a; discriminate.
Qed.

(** X5.  A completion wrapped in a [```json] fence is unwrapped: when the text
    inside the fence validates, its markdown, canonicalized, is the
    result. *)
Theorem normalize_response_fenced W editor w1 c body w2 md (st : State W) :
  let content := lit "```json" ++ w1 ++ (c :: body) ++ lit "```" ++ w2 in
  mentions_ci (lit "<think>") content = false ->
  forallb is_space w1 = true ->
  forallb is_space w2 = true ->
  is_space c = false ->
  c <> 96 ->
  parse_formatted (c :: body) = Some md ->
  strip_fences (strip_think content) = c :: body
  /\ snd (normalize_response editor content st) = Ok (cleanLatexDelimiters md).
Proof.
  cbv zeta. intros Hm H1 H2 Hc H96 Hp.
  assert (E : strip_fences (strip_think (lit "```json" ++ w1 ++ (c :: body) ++ lit "```" ++ w2))
              = c :: body).
  { rewrite strip_think_none by exact Hm.
    assert (T : trim (lit "```json" ++ w1 ++ (c :: body) ++ lit "```" ++ w2)
                = lit "```json" ++ w1 ++ (c :: body) ++ lit "```").
    { unfold trim.
      change (trimStart (lit "```json" ++ w1 ++ (c :: body) ++ lit "```" ++ w2))
        with (lit "```json" ++ w1 ++ (c :: body) ++ lit "```" ++ w2).
      replace (lit "```json" ++ w1 ++ (c :: body) ++ lit "```" ++ w2)
        with ((lit "```json" ++ w1 ++ (c :: body) ++ lit "``" ++ [96]) ++ w2)
        by (rewrite <- !app_assoc; reflexivity).
      rewrite trimEnd_app_space by exact H2.
      replace (lit "```json" ++ w1 ++ (c :: body) ++ lit "``" ++ [96])
        with ((lit "```json" ++ w1 ++ (c :: body) ++ lit "``") ++ [96])
        by (rewrite <- !app_assoc; reflexivity).
      rewrite trimEnd_snoc_nonspace by reflexivity.
      rewrite <- !app_assoc. reflexivity. }
    rewrite T. unfold strip_fences. rewrite fence_close, fence_open, fence_json.
    assert (P1 : strip_prefix (lit "```json") (lit "```json" ++ w1 ++ (c :: body) ++ lit "```")
                 = Some (w1 ++ (c :: body) ++ lit "```"))
      by (apply strip_prefix_spec; reflexivity).
    rewrite P1, trimStart_app_space by exact H1.
    cbn [app trimStart]. rewrite Hc.
    assert (P2 : strip_prefix (lit "```") (c :: body ++ lit "```") = None).
    { cbn. destruct (N.eqb_spec c 96); [contradiction|reflexivity]. }
    rewrite P2.
    assert (P3 : strip_suffix (lit "```") (c :: body ++ lit "```") = Some (c :: body))
      by (apply strip_suffix_spec; reflexivity).
    rewrite P3. reflexivity. }
  split; [exact E|].
  unfold normalize_response. rewrite E, Hp. destruct editor; reflexivity.
Qed.

Lemma normalize_response_fenced_witness :
  let body := lit "{" ++ [QUOTE] ++ lit "formatted_markdown" ++ [QUOTE] ++ lit ":"
              ++ [QUOTE] ++ lit "\\( x \\) <b>" ++ [QUOTE] ++ lit "}" in
  strip_fences (strip_think (lit "```json" ++ [LF] ++ body ++ lit "```" ++ [LF])) = body
  /\ snd (normalize_response false (lit "```json" ++ [LF] ++ body ++ lit "```" ++ [LF]) Mock.start)
     = Ok (cleanLatexDelimiters (lit "\( x \) <b>")).
Proof.
  cbv zeta.
  refine (normalize_response_fenced Mock.vault false [LF] 123
            (List.tl (lit "{" ++ [QUOTE] ++ lit "formatted_markdown" ++ [QUOTE] ++ lit ":"
                      ++ [QUOTE] ++ lit "\\( x \\) <b>" ++ [QUOTE] ++ lit "}"))
            [LF] (lit "\( x \) <b>") Mock.start _ _ _ _ _ _);
    try reflexivity.
  discriminate.
Defined.

(** X6.  A completion without think block and without fence is taken as it
    is, apart from the whitespace around it. *)
Theorem normalize_response_plain W editor content (st : State W) :
  mentions_ci (lit "<think>") content = false ->
  strip_prefix (lit "```") (trim content) = None ->
  strip_suffix (lit "```") (trim content) = None ->
  strip_fences (strip_think content) = trim content
  /\ snd (normalize_response editor content st)
     = Ok match parse_formatted (trim content) with
          | Some formatted_markdown => cleanLatexDelimiters formatted_markdown
          | None => trim content
          end.
Proof.
  intros Hm Ho Hc.
  assert (E : strip_fences (strip_think content) = trim content).
  { rewrite strip_think_none by exact Hm.
    unfold strip_fences. rewrite fence_close, fence_open, fence_json.
    assert (J : strip_prefix (lit "```json") (trim content) = None).
    { destruct (strip_prefix (lit "```json") (trim content)) as [r|] eqn:Q; [|reflexivity].
      apply strip_prefix_spec in Q.
      assert (Q' : strip_prefix (lit "```") (trim content) = Some (lit "json" ++ r))
        by (apply strip_prefix_spec; rewrite Q; reflexivity).
      congruence. }
    rewrite J, Ho, Hc. reflexivity. }
  split; [exact E|].
  unfold normalize_response. rewrite E.
  destruct (parse_formatted (trim content)); [destruct editor|]; reflexivity.
Qed.

Lemma normalize_response_plain_witness :
  let content := [LF] ++ lit "{" ++ [QUOTE] ++ lit "formatted_markdown" ++ [QUOTE] ++ lit ": "
                 ++ [QUOTE] ++ lit "# T" ++ [QUOTE] ++ lit "}" ++ [LF] in
  strip_fences (strip_think content) = trim content
  /\ snd (normalize_response true content Mock.start)
     = Ok match parse_formatted (trim content) with
          | Some formatted_markdown => cleanLatexDelimiters formatted_markdown
          | None => trim content
          end.
Proof.
  cbv zeta.
  exact (normalize_response_plain Mock.vault true
           ([LF] ++ lit "{" ++ [QUOTE] ++ lit "formatted_markdown" ++ [QUOTE] ++ lit ": "
            ++ [QUOTE] ++ lit "# T" ++ [QUOTE] ++ lit "}" ++ [LF])
           Mock.start eq_refl eq_refl eq_refl).
Defined.

(** ** The OCR extractor: the requests it makes *)

Section ExtractorRequests.

Variable W : Type.
Variable host : Ops W.
Variable settings : AIOcrSettings.

(** X7.  A successful extraction is one upload, one signed-URL request
    for the uploaded file and one OCR request for the signed URL, in this
    order and all with the configured key; the result is read from the
    answer of the OCR request, and it holds no image when the extraction of
    images is switched off.  The status line and the notices are set along
    the way; the status is not cleared. *)
Theorem performMistralOCR_success base64Data mimeType st st' r :
  performMistralOCR host settings base64Data mimeType st = (st', Ok r) ->
  exists binaryString fileId signedUrl w1 w2 resp,
    let apiKey := mistralApiKey settings in
    let upload :=
      {| fileName := lit "upload-" ++ dec (Date_now host (world st)) ++ lit "."
                     ++ or_else (nth_error (split1 47 mimeType) 1) (lit "bin");
         content_type := mimeType;
         content_bytes := List.map (fun c => c mod 256) binaryString;
         purpose := lit "ocr" |} in
    let req :=
      {| ocr_model := lit "mistral-ocr-latest";
         documentUrl := signedUrl;
         includeImageBase64 := extractImages settings |} in
    apiKey <> []
    /\ atob host base64Data = Ok binaryString
    /\ files_upload host apiKey upload (world st) = (w1, Ok (Some fileId))
    /\ fileId <> []
    /\ files_getSignedUrl host apiKey fileId w1 = (w2, Ok signedUrl)
    /\ ocr_process host apiKey req w2 = (world st', Ok resp)
    /\ r = parse_results (extractImages settings) resp
    /\ (extractImages settings = false -> result_images r = [])
    /\ trace st'
       = trace st
         ++ [Status ([0xD83D; 0xDCC4; 32] ++ lit "Uploading to Mistral...");
             Notice (lit "cloud_upload Uploading to Mistral...");
             FilesUpload apiKey upload;
             FilesGetSignedUrl apiKey fileId;
             Status ([0xD83D; 0xDCC4; 32] ++ lit "Running OCR...");
             Notice ([0xD83D; 0xDD0D] ++ lit " Processing OCR...");
             OcrProcess apiKey req].
Proof.
  unfold performMistralOCR.
  destruct (mistralApiKey settings) as [|k0 key] eqn:Ek; cbn [negb truthy]; [discriminate|].
  unfold bind, try_catch, setStatus, emit, ask, lift, call, throw, ret.
  cbn [world trace truthy].
  intros H. repeat run_step; try discriminate.
  repeat match goal with
         | E : (_, _) = (_, _) |- _ => inversion E; clear E
         end.
  subst. cbn [world trace] in *. rewrite <- !app_assoc. cbn [app].
  eexists _, _, _, _, _, _. cbv zeta.
  split; [discriminate|]. split; [reflexivity|]. split; [eassumption|].
  split; [discriminate|]. split; [eassumption|]. split; [eassumption|].
  split; [reflexivity|]. split; [|reflexivity].
  intros Hx. rewrite parse_results_images, Hx. reflexivity.
Qed.

(** X8.  A failing extraction either stops at the missing key, before
    anything is done, or has caught a value thrown inside its [try] and
    logged it.  When the caught value has a message, the cause is reported
    as [Mistral OCR Failed: cause]; when it is [null] or [undefined], the
    [catch] block itself fails at [error.message] and the [TypeError] of
    the engine is what the caller gets.  The requests made until then are
    an initial part of upload, signed URL, OCR: nothing is sent after the
    step that failed. *)
Theorem performMistralOCR_failure base64Data mimeType st st' e :
  performMistralOCR host settings base64Data mimeType st = (st', Throw e) ->
  (mistralApiKey settings = []
   /\ e = Error (lit "Mistral API Key not configured") /\ st' = st)
  \/ (mistralApiKey settings <> []
      /\ exists cause l,
           trace st' = trace st ++ l
           /\ last l (Status []) = ConsoleError (lit "Mistral SDK Error:") cause
           /\ e = Error match cause with
                        | Error message => lit "Mistral OCR Failed: " ++ message
                        | Nullish value => TypeError_message host value
                        end
           /\ exists up fileId req,
                filter is_network l
                = firstn (length (filter is_network l))
                    [FilesUpload (mistralApiKey settings) up;
                     FilesGetSignedUrl (mistralApiKey settings) fileId;
                     OcrProcess (mistralApiKey settings) req]).
Proof.
  unfold performMistralOCR.
  destruct (mistralApiKey settings) as [|k0 key] eqn:Ek; cbn [negb truthy].
  { intros H. inversion H. left. auto. }
  right. split; [discriminate|]. revert H.
  unfold bind, try_catch, error_message, setStatus, emit, ask, lift, call, throw, ret.
  cbn [world trace truthy].
  intros H. repeat run_step; try discriminate;
  repeat match goal with
         | E : (_, _) = (_, _) |- _ => inversion E; clear E
         end;
  subst; cbn [world trace]; rewrite <- ?app_assoc; cbn [app];
  eexists _, _; (split; [reflexivity|]); (split; [reflexivity|]);
  (split; [reflexivity|]); cbn [filter is_network length firstn].
  all: eexists _, _, _; reflexivity.
  Unshelve.
  all: first [ exact [] | exact false
             | exact {| fileName := []; content_type := []; content_bytes := []; purpose := [] |}
             | exact {| ocr_model := []; documentUrl := []; includeImageBase64 := false |} ].
Qed.

(** Whatever [performMistralOCR] throws has a message. *)
Lemma performMistralOCR_throws_error base64Data mimeType st st' e :
  performMistralOCR host settings base64Data mimeType st = (st', Throw e) ->
  exists message, e = Error message.
Proof.
  unfold performMistralOCR.
  destruct (mistralApiKey settings) as [|k0 key] eqn:Ek; cbn [negb truthy].
  { intros H. inversion H. eauto. }
  unfold bind, try_catch, error_message, setStatus, emit, ask, lift, call, throw, ret.
  cbn [world trace truthy].
  intros H. repeat run_step; try discriminate;
  repeat match goal with
         | E : (_, _) = (_, _) |- _ => inversion E; clear E
         end; subst; eauto.
Qed.

End ExtractorRequests.

Lemma performMistralOCR_success_witness :
  let host := Mock.ops (Mock.answer [Mock.page (lit "A")]) [] (Throw (Error [])) in
  let st := Mock.start in
  let st' := fst (performMistralOCR host Mock.with_key (lit "QUJD") (lit "image/png") st) in
  exists binaryString fileId signedUrl w1 w2 resp,
    let apiKey := mistralApiKey Mock.with_key in
    let upload :=
      {| fileName := lit "upload-" ++ dec (Date_now host (world st)) ++ lit "."
                     ++ or_else (nth_error (split1 47 (lit "image/png")) 1) (lit "bin");
         content_type := lit "image/png";
         content_bytes := List.map (fun c => c mod 256) binaryString;
         purpose := lit "ocr" |} in
    let req :=
      {| ocr_model := lit "mistral-ocr-latest";
         documentUrl := signedUrl;
         includeImageBase64 := extractImages Mock.with_key |} in
    apiKey <> []
    /\ atob host (lit "QUJD") = Ok binaryString
    /\ files_upload host apiKey upload (world st) = (w1, Ok (Some fileId))
    /\ fileId <> []
    /\ files_getSignedUrl host apiKey fileId w1 = (w2, Ok signedUrl)
    /\ ocr_process host apiKey req w2 = (world st', Ok resp)
    /\ {| result_markdown := lit "A"; result_images := [] |}
       = parse_results (extractImages Mock.with_key) resp
    /\ (extractImages Mock.with_key = false ->
        result_images {| result_markdown := lit "A"; result_images := [] |} = [])
    /\ trace st'
       = trace st
         ++ [Status ([0xD83D; 0xDCC4; 32] ++ lit "Uploading to Mistral...");
             Notice (lit "cloud_upload Uploading to Mistral...");
             FilesUpload apiKey upload;
             FilesGetSignedUrl apiKey fileId;
             Status ([0xD83D; 0xDCC4; 32] ++ lit "Running OCR...");
             Notice ([0xD83D; 0xDD0D] ++ lit " Processing OCR...");
             OcrProcess apiKey req].
Proof.
  cbv zeta.
  exact (performMistralOCR_success _
           (Mock.ops (Mock.answer [Mock.page (lit "A")]) [] (Throw (Error []))) Mock.with_key
           (lit "QUJD") (lit "image/png") Mock.start _ _ eq_refl).
Defined.

Lemma performMistralOCR_failure_witness :
  let host := Fs.host (Throw (Error (lit "Network error"))) (Throw (Error [])) in
  let st' := fst (performMistralOCR host Mock.with_key (lit "QUJD") (lit "image/png")
                    (Fs.init Fs.blank)) in
  (mistralApiKey Mock.with_key = []
   /\ Error (lit "Mistral OCR Failed: Network error")
      = Error (lit "Mistral API Key not configured")
   /\ st' = Fs.init Fs.blank)
  \/ (mistralApiKey Mock.with_key <> []
      /\ exists cause l,
           trace st' = trace (Fs.init Fs.blank) ++ l
           /\ last l (Status []) = ConsoleError (lit "Mistral SDK Error:") cause
           /\ Error (lit "Mistral OCR Failed: Network error")
              = Error match cause with
                      | Error message => lit "Mistral OCR Failed: " ++ message
                      | Nullish value => TypeError_message host value
                      end
           /\ exists up fileId req,
                filter is_network l
                = firstn (length (filter is_network l))
                    [FilesUpload (mistralApiKey Mock.with_key) up;
                     FilesGetSignedUrl (mistralApiKey Mock.with_key) fileId;
                     OcrProcess (mistralApiKey Mock.with_key) req]).
Proof.
  cbv zeta.
  exact (performMistralOCR_failure _ (Fs.host (Throw (Error (lit "Network error"))) (Throw (Error [])))
           Mock.with_key (lit "QUJD") (lit "image/png") (Fs.init Fs.blank) _
           (Error (lit "Mistral OCR Failed: Network error")) eq_refl).
Defined.

(** The upload fails: one request was made, none followed. *)
Example performMistralOCR_upload_fails :
  let out := performMistralOCR (Fs.host (Throw (Error (lit "Network error"))) (Throw (Error [])))
               Mock.with_key (lit "QUJD") (lit "image/png") (Fs.init Fs.blank) in
  snd out = Throw (Error (lit "Mistral OCR Failed: Network error"))
  /\ length (filter is_network (trace (fst out))) = 1%nat.
Proof. vm_compute. split; reflexivity. Qed.

(** The upload rejects with [null]: the [catch] block logs it and fails
    at [error.message]; the caller gets the [TypeError]. *)
Example performMistralOCR_upload_rejects_null :
  let out := performMistralOCR (Fs.host (Throw (Nullish null)) (Throw (Error [])))
               Mock.with_key (lit "QUJD") (lit "image/png") (Fs.init Fs.blank) in
  snd out = Throw (Error (lit "Cannot read properties of null (reading 'message')"))
  /\ last (trace (fst out)) (Status [])
     = ConsoleError (lit "Mistral SDK Error:") (Nullish null).
Proof. vm_compute. split; reflexivity. Qed.

(** ** Image persistence: what is written where *)

Section PersistenceEvents.

Variable W : Type.
Variable host : Ops W.
Variable settings : AIOcrSettings.

Lemma store_image_adds created tf names name base64Data :
  In name names ->
  adds_only (save_event created tf names)
    (store_image host (tf ++ lit "/" ++ name) base64Data).
Proof.
  intros Hin.
  assert (E : existsb (fun k => JS.eqb (tf ++ lit "/" ++ name) (tf ++ lit "/" ++ k)) names = true).
  { apply existsb_exists. exists name. split; [exact Hin|apply eqb_refl]. }
  unfold store_image.
  apply adds_only_bind; [apply adds_only_lift|]. intros data.
  apply adds_only_bind; [apply adds_only_ask|]. intros [[]|];
    apply adds_only_call; exact E.
Qed.

Lemma saveOCRImages_adds imgs basePath :
  adds_only
    (save_event (truthy (imageSubfolder settings))
       (if truthy (imageSubfolder settings)
        then basePath ++ lit "/" ++ imageSubfolder settings
        else basePath)
       (Obj.keys imgs))
    (saveOCRImages host settings imgs basePath).
Proof.
  unfold saveOCRImages.
  destruct (length (Obj.keys imgs) =? 0)%nat; [apply adds_only_ret|].
  apply adds_only_bind_ok.
  - unfold target_folder.
    destruct (truthy (imageSubfolder settings)); [|apply adds_only_ret].
    apply adds_only_bind; [apply adds_only_ask|]. intros folder.
    apply adds_only_bind; [|intro; apply adds_only_ret].
    destruct folder as [[]|]; try apply adds_only_ret;
      apply adds_only_call; cbn; apply eqb_refl.
  - intros tf st0 st1 Htf. apply target_folder_path in Htf. subst tf.
    apply adds_only_bind.
    + apply adds_only_for_of. intros acc [name data] Hin.
      unfold save_image. apply adds_only_try_catch.
      * apply adds_only_bind; [|intro; apply adds_only_ret].
        apply store_image_adds. unfold Obj.keys. apply in_map_iff.
        exists (name, data). auto.
      * intros msg. apply adds_only_bind; [|intro; apply adds_only_ret].
        apply adds_only_emit. reflexivity.
    + intros saved. apply adds_only_bind; [|intro; apply adds_only_ret].
      apply adds_only_emit. reflexivity.
Qed.


(** X9.  Whatever the table and the host, [saveOCRImages] sends nothing
    over the network and sets no status; it creates at most the target
    folder, and only when a subfolder is configured; and the path of every
    file it writes is the text [target folder/name] for a name of the
    table.  The name is used as it is, so this is a statement about the
    text of the path, not about the place in the vault it leads to. *)
Theorem saveOCRImages_events imgs basePath st :
  let tf := if truthy (imageSubfolder settings)
            then basePath ++ lit "/" ++ imageSubfolder settings
            else basePath in
  exists l,
    trace (fst (saveOCRImages host settings imgs basePath st)) = trace st ++ l
    /\ forallb (save_event (truthy (imageSubfolder settings)) tf (Obj.keys imgs)) l = true.
Proof.
  cbv zeta. destruct (saveOCRImages_adds imgs basePath st) as (l & E & F).
  exists l. split; [exact E|exact F].
Qed.

End PersistenceEvents.

(** A name is not normalised: one that climbs with [../] is written where
    it leads. *)
Example saveOCRImages_name_with_dots :
  filter is_vault_write
    (trace (fst (saveOCRImages (Mock.ops None [] (Throw (Error []))) Mock.with_key
                   [(lit "../../x.png", lit "AAAA")] (lit "notes") Mock.start)))
  = [CreateFolder (lit "notes/assets");
     CreateBinary (lit "notes/assets/../../x.png") (lit "AAAA")].
Proof. vm_compute. reflexivity. Qed.

(** ** The formatting stage: exceptions, results, requests *)

Section FormattingRuns.

Variable W : Type.
Variable host : Ops W.
Variable settings : AIOcrSettings.
Variables currentPreset presetsDir : jsstring.

(** X10.  Two failures get out of [formatText].  The preset file is read
    before the [try]: when it exists and reading it throws, the call
    throws that very value; no completion request has been made and the
    status line still says [Formatting...].  And a completion request that
    rejects with [null] or [undefined] makes the [catch] block fail at
    [error.message]: the call throws the [TypeError] of the engine; the
    request is the last thing that happened, no notice is shown and the
    status is not cleared. *)
Theorem formatText_exceptions rawText modelOverride customInstruction editor st :
  let presetName := if truthy currentPreset then currentPreset else defaultPreset settings in
  let path := presetsDir ++ lit "/" ++ presetName ++ lit ".md" in
  let model := select_model settings (provider_present host (world st))
                 (provider_getModel host (lit "ai-ocr-formatter") (world st))
                 modelOverride in
  let out := formatText host settings currentPreset presetsDir rawText
               modelOverride customInstruction editor st in
  (forall e,
     adapter_exists host path (world st) = true ->
     adapter_read host path (world st) = Throw e ->
     out = ({| world := world st;
               trace := trace st
                        ++ [Status ([0xD83D; 0xDCC4; 32] ++ lit "Formatting...");
                            Notice ([0xD83C; 0xDFA8] ++ lit " Formatting with "
                                    ++ last (split1 47 model) [] ++ lit "...")] |},
            Throw e))
  /\ (forall value,
        adapter_exists host path (world st) = false
        \/ (exists text, adapter_read host path (world st) = Ok text) ->
        (if provider_present host (world st)
         then forall req,
                snd (provider_fetchWithRetry host req (world st)) = Throw (Nullish value)
         else openRouterApiKey settings <> []
              /\ forall request,
                   snd (requestUrl host request (world st)) = Throw (Nullish value)) ->
        snd out = Throw (Error (TypeError_message host value))
        /\ exists l e, trace (fst out) = trace st ++ l ++ [e] /\ is_completion e = true).
Proof.
  cbv zeta. split.
  - intros e Ex Er. unfold formatText.
    unfold bind at 1, ask at 1. unfold bind at 1, ask at 1.
    unfold bind at 1, setStatus at 1, emit at 1. unfold bind at 1, emit at 1.
    cbn [world trace truthy].
    unfold bind at 1, getPresetContent, bind at 1, ask at 1. cbn [world].
    rewrite Ex. unfold bind at 1. cbn [world]. rewrite Er.
    rewrite <- app_assoc. reflexivity.
  - intros value Hp Hf.
    assert (E : exists w1 l e,
               is_completion e = true
               /\ formatText host settings currentPreset presetsDir rawText
                    modelOverride customInstruction editor st
                  = ({| world := w1; trace := trace st ++ l ++ [e] |},
                     Throw (Error (TypeError_message host value)))).
    { unfold formatText.
      unfold bind at 1, ask at 1. unfold bind at 1, ask at 1.
      unfold bind at 1, setStatus at 1, emit at 1. unfold bind at 1, emit at 1.
      cbn [world trace truthy].
      unfold bind at 1, getPresetContent, bind at 1, ask at 1. cbn [world].
      destruct (adapter_exists host _ (world st)).
      - destruct Hp as [Hp|[text Er]]; [discriminate|].
        unfold bind at 1. cbn [world]. rewrite Er. unfold ret at 1.
        unfold try_catch, bind at 1.
        destruct (provider_present host (world st)).
        + unfold call at 1. cbn [world trace].
          match goal with
          | |- context [provider_fetchWithRetry host ?q (world st)] =>
              specialize (Hf q); destruct (provider_fetchWithRetry host q (world st)) as [w1 o]
          end.
          cbn [snd] in Hf. subst o. cbn.
          eexists w1, [_; _], (FetchWithRetry _). rewrite <- !app_assoc. split; reflexivity.
        + destruct Hf as [Hk' Hf]. unfold localFetch.
          destruct (openRouterApiKey settings) as [|k0 key]; [congruence|]. cbn [truthy negb].
          unfold call at 1. cbn [world trace].
          match goal with
          | |- context [requestUrl host ?q (world st)] =>
              specialize (Hf q); destruct (requestUrl host q (world st)) as [w1 o]
          end.
          cbn [snd] in Hf. subst o. cbn.
          eexists w1, [_; _], (RequestUrl _). rewrite <- !app_assoc. split; reflexivity.
      - unfold ret at 1.
        unfold try_catch, bind at 1.
        destruct (provider_present host (world st)).
        + unfold call at 1. cbn [world trace].
          match goal with
          | |- context [provider_fetchWithRetry host ?q (world st)] =>
              specialize (Hf q); destruct (provider_fetchWithRetry host q (world st)) as [w1 o]
          end.
          cbn [snd] in Hf. subst o. cbn.
          eexists w1, [_; _], (FetchWithRetry _). rewrite <- !app_assoc. split; reflexivity.
        + destruct Hf as [Hk' Hf]. unfold localFetch.
          destruct (openRouterApiKey settings) as [|k0 key]; [congruence|]. cbn [truthy negb].
          unfold call at 1. cbn [world trace].
          match goal with
          | |- context [requestUrl host ?q (world st)] =>
              specialize (Hf q); destruct (requestUrl host q (world st)) as [w1 o]
          end.
          cbn [snd] in Hf. subst o. cbn.
          eexists w1, [_; _], (RequestUrl _). rewrite <- !app_assoc. split; reflexivity. }
    destruct E as (w1 & l & e & He & E). rewrite E. cbn [fst snd trace].
    split; [reflexivity|]. exists l, e. auto.
Qed.

Lemma normalize_response_run editor raw (st : State W) :
  exists l,
    normalize_response editor raw st
    = ({| world := world st; trace := trace st ++ l ++ [Status []] |},
       Ok match parse_formatted (strip_fences (strip_think raw)) with
          | Some formatted_markdown => cleanLatexDelimiters formatted_markdown
          | None => strip_fences (strip_think raw)
          end).
Proof.
  unfold normalize_response.
  destruct (parse_formatted (strip_fences (strip_think raw))) as [md|].
  - destruct editor.
    + exists [Notice ([0x2705] ++ lit " formatted!")]. cbn. rewrite <- app_assoc. reflexivity.
    + exists []. reflexivity.
  - eexists [_; _]. cbn. rewrite <- !app_assoc. reflexivity.
Qed.

Lemma formatText_ok rawText modelOverride customInstruction editor st st' r :
  formatText host settings currentPreset presetsDir rawText
    modelOverride customInstruction editor st = (st', Ok r) ->
  exists l,
    trace st' = trace st ++ l
    /\ match r with
       | None =>
           exists message,
             ends_in [Notice ([0x274C] ++ lit " Formatting failed: " ++ message); Status []] l
       | Some out =>
           ends_in [Status []] l
           /\ exists req content,
             user_content req
             = lit "Format the following OCR text. Language: "
               ++ language settings ++ lit "." ++ [LF; LF]
               ++ lit "---" ++ [LF] ++ rawText ++ [LF] ++ lit "---"
             /\ (if provider_present host (world st)
                 then provider_fetchWithRetry host req (world st) = (world st', Ok content)
                 else exists request,
                        body request = req
                        /\ requestUrl host request (world st) = (world st', Ok content))
             /\ out = match parse_formatted (strip_fences (strip_think content)) with
                      | Some formatted_markdown => cleanLatexDelimiters formatted_markdown
                      | None => strip_fences (strip_think content)
                      end
       end.
Proof.
  unfold formatText.
  unfold bind at 1, ask at 1. unfold bind at 1, ask at 1.
  unfold bind at 1, setStatus at 1, emit at 1. unfold bind at 1, emit at 1.
  cbn [world trace].
  unfold bind at 1, getPresetContent, bind at 1, ask at 1. cbn [world].
  match goal with
  | |- context [{| world := world st; trace := ?t |}] =>
      set (s0 := {| world := world st; trace := t |})
  end.
  assert (Ht : exists l0, trace s0 = trace st ++ l0).
  { eexists. unfold s0. cbn [trace]. rewrite <- app_assoc. reflexivity. }
  assert (Hw : world s0 = world st) by reflexivity.
  clearbody s0. destruct Ht as [l0 Ht].
  assert (K : forall req,
            try_catch
              (content <- (if provider_present host (world st)
                           then fun req => call (FetchWithRetry req) (provider_fetchWithRetry host req)
                           else localFetch host settings) req ;;
               out <- normalize_response editor content ;;
               ret (Some out))%js
              (fun error =>
                 message <- error_message host error ;;
                 emit (Notice ([0x274C] ++ lit " Formatting failed: " ++ message)) ;;;
                 clearStatus (W:=W) ;;; ret None)%js s0 = (st', Ok r) ->
            exists l,
              trace st' = trace st ++ l
              /\ match r with
                 | None =>
                     exists message,
                       ends_in [Notice ([0x274C] ++ lit " Formatting failed: " ++ message);
                                Status []] l
                 | Some out =>
                     ends_in [Status []] l
                     /\ exists content,
                       (if provider_present host (world st)
                        then provider_fetchWithRetry host req (world st) = (world st', Ok content)
                        else exists request,
                               body request = req
                               /\ requestUrl host request (world st) = (world st', Ok content))
                       /\ out = match parse_formatted (strip_fences (strip_think content)) with
                                | Some formatted_markdown => cleanLatexDelimiters formatted_markdown
                                | None => strip_fences (strip_think content)
                                end
                 end).
  { intros req. unfold try_catch, bind at 1.
    destruct (provider_present host (world st)).
    - unfold call at 1. rewrite Hw.
      destruct (provider_fetchWithRetry host req (world st)) as [w1 [content|message]] eqn:Ef.
      + unfold bind at 1.
        destruct (normalize_response_run editor content
                    {| world := w1; trace := trace s0 ++ [FetchWithRetry req] |}) as [l El].
        rewrite El. unfold ret. intros H. inversion H. subst r st'. cbn [world trace].
        rewrite Ht, <- !app_assoc.
        eexists. split; [reflexivity|]. split.
        { exists (l0 ++ [FetchWithRetry req] ++ l). rewrite <- !app_assoc. reflexivity. }
        exists content. auto.
      + destruct message as [message|value]; [|discriminate].
        unfold bind, error_message, emit, clearStatus, setStatus, emit, ret.
        cbn [world trace truthy].
        intros H. inversion H. subst r st'. cbn [world trace].
        rewrite Ht, <- !app_assoc.
        eexists. split; [reflexivity|].
        exists message, (l0 ++ [FetchWithRetry req]). rewrite <- !app_assoc. reflexivity.
    - unfold localFetch.
      destruct (truthy (openRouterApiKey settings)); cbn [negb].
      + unfold call at 1. rewrite Hw.
        match goal with
        | |- context [requestUrl host ?q (world st)] => set (request := q)
        end.
        destruct (requestUrl host request (world st)) as [w1 [content|message]] eqn:Ef.
        * unfold bind at 1.
          destruct (normalize_response_run editor content
                      {| world := w1; trace := trace s0 ++ [RequestUrl request] |}) as [l El].
          rewrite El. unfold ret. intros H. inversion H. subst r st'. cbn [world trace].
          rewrite Ht, <- !app_assoc.
          eexists. split; [reflexivity|]. split.
          { exists (l0 ++ [RequestUrl request] ++ l). rewrite <- !app_assoc. reflexivity. }
          exists content. split; [|reflexivity].
          exists request. auto.
        * destruct message as [message|value]; [|discriminate].
          unfold bind, error_message, emit, clearStatus, setStatus, emit, ret.
          cbn [world trace truthy].
          intros H. inversion H. subst r st'. cbn [world trace].
          rewrite Ht, <- !app_assoc.
          eexists. split; [reflexivity|].
          exists message, (l0 ++ [RequestUrl request]). rewrite <- !app_assoc. reflexivity.
      + unfold throw at 1.
        unfold bind, error_message, emit, clearStatus, setStatus, emit, ret.
        cbn [world trace truthy].
        intros H. inversion H. subst r st'. cbn [world trace].
        rewrite Ht, <- !app_assoc.
        eexists. split; [reflexivity|].
        eexists _, l0. reflexivity. }
  assert (F : forall req,
            user_content req
            = lit "Format the following OCR text. Language: "
              ++ language settings ++ lit "." ++ [LF; LF]
              ++ lit "---" ++ [LF] ++ rawText ++ [LF] ++ lit "---" ->
            try_catch
              (content <- (if provider_present host (world st)
                           then fun req => call (FetchWithRetry req) (provider_fetchWithRetry host req)
                           else localFetch host settings) req ;;
               out <- normalize_response editor content ;;
               ret (Some out))%js
              (fun error =>
                 message <- error_message host error ;;
                 emit (Notice ([0x274C] ++ lit " Formatting failed: " ++ message)) ;;;
                 clearStatus (W:=W) ;;; ret None)%js s0 = (st', Ok r) ->
            exists l,
              trace st' = trace st ++ l
              /\ match r with
                 | None =>
                     exists message,
                       ends_in [Notice ([0x274C] ++ lit " Formatting failed: " ++ message);
                                Status []] l
                 | Some out =>
                     ends_in [Status []] l
                     /\ exists req content,
                       user_content req
                       = lit "Format the following OCR text. Language: "
                         ++ language settings ++ lit "." ++ [LF; LF]
                         ++ lit "---" ++ [LF] ++ rawText ++ [LF] ++ lit "---"
                       /\ (if provider_present host (world st)
                           then provider_fetchWithRetry host req (world st)
                                = (world st', Ok content)
                           else exists request,
                                  body request = req
                                  /\ requestUrl host request (world st)
                                     = (world st', Ok content))
                       /\ out = match parse_formatted (strip_fences (strip_think content)) with
                                | Some formatted_markdown => cleanLatexDelimiters formatted_markdown
                                | None => strip_fences (strip_think content)
                                end
                 end).
  { intros req Hu H. destruct (K req H) as (l & El & Hl). exists l. split; [exact El|].
    destruct r as [out|]; [|exact Hl].
    destruct Hl as (He & content & Hc & Ho). split; [exact He|].
    exists req, content. auto. }
  clear K.
  destruct (adapter_exists host _ (world st)).
  - unfold bind at 1. rewrite Hw.
    destruct (adapter_read host _ (world st)) as [text|message]; [|discriminate].
    unfold ret at 1. intros H. refine (F _ _ H). reflexivity.
  - unfold ret at 1. intros H. refine (F _ _ H). reflexivity.
Qed.


(** X11.  When [formatText] returns, the status has been cleared last.
    It returns [null] only after the notice of a failed request; any other
    result is the answer the completion service gave on the selected
    route, repaired and normalised. *)
Theorem formatText_returns rawText modelOverride customInstruction editor st st' r :
  formatText host settings currentPreset presetsDir rawText
    modelOverride customInstruction editor st = (st', Ok r) ->
  exists l,
    trace st' = trace st ++ l
    /\ match r with
       | None =>
           exists message,
             ends_in [Notice ([0x274C] ++ lit " Formatting failed: " ++ message); Status []] l
       | Some out =>
           ends_in [Status []] l
           /\ exists req w content,
             (if provider_present host (world st)
              then fst (provider_fetchWithRetry host req w) = world st'
                   /\ snd (provider_fetchWithRetry host req w) = Ok content
              else exists request,
                     body request = req
                     /\ fst (requestUrl host request w) = world st'
                     /\ snd (requestUrl host request w) = Ok content)
             /\ out = match parse_formatted (strip_fences (strip_think content)) with
                      | Some formatted_markdown => cleanLatexDelimiters formatted_markdown
                      | None => strip_fences (strip_think content)
                      end
       end.
Proof.
  intros H. destruct (formatText_ok _ _ _ _ _ _ _ H) as (l & El & Hl).
  exists l. split; [exact El|]. destruct r as [out|]; [|exact Hl].
  destruct Hl as (He & req & content & _ & Hc & Ho). split; [exact He|].
  exists req, (world st), content. split; [|exact Ho].
  destruct (provider_present host (world st)).
  - rewrite Hc. auto.
  - destruct Hc as (request & Hb & Hc). exists request. rewrite Hc. auto.
Qed.

(** *** Model selection *)

Lemma requested_models_none l :
  forallb (fun e => negb (is_completion e)) l = true -> requested_models l = [].
Proof.
  induction l as [|e l IH]; [reflexivity|]. cbn [forallb]. rewrite andb_true_iff.
  intros [He Hl]. unfold requested_models in *. cbn [flat_map].
  rewrite (IH Hl), app_nil_r.
  destruct e; try reflexivity; discriminate.
Qed.

Lemma normalize_response_no_request editor content :
  adds_only (fun e => negb (is_completion e)) (normalize_response (W:=W) editor content).
Proof. unfold normalize_response, clearStatus, setStatus. repeat adds_step. Qed.

(** The [try] of [formatText] around a request [e] that is sent: after
    it, no other request is made. *)
Lemma try_request_shape e (op : W -> W * outcome jsstring) editor s :
  exists l,
    trace (fst (try_catch
                  (content <- call e op ;;
                   out <- normalize_response editor content ;;
                   ret (Some out))%js
                  (fun error =>
                     message <- error_message host error ;;
                     emit (Notice ([0x274C] ++ lit " Formatting failed: " ++ message)) ;;;
                     clearStatus (W:=W) ;;; ret None)%js s))
    = trace s ++ [e] ++ l
    /\ forallb (fun e => negb (is_completion e)) l = true.
Proof.
  destruct (op (world s)) as [w r] eqn:Eo.
  match goal with
  | |- context [try_catch (bind (call e op) ?k) ?h s] =>
      assert (E0 : try_catch (bind (call e op) k) h s
                   = try_catch (bind (lift r) k) h {| world := w; trace := trace s ++ [e] |})
        by (unfold try_catch, bind at 1, call at 1, bind at 2, lift; rewrite Eo; reflexivity);
      assert (K : adds_only (fun e => negb (is_completion e)) (try_catch (bind (lift r) k) h))
  end.
  { apply adds_only_try_catch.
    - apply adds_only_bind; [apply adds_only_lift|]. intros content.
      apply adds_only_bind; [apply normalize_response_no_request|].
      intros out. apply adds_only_ret.
    - intros error. unfold clearStatus, setStatus. repeat adds_step. }
  rewrite E0.
  destruct (K {| world := w; trace := trace s ++ [e] |}) as (l & E & F).
  exists l. rewrite E. cbn [trace]. rewrite <- app_assoc. auto.
Qed.

(** C7.  The model of a call of [formatText] is the override when one is
    given; without an override it is the model configured in the provider
    when the provider is present, and the locally configured default
    otherwise.  That model is used: the call announces it in its notice,
    every completion request of the call asks for it, and when the preset
    can be read and a route to the completion service exists (the provider,
    or an API key of the plugin's own) exactly one request is made, for
    that model. *)
Theorem formatText_model_precedence rawText modelOverride customInstruction editor st :
  let provider := provider_present host (world st) in
  let providerModel := provider_getModel host (lit "ai-ocr-formatter") (world st) in
  let chosen :=
    match modelOverride with
    | Some (c :: o) => c :: o
    | _ => if provider then providerModel else openRouterModel settings
    end in
  let presetName := if truthy currentPreset then currentPreset else defaultPreset settings in
  let path := presetsDir ++ lit "/" ++ presetName ++ lit ".md" in
  exists l,
    trace (fst (formatText host settings currentPreset presetsDir rawText
                  modelOverride customInstruction editor st))
    = trace st
      ++ [Status ([0xD83D; 0xDCC4; 32] ++ lit "Formatting...");
          Notice ([0xD83C; 0xDFA8] ++ lit " Formatting with "
                  ++ last (split1 47 chosen) [] ++ lit "...")]
      ++ l
    /\ Forall (eq chosen) (requested_models l)
    /\ (adapter_exists host path (world st) = false
        \/ (exists text, adapter_read host path (world st) = Ok text) ->
        provider = true \/ openRouterApiKey settings <> [] ->
        requested_models l = [chosen]).
Proof.
  cbv zeta.
  assert (Esel : select_model settings (provider_present host (world st))
                   (provider_getModel host (lit "ai-ocr-formatter") (world st)) modelOverride
                 = match modelOverride with
                   | Some (c :: o) => c :: o
                   | _ => if provider_present host (world st)
                          then provider_getModel host (lit "ai-ocr-formatter") (world st)
                          else openRouterModel settings
                   end).
  { unfold select_model.
    destruct (provider_present host (world st)); destruct modelOverride as [[|c o]|];
      reflexivity. }
  rewrite <- Esel.
  set (chosen := select_model _ _ _ _).
  unfold formatText.
  unfold bind at 1, ask at 1. unfold bind at 1, ask at 1.
  unfold bind at 1, setStatus at 1, emit at 1. unfold bind at 1, emit at 1.
  cbn [world trace truthy]. fold chosen.
  unfold bind at 1, getPresetContent, bind at 1, ask at 1. cbn [world].
  match goal with
  | |- context [{| world := world st; trace := ?t |}] =>
      set (s0 := {| world := world st; trace := t |})
  end.
  assert (Ht : trace s0
               = trace st
                 ++ [Status ([0xD83D; 0xDCC4; 32] ++ lit "Formatting...");
                     Notice ([0xD83C; 0xDFA8] ++ lit " Formatting with "
                             ++ last (split1 47 chosen) [] ++ lit "...")]).
  { unfold s0. cbn [trace]. rewrite <- app_assoc. reflexivity. }
  assert (Hw : world s0 = world st) by reflexivity.
  clearbody s0.
  assert (K : forall req,
            model req = chosen ->
            exists l,
              trace (fst (try_catch
                            (content <- (if provider_present host (world st)
                                         then fun req => call (FetchWithRetry req)
                                                           (provider_fetchWithRetry host req)
                                         else localFetch host settings) req ;;
                             out <- normalize_response editor content ;;
                             ret (Some out))%js
                            (fun error =>
                               message <- error_message host error ;;
                               emit (Notice ([0x274C] ++ lit " Formatting failed: "
                                             ++ message)) ;;;
                               clearStatus (W:=W) ;;; ret None)%js s0))
              = trace s0 ++ l
              /\ Forall (eq chosen) (requested_models l)
              /\ (provider_present host (world st) = true
                  \/ openRouterApiKey settings <> [] ->
                  requested_models l = [chosen])).
  { intros req Hm.
    destruct (provider_present host (world st)).
    - destruct (try_request_shape (FetchWithRetry req) (provider_fetchWithRetry host req)
                  editor s0) as (l & E & F).
      exists ([FetchWithRetry req] ++ l). split; [exact E|].
      change (requested_models ([FetchWithRetry req] ++ l))
        with ([model req] ++ requested_models l).
      rewrite (requested_models_none _ F), Hm. cbn [app]. split; [|reflexivity].
      constructor; [reflexivity|constructor].
    - unfold localFetch. destruct (openRouterApiKey settings) as [|k0 key] eqn:Ek.
      + cbn [truthy negb]. exists [Notice ([0x274C] ++ lit " Formatting failed: "
                                           ++ lit "API Key missing. Enable OpenRouter Provider OR set key in settings.");
                                   Status []].
        split; [cbn; rewrite <- app_assoc; reflexivity|]. split; [constructor|].
        intros [H|H]; [discriminate|congruence].
      + cbn [truthy negb].
        match goal with
        | |- context [call (RequestUrl ?q) ?op] =>
            destruct (try_request_shape (RequestUrl q) op editor s0) as (l & E & F);
            exists ([RequestUrl q] ++ l)
        end.
        split; [exact E|].
        match goal with
        | |- context [requested_models ([RequestUrl ?q] ++ l)] =>
            change (requested_models ([RequestUrl q] ++ l))
              with ([model (body q)] ++ requested_models l)
        end.
        cbn [body].
        rewrite (requested_models_none _ F), Hm. cbn [app]. split; [|reflexivity].
        constructor; [reflexivity|constructor]. }
  destruct (adapter_exists host _ (world st)) eqn:Ex.
  - unfold bind at 1. rewrite Hw.
    destruct (adapter_read host _ (world st)) as [text|e] eqn:Er.
    + unfold ret at 1.
      match goal with
      | |- context [try_catch (bind (_ ?q) _)] => destruct (K q eq_refl) as (l & E & F1 & F2)
      end.
      exists l. rewrite E, Ht, <- app_assoc. split; [reflexivity|]. split; [exact F1|].
      intros _ Hr. apply F2, Hr.
    + exists []. cbn [fst]. rewrite Ht, app_nil_r. split; [reflexivity|].
      split; [constructor|]. intros [H|[text H]]; discriminate.
  - unfold ret at 1.
    match goal with
    | |- context [try_catch (bind (_ ?q) _)] => destruct (K q eq_refl) as (l & E & F1 & F2)
    end.
    exists l. rewrite E, Ht, <- app_assoc. split; [reflexivity|]. split; [exact F1|].
    intros _ Hr. apply F2, Hr.
Qed.

Lemma formatText_adds (Q : Event -> bool) rawText modelOverride customInstruction editor :
  (forall e, match e with
             | Status _ | Notice _ | ConsoleError _ _ | FetchWithRetry _ | RequestUrl _ => Q e = true
             | _ => True
             end) ->
  adds_only Q (formatText host settings currentPreset presetsDir rawText
                 modelOverride customInstruction editor).
Proof.
  intros HQ.
  assert (Hs : forall t, Q (Status t) = true) by (intros t; exact (HQ (Status t))).
  assert (Hn : forall t, Q (Notice t) = true) by (intros t; exact (HQ (Notice t))).
  assert (Hc : forall t m, Q (ConsoleError t m) = true) by (intros t m; exact (HQ (ConsoleError t m))).
  assert (Hf : forall r, Q (FetchWithRetry r) = true) by (intros r; exact (HQ (FetchWithRetry r))).
  assert (Hr : forall r, Q (RequestUrl r) = true) by (intros r; exact (HQ (RequestUrl r))).
  unfold formatText, getPresetContent, localFetch, normalize_response, clearStatus, setStatus.
  repeat first
    [ apply adds_only_emit; solve [apply Hs | apply Hn | apply Hc]
    | apply adds_only_call; solve [apply Hf | apply Hr]
    | adds_step ].
Qed.


(** X12.  A call of [formatText] makes at most one completion request,
    whatever the host answers. *)
Theorem formatText_one_request rawText modelOverride customInstruction editor st :
  exists l,
    trace (fst (formatText host settings currentPreset presetsDir rawText
                  modelOverride customInstruction editor st))
    = trace st ++ l
    /\ (length (filter is_completion l) <= 1)%nat.
Proof.
  match goal with
  | |- exists l, trace (fst (?c st)) = _ /\ _ =>
      assert (H : at_most is_completion 1 c); [|exact (H st)]
  end.
  unfold formatText.
  apply (at_most_bind _ _ _ _ _ _ 0 1);
    [apply at_most_zero, adds_only_ask|intros provider].
  apply (at_most_bind _ _ _ _ _ _ 0 1);
    [apply at_most_zero, adds_only_ask|intros providerModel].
  apply (at_most_bind _ _ _ _ _ _ 0 1);
    [apply at_most_zero, adds_only_emit; reflexivity|intros _].
  apply (at_most_bind _ _ _ _ _ _ 0 1);
    [apply at_most_zero, adds_only_emit; reflexivity|intros _].
  apply (at_most_bind _ _ _ _ _ _ 0 1).
  { apply at_most_zero. unfold getPresetContent. repeat adds_step. }
  intros systemPrompt.
  apply (at_most_try_catch _ _ _ _ _ 1 0).
  - apply (at_most_bind _ _ _ _ _ _ 1 0).
    + destruct provider.
      * apply at_most_call.
      * unfold localFetch. destruct (negb (truthy (openRouterApiKey settings))).
        -- apply (at_most_le _ _ _ _ 0 1); [lia|]. apply at_most_zero, adds_only_throw.
        -- apply at_most_call.
    + intros content. apply at_most_zero.
      unfold normalize_response, clearStatus, setStatus. repeat adds_step.
  - intros msg. apply at_most_zero. unfold clearStatus, setStatus. repeat adds_step.
Qed.

(** X13.  The completion request goes over one route only: through the
    provider plugin when it is installed, and otherwise directly to the
    OpenRouter endpoint, with the API key of the settings as bearer token
    and never without a key.  [formatText] touches neither the vault nor the
    OCR service. *)
Theorem formatText_route rawText modelOverride customInstruction editor st :
  exists l,
    trace (fst (formatText host settings currentPreset presetsDir rawText
                  modelOverride customInstruction editor st))
    = trace st ++ l
    /\ forallb (route_event (provider_present host (world st)) (openRouterApiKey settings)) l
       = true.
Proof.
  unfold formatText. unfold bind at 1, ask at 1. unfold bind at 1, ask at 1.
  set (Q := route_event (provider_present host (world st)) (openRouterApiKey settings)).
  match goal with
  | |- exists l, trace (fst (?c st)) = _ /\ _ =>
      assert (H : adds_only Q c); [|exact (H st)]
  end.
  unfold Q. clear Q.
  apply adds_only_bind; [unfold setStatus; apply adds_only_emit; reflexivity|intros _].
  apply adds_only_bind; [apply adds_only_emit; reflexivity|intros _].
  apply adds_only_bind; [unfold getPresetContent; repeat adds_step|intros systemPrompt].
  apply adds_only_try_catch.
  - apply adds_only_bind.
    + destruct (provider_present host (world st)).
      * apply adds_only_call. reflexivity.
      * unfold localFetch. destruct (truthy (openRouterApiKey settings)) eqn:Ek; cbn [negb].
        -- apply adds_only_call. cbn [route_event negb andb url authorization].
           rewrite Ek, !eqb_refl. reflexivity.
        -- apply adds_only_throw.
    + intros content. unfold normalize_response, clearStatus, setStatus. repeat adds_step.
  - intros msg. unfold clearStatus, setStatus. repeat adds_step.
Qed.

Lemma formatText_without_key_run rawText modelOverride customInstruction editor st :
  provider_present host (world st) = false ->
  openRouterApiKey settings = [] ->
  exists l,
    fst (formatText host settings currentPreset presetsDir rawText
           modelOverride customInstruction editor st)
    = {| world := world st; trace := trace st ++ l |}
    /\ filter is_network l = []
    /\ match snd (formatText host settings currentPreset presetsDir rawText
                    modelOverride customInstruction editor st) with
       | Ok r =>
           r = None
           /\ ends_in
                [Notice ([0x274C] ++ lit " Formatting failed: "
                         ++ lit "API Key missing. Enable OpenRouter Provider OR set key in settings.");
                 Status []] l
       | Throw _ => True
       end.
Proof.
  intros Hp Hk.
  set (out := formatText host settings currentPreset presetsDir rawText
                modelOverride customInstruction editor st).
  assert (E : out = formatText host settings currentPreset presetsDir rawText
                      modelOverride customInstruction editor st) by reflexivity.
  clearbody out. revert E. unfold formatText.
  unfold bind at 1, ask at 1. unfold bind at 1, ask at 1. rewrite Hp.
  unfold localFetch. rewrite Hk. cbn [truthy negb].
  unfold bind at 1, setStatus at 1, emit at 1. unfold bind at 1, emit at 1.
  cbn [world trace].
  unfold bind at 1, getPresetContent, bind at 1, ask at 1. cbn [world].
  destruct (adapter_exists host _ (world st)).
  - unfold bind at 1. cbn [world].
    destruct (adapter_read host _ (world st)) as [text|message].
    + cbn. intros ->. cbn [fst snd]. rewrite <- !app_assoc. cbn [app].
      eexists. split; [reflexivity|]. split; [reflexivity|]. split; [reflexivity|].
      eexists [_; _]. reflexivity.
    + cbn. intros ->. cbn [fst snd]. rewrite <- !app_assoc. cbn [app].
      eexists. split; [reflexivity|]. split; [reflexivity|]. exact I.
  - cbn. intros ->. cbn [fst snd]. rewrite <- !app_assoc. cbn [app].
    eexists. split; [reflexivity|]. split; [reflexivity|]. split; [reflexivity|].
    eexists [_; _]. reflexivity.
Qed.

(** X14.  Without the provider plugin and without an API key of its
    own, the formatting stage sends nothing and changes nothing: it shows
    the missing-key notice, clears the status and returns [null]. *)
Theorem formatText_without_key rawText modelOverride customInstruction editor st :
  provider_present host (world st) = false ->
  openRouterApiKey settings = [] ->
  let out := formatText host settings currentPreset presetsDir rawText
               modelOverride customInstruction editor st in
  world (fst out) = world st
  /\ filter is_network (trace (fst out)) = filter is_network (trace st)
  /\ forall r, snd out = Ok r ->
       r = None
       /\ exists l,
            trace (fst out) = trace st ++ l
            /\ ends_in
                 [Notice ([0x274C] ++ lit " Formatting failed: "
                          ++ lit "API Key missing. Enable OpenRouter Provider OR set key in settings.");
                  Status []] l.
Proof.
  intros Hp Hk. cbv zeta.
  destruct (formatText_without_key_run rawText modelOverride customInstruction editor st Hp Hk)
    as (l & E & N & R).
  rewrite E. cbn [world trace]. rewrite filter_app, N, app_nil_r.
  split; [reflexivity|]. split; [reflexivity|].
  intros r Hr. rewrite Hr in R. destruct R as [-> R]. split; [reflexivity|].
  exists l. auto.
Qed.

End FormattingRuns.

Lemma formatText_model_precedence_witness :
  let host := Mock.with_provider (lit "provider/model")
                (Mock.ops None [] (Ok (lit "plain text"))) in
  exists l,
    trace (fst (formatText host Mock.with_key [] (lit "presets") (lit "text")
                  None None false Mock.start))
    = [Status ([0xD83D; 0xDCC4; 32] ++ lit "Formatting...");
       Notice ([0xD83C; 0xDFA8] ++ lit " Formatting with model...")]
      ++ l
    /\ requested_models l = [lit "provider/model"].
Proof.
  cbv zeta.
  destruct (formatText_model_precedence _
              (Mock.with_provider (lit "provider/model")
                 (Mock.ops None [] (Ok (lit "plain text"))))
              Mock.with_key [] (lit "presets") (lit "text") None None false Mock.start)
    as (l & E & _ & G).
  exists l. split; [exact E|].
  apply G; left; reflexivity.
Defined.

(** The three combinations, and an override without a provider: the model
    of the request that is sent. *)
Example formatText_model_combinations :
  let answer := Ok (lit "plain text") in
  let local := Mock.ops None [] answer in
  let provided := Mock.with_provider (lit "provider/model") local in
  let sent (host : Ops Mock.vault) (modelOverride : option jsstring) :=
    requested_models
      (trace (fst (formatText host Mock.with_key [] (lit "presets") (lit "text")
                     modelOverride None false Mock.start))) in
  sent provided (Some (lit "my/override")) = [lit "my/override"]
  /\ sent provided None = [lit "provider/model"]
  /\ sent local None = [lit "google/gemini-2.0-flash-exp:free"]
  /\ sent local (Some (lit "my/override")) = [lit "my/override"].
Proof. vm_compute. repeat split. Qed.

Lemma formatText_returns_witness :
  let host := Mock.ops None [] (Ok (lit "plain text")) in
  let out := formatText host Mock.with_key [] (lit "presets") (lit "text") None None false
               Mock.start in
  exists l,
    trace (fst out) = trace Mock.start ++ l
    /\ ends_in [Status []] l
    /\ exists req w content,
         (exists request,
            body request = req
            /\ fst (requestUrl host request w) = world (fst out)
            /\ snd (requestUrl host request w) = Ok content)
         /\ lit "plain text"
            = match parse_formatted (strip_fences (strip_think content)) with
              | Some formatted_markdown => cleanLatexDelimiters formatted_markdown
              | None => strip_fences (strip_think content)
              end.
Proof.
  cbv zeta.
  exact (formatText_returns _ (Mock.ops None [] (Ok (lit "plain text"))) Mock.with_key []
           (lit "presets") (lit "text") None None false Mock.start _ (Some (lit "plain text"))
           eq_refl).
Defined.

Lemma formatText_without_key_witness :
  let host := Mock.ops None [] (Ok (lit "plain text")) in
  let out := formatText host DEFAULT_SETTINGS [] (lit "presets") (lit "text") None None false
               Mock.start in
  world (fst out) = world Mock.start
  /\ filter is_network (trace (fst out)) = filter is_network (trace Mock.start)
  /\ forall r, snd out = Ok r ->
       r = None
       /\ exists l,
            trace (fst out) = trace Mock.start ++ l
            /\ ends_in
                 [Notice ([0x274C] ++ lit " Formatting failed: "
                          ++ lit "API Key missing. Enable OpenRouter Provider OR set key in settings.");
                  Status []] l.
Proof.
  cbv zeta.
  exact (formatText_without_key _ (Mock.ops None [] (Ok (lit "plain text"))) DEFAULT_SETTINGS []
           (lit "presets") (lit "text") None None false Mock.start eq_refl eq_refl).
Defined.

(** The preset path is a folder: reading it throws, and so does
    [formatText]. *)
Example formatText_preset_unreadable :
  let w := {| Fs.documents := []; Fs.dirs := [lit "presets/Academic Blue.md"];
              Fs.selection := [] |} in
  snd (formatText (Fs.host (Ok None) (Ok (lit "text"))) Mock.with_key [] (lit "presets")
         (lit "text") None None false (Fs.init w))
  = Throw (Error (lit "ENOENT")).
Proof. vm_compute. reflexivity. Qed.

(** The completion request rejects with [undefined]: [formatText] throws
    the [TypeError] of its [catch] block, and the status line still says
    [Formatting...]. *)
Example formatText_rejected_with_undefined :
  let out := formatText (Mock.ops None [] (Throw (Nullish undefined))) Mock.with_key []
               (lit "presets") (lit "text") None None false Mock.start in
  snd out
  = Throw (Error (lit "Cannot read properties of undefined (reading 'message')"))
  /\ filter (fun e => match e with Status _ => true | _ => false end) (trace (fst out))
     = [Status ([0xD83D; 0xDCC4; 32] ++ lit "Formatting...")]
  /\ filter (fun e => match e with Notice _ => true | _ => false end) (trace (fst out))
     = [Notice ([0xD83C; 0xDFA8] ++ lit " Formatting with gemini-2.0-flash-exp:free...")].
Proof. vm_compute. repeat split. Qed.

(** ** The pipeline *)

Section Pipeline.

Variable W : Type.
Variable host : Ops W.
Variable settings : AIOcrSettings.
Variables currentPreset presetsDir : jsstring.

(** X15.  [processImage] has everything inside its [try], so whatever
    the host does, one of two things happens: it returns, and the last
    thing it has done is to clear the status; or a value of [null] or
    [undefined] was thrown inside the [try], the [catch] block failed at
    [error.message], and the caller gets the [TypeError] of the engine,
    with no notice shown and the status not cleared by the [catch]. *)
Theorem processImage_total base64Data mimeType modelOverride customInstruction st :
  let out := processImage host settings currentPreset presetsDir base64Data mimeType
               modelOverride customInstruction st in
  (exists r, snd out = Ok r /\ ends_in [Status []] (trace (fst out)))
  \/ (exists value, snd out = Throw (Error (TypeError_message host value))).
Proof.
  cbv zeta. unfold processImage, try_catch.
  match goal with
  | |- context [match ?c st with _ => _ end] => destruct (c st) as [st1 [r|e]] eqn:E
  end.
  - left. exists r. split; [reflexivity|]. cbn [fst].
    apply bind_ok_inv in E. destruct E as (ocrResult & s1 & _ & E).
    destruct (negb (truthy (result_markdown ocrResult))); [discriminate|].
    apply bind_ok_inv in E. destruct E as (u & s2 & _ & E).
    apply bind_ok_inv in E. destruct E as (u' & s3 & _ & E).
    destruct (formatText_ok _ _ _ _ _ _ _ _ _ _ _ _ E) as (l & Et & Hl).
    rewrite Et. apply ends_in_app.
    destruct r as [out|]; [exact (proj1 Hl)|].
    destruct Hl as [message [pre ->]]. exists (pre ++ [Notice ([0x274C] ++ lit " Formatting failed: " ++ message)]).
    rewrite <- app_assoc. reflexivity.
  - destruct e as [message|value].
    + left. eexists. split; [reflexivity|]. cbn.
      eexists. reflexivity.
    + right. exists value. reflexivity.
Qed.

(** X16.  A failing creation of the image folder ends the pipeline as
    well: the recognised text is dropped and no completion request is
    made.  When the failure has a message, [null] is returned after the
    notice; when the vault rejected with [null] or [undefined], the
    [TypeError] of the [catch] block is thrown. *)
Theorem processImage_folder_failure base64Data mimeType modelOverride customInstruction
  st st1 st2 r e :
  performMistralOCR host settings base64Data mimeType st = (st1, Ok r) ->
  result_markdown r <> [] ->
  Obj.keys (result_images r) <> [] ->
  target_folder host settings (or_else (activeFile_parent_path host (world st1)) []) st1
  = (st2, Throw e) ->
  processImage host settings currentPreset presetsDir base64Data mimeType
    modelOverride customInstruction st
  = match e with
    | Error message =>
        ({| world := world st2;
            trace := trace st2
                     ++ [Notice ([0x274C] ++ lit " Error: " ++ message); Status []] |},
         Ok None)
    | Nullish value => (st2, Throw (Error (TypeError_message host value)))
    end.
Proof.
  intros H Hm Hk Ht. unfold processImage, try_catch, bind at 1. rewrite H.
  destruct (result_markdown r) as [|c md] eqn:Em; [congruence|]. cbn [truthy negb].
  unfold bind at 1.
  destruct (Obj.keys (result_images r)) as [|k ks] eqn:Ek; [congruence|].
  cbn [length Nat.ltb Nat.leb].
  unfold bind at 1, bind at 1, ask at 1. unfold saveOCRImages. rewrite Ek.
  cbn [length Nat.eqb]. unfold bind at 1. rewrite Ht.
  destruct e as [message|value]; cbn; [|reflexivity].
  rewrite <- app_assoc. reflexivity.
Qed.


Lemma performMistralOCR_adds (Q : Event -> bool) base64Data mimeType :
  (forall e, match e with
             | Status _ | Notice _ | ConsoleError _ _
             | FilesUpload _ _ | FilesGetSignedUrl _ _ | OcrProcess _ _ => Q e = true
             | _ => True
             end) ->
  adds_only Q (performMistralOCR host settings base64Data mimeType).
Proof.
  intros HQ.
  assert (Hs : forall t, Q (Status t) = true) by (intros t; exact (HQ (Status t))).
  assert (Hn : forall t, Q (Notice t) = true) by (intros t; exact (HQ (Notice t))).
  assert (Hc : forall t m, Q (ConsoleError t m) = true) by (intros t m; exact (HQ (ConsoleError t m))).
  assert (Hu : forall k r, Q (FilesUpload k r) = true) by (intros k r; exact (HQ (FilesUpload k r))).
  assert (Hg : forall k r, Q (FilesGetSignedUrl k r) = true)
    by (intros k r; exact (HQ (FilesGetSignedUrl k r))).
  assert (Ho : forall k r, Q (OcrProcess k r) = true) by (intros k r; exact (HQ (OcrProcess k r))).
  unfold performMistralOCR, setStatus.
  repeat first
    [ apply adds_only_emit; solve [apply Hs | apply Hn | apply Hc]
    | apply adds_only_call; solve [apply Hu | apply Hg | apply Ho]
    | adds_step ].
Qed.

(** X17.  A failing extraction ends the pipeline: what the extractor
    throws always has a message; it is shown in a notice, the status is
    cleared and [null] is returned; the whole run has made no completion
    request and has written nothing to the vault. *)
Theorem processImage_extraction_failure base64Data mimeType modelOverride customInstruction
  st st1 e :
  performMistralOCR host settings base64Data mimeType st = (st1, Throw e) ->
  let out := processImage host settings currentPreset presetsDir base64Data mimeType
               modelOverride customInstruction st in
  exists message,
    e = Error message
    /\ out = ({| world := world st1;
                 trace := trace st1
                          ++ [Notice ([0x274C] ++ lit " Error: " ++ message); Status []] |},
              Ok None)
    /\ filter is_completion (trace (fst out)) = filter is_completion (trace st)
    /\ filter is_vault_write (trace (fst out)) = filter is_vault_write (trace st).
Proof.
  intros H. cbv zeta.
  destruct (performMistralOCR_throws_error _ _ _ _ _ _ _ _ H) as [message ->].
  exists message. split; [reflexivity|].
  assert (E : processImage host settings currentPreset presetsDir base64Data mimeType
                modelOverride customInstruction st
              = ({| world := world st1;
                    trace := trace st1
                             ++ [Notice ([0x274C] ++ lit " Error: " ++ message); Status []] |},
                 Ok None)).
  { unfold processImage, try_catch, bind at 1. rewrite H.
    cbn. rewrite <- app_assoc. reflexivity. }
  rewrite E. cbn [fst trace]. split; [reflexivity|].
  assert (K : forall P : Event -> bool,
             (forall e, match e with
                        | Status _ | Notice _ | ConsoleError _ _
                        | FilesUpload _ _ | FilesGetSignedUrl _ _ | OcrProcess _ _ => P e = false
                        | _ => True
                        end) ->
             filter P (trace st1 ++ [Notice ([0x274C] ++ lit " Error: " ++ message); Status []])
             = filter P (trace st)).
  { intros P HP.
    pose proof (adds_only_filter _ _ P (performMistralOCR host settings base64Data mimeType)) as F.
    rewrite filter_app. cbn [filter].
    rewrite (HP (Notice ([0x274C] ++ lit " Error: " ++ message))), (HP (Status [])), app_nil_r.
    rewrite <- (F (performMistralOCR_adds (fun e => negb (P e)) _ _
                     ltac:(intros e; specialize (HP e); destruct e; try exact I;
                           cbv beta; rewrite HP; reflexivity)) st).
    rewrite H. reflexivity. }
  split; apply K; intros []; exact I || reflexivity.
Qed.

(** X18.  With the extraction of images switched off, the pipeline
    writes nothing to the vault, whatever the OCR service answers. *)
Theorem processImage_no_vault_write base64Data mimeType modelOverride customInstruction st :
  extractImages settings = false ->
  filter is_vault_write
    (trace (fst (processImage host settings currentPreset presetsDir base64Data mimeType
                   modelOverride customInstruction st)))
  = filter is_vault_write (trace st).
Proof.
  intros Hx. apply adds_only_filter. unfold processImage.
  apply adds_only_try_catch.
  - apply adds_only_bind_ok.
    + apply performMistralOCR_adds. intros []; exact I || reflexivity.
    + intros r st0 st1 E.
      destruct (performMistralOCR_inv _ _ _ _ _ _ _ _ E) as (w & req & resp & _ & ->).
      rewrite parse_results_images, Hx.
      destruct (negb (truthy _)); [apply adds_only_throw|].
      cbn [Obj.keys Obj.entries Obj.index_entries Obj.named_entries filter List.map app
           length Nat.ltb Nat.leb].
      apply adds_only_bind; [apply adds_only_ret|]. intros _.
      apply adds_only_bind; [apply adds_only_emit; reflexivity|]. intros _.
      apply formatText_adds. intros []; exact I || reflexivity.
  - intros msg. unfold clearStatus, setStatus. repeat adds_step.
Qed.

End Pipeline.

(** The vault rejects the creation of the image folder with [null]: the
    [catch] block of [processImage] fails at [error.message], the caller
    gets the [TypeError], no notice of the failure is shown and the status
    line still says [Running OCR...]. *)
Example processImage_folder_rejects_null :
  let answer :=
    Some {| pages := Some
      [ {| markdown := Some (lit "page");
           images := Some [ {| id := lit "img-0.jpeg"; imageBase64 := Some (lit "AAAA") |} ] |} ] |} in
  let host := Mock.rejecting_folders null (Mock.ops answer [] (Ok (lit "never asked"))) in
  let out := processImage host Mock.with_key [] (lit "presets") (lit "QUJD") (lit "image/png")
               None None Mock.start in
  snd out = Throw (Error (lit "Cannot read properties of null (reading 'message')"))
  /\ last (trace (fst out)) (Status []) = CreateFolder (lit "notes/assets")
  /\ last (filter (fun e => match e with Status _ => true | _ => false end) (trace (fst out)))
       (Status [])
     = Status ([0xD83D; 0xDCC4; 32] ++ lit "Running OCR...").
Proof. vm_compute. repeat split. Qed.

Lemma processImage_extraction_failure_witness :
  let out := processImage (Mock.ops None [] (Throw (Error []))) DEFAULT_SETTINGS [] (lit "presets")
               (lit "QUJD") (lit "image/png") None None Mock.start in
  exists message,
    Error (lit "Mistral API Key not configured") = Error message
    /\ out = ({| world := world Mock.start;
                 trace := trace Mock.start
                          ++ [Notice ([0x274C] ++ lit " Error: " ++ message); Status []] |},
              Ok None)
    /\ filter is_completion (trace (fst out)) = filter is_completion (trace Mock.start)
    /\ filter is_vault_write (trace (fst out)) = filter is_vault_write (trace Mock.start).
Proof.
  exact (processImage_extraction_failure _ (Mock.ops None [] (Throw (Error []))) DEFAULT_SETTINGS []
           (lit "presets") (lit "QUJD") (lit "image/png") None None Mock.start Mock.start
           (Error (lit "Mistral API Key not configured")) eq_refl).
Defined.

Lemma processImage_folder_failure_witness :
  let answer :=
    Some {| pages := Some
      [ {| markdown := Some (lit "page");
           images := Some [ {| id := lit "img-0.jpeg"; imageBase64 := Some (lit "AAAA") |} ] |} ] |} in
  let host := Mock.ops answer [lit "notes/assets"] (Ok (lit "never asked")) in
  let out := processImage host Mock.with_key [] (lit "presets") (lit "QUJD") (lit "image/png")
               None None Mock.start in
  snd out = Ok None
  /\ filter is_completion (trace (fst out)) = []
  /\ ends_in [Notice ([0x274C] ++ lit " Error: " ++ lit "Folder already exists."); Status []]
       (trace (fst out)).
Proof.
  cbv zeta.
  rewrite (processImage_folder_failure _
             (Mock.ops
                (Some {| pages := Some
                   [ {| markdown := Some (lit "page");
                        images := Some [ {| id := lit "img-0.jpeg";
                                            imageBase64 := Some (lit "AAAA") |} ] |} ] |})
                [lit "notes/assets"] (Ok (lit "never asked")))
             Mock.with_key [] (lit "presets") (lit "QUJD") (lit "image/png") None None
             Mock.start _ _ {| result_markdown := lit "page";
                               result_images := [(lit "img-0.jpeg", lit "AAAA")] |}
             (Error (lit "Folder already exists.")) eq_refl
             ltac:(discriminate) ltac:(discriminate) eq_refl).
  split; [reflexivity|]. split; [reflexivity|].
  eexists. reflexivity.
Defined.

Lemma processImage_no_vault_write_witness :
  let answer :=
    Some {| pages := Some
      [ {| markdown := Some (lit "page");
           images := Some [ {| id := lit "img-0.jpeg"; imageBase64 := Some (lit "AAAA") |} ] |} ] |} in
  extractImages Fs.text_only = false
  /\ filter is_vault_write
       (trace (fst (processImage (Mock.ops answer [] (Ok (lit "text"))) Fs.text_only []
                      (lit "presets") (lit "QUJD") (lit "image/png") None None Mock.start)))
     = filter is_vault_write (trace Mock.start).
Proof.
  cbv zeta. split; [reflexivity|].
  exact (processImage_no_vault_write _
           (Mock.ops
              (Some {| pages := Some
                 [ {| markdown := Some (lit "page");
                      images := Some [ {| id := lit "img-0.jpeg";
                                          imageBase64 := Some (lit "AAAA") |} ] |} ] |})
              [] (Ok (lit "text")))
           Fs.text_only [] (lit "presets") (lit "QUJD") (lit "image/png") None None Mock.start
           eq_refl).
Defined.

Lemma adds_only_mono W A (Q1 Q2 : Event -> bool) (c : M W A) :
  (forall e, Q1 e = true -> Q2 e = true) -> adds_only Q1 c -> adds_only Q2 c.
Proof.
  intros Hq H st. destruct (H st) as (l & E & F). exists l. split; [exact E|].
  clear E. induction l as [|e l IH]; [reflexivity|].
  cbn [forallb] in *. apply andb_prop in F. destruct F as [F1 F2].
  rewrite (Hq e F1), (IH F2). reflexivity.
Qed.

Lemma try_catch_bind_ok W A B (c : M W A) (k : A -> M W B) h st st1 a :
  c st = (st1, Ok a) -> try_catch (bind c k) h st = try_catch (k a) h st1.
Proof. intros H. unfold try_catch, bind. rewrite H. reflexivity. Qed.

Lemma endsWith_app a b : endsWith b (a ++ b) = true.
Proof.
  unfold endsWith.
  assert (E : strip_suffix b (a ++ b) = Some a) by (apply strip_suffix_spec; reflexivity).
  rewrite E. reflexivity.
Qed.

Section RequestText.

Variable W : Type.
Variable host : Ops W.
Variable settings : AIOcrSettings.
Variables currentPreset presetsDir : jsstring.

Lemma formatText_asks rawText modelOverride customInstruction editor :
  adds_only (format_request (language settings) rawText)
    (formatText host settings currentPreset presetsDir rawText
       modelOverride customInstruction editor).
Proof.
  unfold formatText.
  apply adds_only_bind; [apply adds_only_ask|intros provider].
  apply adds_only_bind; [apply adds_only_ask|intros providerModel].
  apply adds_only_bind; [unfold setStatus; apply adds_only_emit; reflexivity|intros _].
  apply adds_only_bind; [apply adds_only_emit; reflexivity|intros _].
  apply adds_only_bind; [unfold getPresetContent; repeat adds_step|intros systemPrompt].
  apply adds_only_try_catch.
  - apply adds_only_bind.
    + assert (Q : forall sp model,
                format_request (language settings) rawText
                  (FetchWithRetry
                     {| model := model;
                        system_content := sp ++ [LF; LF] ++ zodInstruction;
                        user_content :=
                          lit "Format the following OCR text. Language: "
                          ++ language settings ++ lit "." ++ [LF; LF]
                          ++ lit "---" ++ [LF] ++ rawText ++ [LF] ++ lit "---" |}) = true).
      { intros sp model. unfold format_request. cbn [user_content system_content].
        rewrite eqb_refl, endsWith_app. reflexivity. }
      destruct provider.
      * apply adds_only_call. apply Q.
      * unfold localFetch. destruct (negb (truthy (openRouterApiKey settings))).
        -- apply adds_only_throw.
        -- apply adds_only_call. apply (Q _ _).
    + intros content. unfold normalize_response, clearStatus, setStatus. repeat adds_step.
  - intros msg. unfold clearStatus, setStatus. repeat adds_step.
Qed.

(** X19.  What the completion service is asked to format is the text
    the extraction returned: every completion request [processImage] makes
    carries, as its user message, the request to format the markdown of the
    OCR result in the configured language, and a system prompt that ends
    with the schema instruction. *)
Theorem processImage_request_text base64Data mimeType modelOverride customInstruction
  st st1 r :
  performMistralOCR host settings base64Data mimeType st = (st1, Ok r) ->
  exists l,
    trace (fst (processImage host settings currentPreset presetsDir base64Data mimeType
                  modelOverride customInstruction st))
    = trace st ++ l
    /\ forallb (format_request (language settings) (result_markdown r)) l = true.
Proof.
  intros H. unfold processImage. rewrite (try_catch_bind_ok _ _ _ _ _ _ _ _ _ H).
  destruct (performMistralOCR_adds _ host settings
              (format_request (language settings) (result_markdown r)) base64Data mimeType
              ltac:(intros []; exact I || reflexivity) st) as (l1 & E1 & F1).
  rewrite H in E1. cbn [fst] in E1.
  match goal with
  | |- exists l, trace (fst (?c st1)) = _ /\ forallb ?Q l = true =>
      assert (K : adds_only Q c)
  end.
  { apply adds_only_try_catch.
    - destruct (negb (truthy (result_markdown r))); [apply adds_only_throw|].
      apply adds_only_bind.
      + destruct (0 <? length (Obj.keys (result_images r)))%nat; [|apply adds_only_ret].
        apply adds_only_bind; [apply adds_only_ask|intros activeParent].
        apply adds_only_bind; [|intros _; apply adds_only_ret].
        apply (adds_only_mono _ _
                 (save_event (truthy (imageSubfolder settings))
                    (if truthy (imageSubfolder settings)
                     then or_else activeParent [] ++ lit "/" ++ imageSubfolder settings
                     else or_else activeParent [])
                    (Obj.keys (result_images r)))).
        * intros []; cbn; congruence.
        * apply saveOCRImages_adds.
      + intros _. apply adds_only_bind; [apply adds_only_emit; reflexivity|intros _].
        apply formatText_asks.
    - intros msg. unfold clearStatus, setStatus. repeat adds_step. }
  destruct (K st1) as (l2 & E2 & F2).
  exists (l1 ++ l2). rewrite E2, E1, app_assoc, forallb_app, F1, F2. auto.
Qed.

(** X20.  The custom instruction: one that is empty or holds
    whitespace only changes nothing, the call behaves as without an
    instruction; any other is passed on as given, untrimmed, in a block of
    its own at the end of the system prompt, in front of the schema
    instruction. *)
Theorem formatText_custom_instruction rawText modelOverride ci editor st :
  (trim ci = [] ->
   formatText host settings currentPreset presetsDir rawText modelOverride (Some ci) editor st
   = formatText host settings currentPreset presetsDir rawText modelOverride None editor st)
  /\ (trim ci <> [] ->
      exists l,
        trace (fst (formatText host settings currentPreset presetsDir rawText
                      modelOverride (Some ci) editor st))
        = trace st ++ l
        /\ forallb (instruction_request ci) l = true).
Proof.
  split.
  - intros H. unfold formatText. rewrite H. cbn [length Nat.ltb Nat.leb].
    rewrite andb_false_r. reflexivity.
  - intros H. revert st.
    change (adds_only (instruction_request ci)
              (formatText host settings currentPreset presetsDir rawText
                 modelOverride (Some ci) editor)).
    assert (Hc : truthy ci && (0 <? length (trim ci))%nat = true).
    { destruct ci as [|c ci']; [exfalso; apply H; reflexivity|].
      destruct (trim (c :: ci')); [congruence|reflexivity]. }
    unfold formatText. rewrite Hc.
    apply adds_only_bind; [apply adds_only_ask|intros provider].
    apply adds_only_bind; [apply adds_only_ask|intros providerModel].
    apply adds_only_bind; [unfold setStatus; apply adds_only_emit; reflexivity|intros _].
    apply adds_only_bind; [apply adds_only_emit; reflexivity|intros _].
    apply adds_only_bind; [unfold getPresetContent; repeat adds_step|intros systemPrompt].
    apply adds_only_try_catch.
    + apply adds_only_bind.
      * assert (Q : forall sp model user,
                  instruction_request ci
                    (FetchWithRetry
                       {| model := model;
                          system_content :=
                            (sp ++ [LF; LF] ++ lit "[USER CUSTOM INSTRUCTION]" ++ [LF] ++ ci)
                            ++ [LF; LF] ++ zodInstruction;
                          user_content := user |}) = true).
        { intros sp model user. unfold instruction_request. cbn [system_content].
          replace ((sp ++ [LF; LF] ++ lit "[USER CUSTOM INSTRUCTION]" ++ [LF] ++ ci)
                   ++ [LF; LF] ++ zodInstruction)
            with (sp ++ ([LF; LF] ++ lit "[USER CUSTOM INSTRUCTION]" ++ [LF] ++ ci
                         ++ [LF; LF] ++ zodInstruction))
            by (rewrite <- !app_assoc; reflexivity).
          apply endsWith_app. }
        destruct provider.
        -- apply adds_only_call. apply Q.
        -- unfold localFetch. destruct (negb (truthy (openRouterApiKey settings))).
           ++ apply adds_only_throw.
           ++ apply adds_only_call. apply (Q _ _ _).
      * intros content. unfold normalize_response, clearStatus, setStatus. repeat adds_step.
    + intros msg. unfold clearStatus, setStatus. repeat adds_step.
Qed.

End RequestText.

Lemma processImage_request_text_witness :
  let host := Mock.ops (Mock.answer [Mock.page (lit " A"); Mock.page (lit "B ")]) []
                (Ok (lit "text")) in
  exists l,
    trace (fst (processImage host Mock.with_key [] (lit "presets") (lit "QUJD") (lit "image/png")
                  None None Mock.start))
    = trace Mock.start ++ l
    /\ forallb (format_request (language Mock.with_key)
                  (lit "A" ++ page_separator ++ lit "B")) l = true.
Proof.
  cbv zeta.
  exact (processImage_request_text _
           (Mock.ops (Mock.answer [Mock.page (lit " A"); Mock.page (lit "B ")]) []
              (Ok (lit "text")))
           Mock.with_key [] (lit "presets") (lit "QUJD") (lit "image/png") None None
           Mock.start _
           {| result_markdown := lit "A" ++ page_separator ++ lit "B"; result_images := [] |}
           eq_refl).
Defined.

(** The user message of the one request of that run. *)
Example processImage_request_text_sent :
  flat_map (fun e => match e with RequestUrl request => [user_content (body request)] | _ => [] end)
    (trace (fst (processImage
                   (Mock.ops (Mock.answer [Mock.page (lit " A"); Mock.page (lit "B ")]) []
                      (Ok (lit "text")))
                   Mock.with_key [] (lit "presets") (lit "QUJD") (lit "image/png")
                   None None Mock.start)))
  = [lit "Format the following OCR text. Language: German." ++ [LF; LF]
     ++ lit "---" ++ [LF] ++ lit "A" ++ [LF; LF] ++ lit "---" ++ [LF; LF] ++ lit "B"
     ++ [LF] ++ lit "---"].
Proof. vm_compute. reflexivity. Qed.

(** The system prompt of the request made with the instruction
    [" be brief"] ends with that instruction and the schema instruction. *)
Example formatText_custom_instruction_sent :
  flat_map (fun e => match e with
                     | RequestUrl request =>
                         [endsWith ([LF; LF] ++ lit "[USER CUSTOM INSTRUCTION]" ++ [LF]
                                    ++ lit " be brief" ++ [LF; LF] ++ zodInstruction)
                            (system_content (body request))]
                     | _ => []
                     end)
    (trace (fst (formatText (Mock.ops None [] (Ok (lit "text"))) Mock.with_key []
                   (lit "presets") (lit "raw") None (Some (lit " be brief")) false
                   Mock.start)))
  = [true].
Proof. vm_compute. reflexivity. Qed.
(** ** The preset manager *)

Lemma default_paths_differ presetsDir :
  presetsDir ++ lit "/Academic Blue.md" <> presetsDir ++ lit "/Clean Markdown.md".
Proof. intros H. apply app_inv_head in H. discriminate. Qed.

Section Presets.

Variable W : Type.
Variable host : Ops W.
Variable adapter : DataAdapter W.
Variable presetsDir : jsstring.

(** What the adapter is assumed to do: creating a folder or writing a
    file removes nothing and changes no other file. *)
Hypothesis mkdir_keeps : forall p q w,
  adapter_exists host q w = true ->
  adapter_exists host q (fst (adapter_mkdir adapter p w)) = true
  /\ adapter_read host q (fst (adapter_mkdir adapter p w)) = adapter_read host q w.
Hypothesis write_keeps : forall p text q w,
  adapter_exists host q w = true ->
  adapter_exists host q (fst (adapter_write adapter p text w)) = true
  /\ (q <> p ->
      adapter_read host q (fst (adapter_write adapter p text w)) = adapter_read host q w).

Lemma write_unless_exists_keeps q v p text (st : State W) :
  adapter_exists host p (world st) = false ->
  adapter_exists host q (world st) = true /\ adapter_read host q (world st) = v ->
  adapter_exists host q (world (fst (effect (adapter_write adapter p text) st))) = true
  /\ adapter_read host q (world (fst (effect (adapter_write adapter p text) st))) = v.
Proof.
  intros Hp [Hq Hv]. rewrite effect_run. cbn [fst world].
  destruct (write_keeps p text q (world st) Hq) as [K1 K2].
  split; [exact K1|]. rewrite K2; [exact Hv|]. intros ->. congruence.
Qed.

(** X21.  Whatever exists when the plugin loads is still there
    afterwards, with the content it had: a default preset is written only
    where nothing of its name exists, so a preset the user has edited is
    never overwritten. *)
Theorem initializeDefaultPresets_keeps q st :
  adapter_exists host q (world st) = true ->
  let st' := fst (initializeDefaultPresets host adapter presetsDir st) in
  adapter_exists host q (world st') = true
  /\ adapter_read host q (world st') = adapter_read host q (world st).
Proof.
  intros H. cbv zeta.
  assert (K : invariant (fun w => adapter_exists host q w = true
                                  /\ adapter_read host q w = adapter_read host q (world st))
                (initializeDefaultPresets host adapter presetsDir)).
  { unfold initializeDefaultPresets, ensurePresetsDir.
    apply invariant_bind.
    - apply invariant_unless. intros s _ [Hq Hv]. rewrite effect_run. cbn [fst world].
      destruct (mkdir_keeps presetsDir q (world s) Hq) as [K1 K2].
      split; [exact K1|congruence].
    - intros _. apply invariant_unless_then.
      + intros s Hp Hs. apply write_unless_exists_keeps; assumption.
      + intros _. apply invariant_unless.
        intros s Hp Hs. apply write_unless_exists_keeps; assumption. }
  apply K. auto.
Qed.

End Presets.

Section PresetsAvailable.

Variable W : Type.
Variable host : Ops W.
Variable adapter : DataAdapter W.
Variable presetsDir : jsstring.

(** What the adapter is assumed to do: creating a folder or writing a
    file removes nothing, and leaves the folder or the file in
    existence when it succeeds. *)
Hypothesis mkdir_exists : forall p q w,
  adapter_exists host q w = true ->
  adapter_exists host q (fst (adapter_mkdir adapter p w)) = true.
Hypothesis write_exists : forall p text q w,
  adapter_exists host q w = true ->
  adapter_exists host q (fst (adapter_write adapter p text w)) = true.
Hypothesis mkdir_makes : forall p w,
  snd (adapter_mkdir adapter p w) = Ok tt ->
  adapter_exists host p (fst (adapter_mkdir adapter p w)) = true.
Hypothesis write_makes : forall p text w,
  snd (adapter_write adapter p text w) = Ok tt ->
  adapter_exists host p (fst (adapter_write adapter p text w)) = true.

Lemma write_unless_ok p text (st st1 : State W) u :
  bind (ask (adapter_exists host p))
    (fun e : bool => if e then ret tt else effect (adapter_write adapter p text)) st
  = (st1, Ok u) ->
  adapter_exists host p (world st1) = true
  /\ forall q, adapter_exists host q (world st) = true ->
               adapter_exists host q (world st1) = true.
Proof.
  unfold bind, ask. destruct (adapter_exists host p (world st)) eqn:E.
  - intros H. inversion H. subst. auto.
  - rewrite effect_run. intros H. inversion H. cbn [world]. split.
    + apply write_makes. destruct (snd (adapter_write adapter p text (world st))) as [[]|];
        [reflexivity|discriminate].
    + intros q Hq. apply write_exists, Hq.
Qed.

Lemma ensurePresetsDir_ok (st st1 : State W) u :
  ensurePresetsDir host adapter presetsDir st = (st1, Ok u) ->
  adapter_exists host presetsDir (world st1) = true
  /\ forall q, adapter_exists host q (world st) = true ->
               adapter_exists host q (world st1) = true.
Proof.
  unfold ensurePresetsDir, bind, ask.
  destruct (adapter_exists host presetsDir (world st)) eqn:E.
  - intros H. inversion H. subst. auto.
  - rewrite effect_run. intros H. inversion H. cbn [world]. split.
    + apply mkdir_makes. destruct (snd (adapter_mkdir adapter presetsDir (world st))) as [[]|];
        [reflexivity|discriminate].
    + intros q Hq. apply mkdir_exists, Hq.
Qed.

Lemma initializeDefaultPresets_noop (st : State W) :
  adapter_exists host presetsDir (world st) = true ->
  adapter_exists host (presetsDir ++ lit "/Academic Blue.md") (world st) = true ->
  adapter_exists host (presetsDir ++ lit "/Clean Markdown.md") (world st) = true ->
  initializeDefaultPresets host adapter presetsDir st = (st, Ok tt).
Proof.
  intros Hd H1 H2. unfold initializeDefaultPresets, ensurePresetsDir, bind, ask, ret.
  rewrite Hd, H1, H2. reflexivity.
Qed.

(** X22.  After a successful run the folder and both default presets
    exist, the preset named in the default settings among them, and a
    further run does nothing. *)
Theorem initializeDefaultPresets_available st st1 :
  initializeDefaultPresets host adapter presetsDir st = (st1, Ok tt) ->
  adapter_exists host presetsDir (world st1) = true
  /\ adapter_exists host
       (presetsDir ++ lit "/" ++ defaultPreset DEFAULT_SETTINGS ++ lit ".md") (world st1) = true
  /\ adapter_exists host (presetsDir ++ lit "/Clean Markdown.md") (world st1) = true
  /\ initializeDefaultPresets host adapter presetsDir st1 = (st1, Ok tt).
Proof.
  intros H.
  assert (G : adapter_exists host presetsDir (world st1) = true
              /\ adapter_exists host (presetsDir ++ lit "/Academic Blue.md") (world st1) = true
              /\ adapter_exists host (presetsDir ++ lit "/Clean Markdown.md") (world st1) = true).
  { unfold initializeDefaultPresets in H.
    apply bind_ok_inv in H. destruct H as (u0 & s0 & H0 & H).
    apply ensurePresetsDir_ok in H0. destruct H0 as [D0 M0].
    unfold bind at 1, ask at 1 in H.
    match type of H with
    | bind ?c ?k s0 = _ =>
        assert (H1 : exists u s1,
                   bind (ask (adapter_exists host (presetsDir ++ lit "/Academic Blue.md")))
                     (fun e : bool => if e then ret tt
                                      else effect (adapter_write adapter
                                                     (presetsDir ++ lit "/Academic Blue.md")
                                                     academic_blue_content)) s0 = (s1, Ok u)
                   /\ k u s1 = (st1, Ok tt))
    end.
    { apply bind_ok_inv in H. destruct H as (u & s1 & Hc & Hk).
      exists u, s1. split; [|exact Hk]. unfold bind, ask. exact Hc. }
    destruct H1 as (u1 & s1 & H1 & H2).
    apply write_unless_ok in H1. destruct H1 as [D1 M1].
    apply write_unless_ok in H2. destruct H2 as [D2 M2].
    auto. }
  destruct G as (G0 & G1 & G2).
  repeat split; try assumption.
  apply initializeDefaultPresets_noop; assumption.
Qed.

End PresetsAvailable.

(** The file system of the examples keeps what it has. *)
Lemma Fs_mkdir_keeps upload completion p q w :
  adapter_exists (Fs.host upload completion) q w = true ->
  adapter_exists (Fs.host upload completion) q (fst (adapter_mkdir Fs.adapter p w)) = true
  /\ adapter_read (Fs.host upload completion) q (fst (adapter_mkdir Fs.adapter p w))
     = adapter_read (Fs.host upload completion) q w.
Proof.
  cbn. intros H. split; [|reflexivity].
  destruct (Obj.get (Fs.documents w) q); [reflexivity|].
  unfold Fs.is_dir in *. cbn [Fs.dirs]. rewrite existsb_app, H. reflexivity.
Qed.

Lemma Fs_write_keeps upload completion p text q w :
  adapter_exists (Fs.host upload completion) q w = true ->
  adapter_exists (Fs.host upload completion) q (fst (adapter_write Fs.adapter p text w)) = true
  /\ (q <> p ->
      adapter_read (Fs.host upload completion) q (fst (adapter_write Fs.adapter p text w))
      = adapter_read (Fs.host upload completion) q w).
Proof.
  cbn. intros H. rewrite get_define. split.
  - destruct (JS.eqb p q); [reflexivity|exact H].
  - intros Hn. destruct (JS.eqb p q) eqn:E; [|reflexivity].
    apply eqb_eq in E. congruence.
Qed.

Lemma Fs_mkdir_makes upload completion p w :
  snd (adapter_mkdir Fs.adapter p w) = Ok tt ->
  adapter_exists (Fs.host upload completion) p (fst (adapter_mkdir Fs.adapter p w)) = true.
Proof.
  cbn. intros _. destruct (Obj.get (Fs.documents w) p); [reflexivity|].
  unfold Fs.is_dir. cbn [Fs.dirs]. rewrite existsb_app. cbn. rewrite eqb_refl.
  apply orb_true_r.
Qed.

Lemma Fs_write_makes upload completion p text w :
  snd (adapter_write Fs.adapter p text w) = Ok tt ->
  adapter_exists (Fs.host upload completion) p (fst (adapter_write Fs.adapter p text w)) = true.
Proof. cbn. intros _. rewrite get_define, eqb_refl. reflexivity. Qed.

Lemma initializeDefaultPresets_keeps_witness :
  let host := Fs.host (Ok None) (Throw (Error [])) in
  let q := lit "presets/Academic Blue.md" in
  let w := {| Fs.documents := [(q, lit "my own rules")]; Fs.dirs := [lit "presets"];
              Fs.selection := [] |} in
  let st' := fst (initializeDefaultPresets host Fs.adapter (lit "presets") (Fs.init w)) in
  adapter_exists host q (world st') = true
  /\ adapter_read host q (world st') = Ok (lit "my own rules").
Proof.
  cbv zeta.
  exact (initializeDefaultPresets_keeps _ (Fs.host (Ok None) (Throw (Error []))) Fs.adapter (lit "presets")
           (Fs_mkdir_keeps (Ok None) (Throw (Error []))) (Fs_write_keeps (Ok None) (Throw (Error [])))
           (lit "presets/Academic Blue.md")
           (Fs.init {| Fs.documents := [(lit "presets/Academic Blue.md", lit "my own rules")];
                        Fs.dirs := [lit "presets"]; Fs.selection := [] |})
           eq_refl).
Defined.

Lemma initializeDefaultPresets_available_witness :
  let host := Fs.host (Ok None) (Throw (Error [])) in
  let st1 := fst (initializeDefaultPresets host Fs.adapter (lit "presets") (Fs.init Fs.blank)) in
  adapter_exists host (lit "presets") (world st1) = true
  /\ adapter_exists host
       (lit "presets" ++ lit "/" ++ defaultPreset DEFAULT_SETTINGS ++ lit ".md") (world st1) = true
  /\ adapter_exists host (lit "presets" ++ lit "/Clean Markdown.md") (world st1) = true
  /\ initializeDefaultPresets host Fs.adapter (lit "presets") st1 = (st1, Ok tt).
Proof.
  cbv zeta.
  exact (initializeDefaultPresets_available _ (Fs.host (Ok None) (Throw (Error []))) Fs.adapter
           (lit "presets")
           (fun p q w H => proj1 (Fs_mkdir_keeps (Ok None) (Throw (Error [])) p q w H))
           (fun p text q w H => proj1 (Fs_write_keeps (Ok None) (Throw (Error [])) p text q w H))
           (Fs_mkdir_makes (Ok None) (Throw (Error []))) (Fs_write_makes (Ok None) (Throw (Error [])))
           (Fs.init Fs.blank) _ eq_refl).
Defined.

(** On an empty file system both presets are written, with their texts. *)
Example initializeDefaultPresets_fresh :
  world (fst (initializeDefaultPresets (Fs.host (Ok None) (Throw (Error []))) Fs.adapter (lit "presets")
                (Fs.init Fs.blank)))
  = {| Fs.documents := [(lit "presets/Academic Blue.md", academic_blue_content);
                    (lit "presets/Clean Markdown.md", clean_markdown_content)];
       Fs.dirs := [lit "presets"];
       Fs.selection := [] |}.
Proof. vm_compute. reflexivity. Qed.

(** *** Preset names *)

Lemma split1_app_fields sep : forall a b,
  exists f fs,
    split1 sep (a ++ sep :: b) = f :: fs
    /\ fs <> [] /\ last fs [] = last (split1 sep b) [].
Proof.
  induction a as [|x a IH]; intros b.
  - cbn [app split1]. rewrite N.eqb_refl.
    destruct (split1_cons sep b) as (f & fs & E).
    exists [], (split1 sep b). rewrite E. repeat split. discriminate.
  - cbn [app split1]. destruct (IH b) as (f & fs & E & Hn & Hl). rewrite E.
    destruct (x =? sep).
    + exists [], (f :: fs). repeat split; [discriminate|].
      destruct fs; [contradiction|exact Hl].
    + exists (x :: f), fs. auto.
Qed.

Lemma last_split1_app sep a b :
  last (split1 sep (a ++ sep :: b)) [] = last (split1 sep b) [].
Proof.
  destruct (split1_app_fields sep a b) as (f & fs & E & Hn & Hl). rewrite E.
  destruct fs; [contradiction|exact Hl].
Qed.

Lemma replace_string_suffix p : forall n,
  p <> [] ->
  (forall t u, t <> [] -> strip_prefix p (t ++ p) = Some u -> occurs p t = true) ->
  occurs p n = false -> replace_string p [] (n ++ p) = n.
Proof.
  intros n Hp Hs. induction n as [|x n IH]; intros Ho.
  - cbn [app]. destruct p as [|a p]; [contradiction|].
    cbn [replace_string].
    assert (E : strip_prefix (a :: p) (a :: p) = Some [])
      by (apply strip_prefix_spec; symmetry; apply app_nil_r).
    rewrite E. reflexivity.
  - cbn [app replace_string].
    destruct (strip_prefix p (x :: n ++ p)) as [u|] eqn:E.
    + rewrite (Hs (x :: n) u) in Ho; [discriminate|discriminate|exact E].
    + f_equal. apply IH. cbn [occurs] in Ho.
      destruct (strip_prefix p (x :: n)); [discriminate|exact Ho].
Qed.

Lemma md_no_overlap t u :
  t <> [] -> strip_prefix (lit ".md") (t ++ lit ".md") = Some u -> occurs (lit ".md") t = true.
Proof.
  intros Ht H. apply strip_prefix_spec in H.
  destruct t as [|a [|b [|c t]]]; [contradiction|discriminate|discriminate|].
  cbn in H. inversion H. subst. reflexivity.
Qed.

Lemma preset_name_of_path presetsDir name :
  existsb (N.eqb 47) name = false ->
  occurs (lit ".md") name = false ->
  endsWith (lit ".md") (presetsDir ++ lit "/" ++ name ++ lit ".md") = true
  /\ preset_name (presetsDir ++ lit "/" ++ name ++ lit ".md") = name.
Proof.
  intros Hs Ho. split.
  - unfold endsWith.
    assert (E : strip_suffix (lit ".md") (presetsDir ++ lit "/" ++ name ++ lit ".md")
                = Some (presetsDir ++ lit "/" ++ name))
      by (apply strip_suffix_spec; rewrite <- !app_assoc; reflexivity).
    rewrite E. reflexivity.
  - unfold preset_name.
    change (presetsDir ++ lit "/" ++ name ++ lit ".md")
      with (presetsDir ++ 47 :: (name ++ lit ".md")).
    rewrite last_split1_app, split1_no_sep.
    + cbn [last]. rewrite replace_string_suffix.
      * destruct name; reflexivity.
      * discriminate.
      * apply md_no_overlap.
      * exact Ho.
    + rewrite existsb_app, Hs. reflexivity.
Qed.

(** X23.  The names [getPresets] returns lead back to the files they
    were read from: for preset files [presetsDir/name.md] whose name holds
    neither a slash nor [.md], the names come back as they are, and
    [getPresetContent] reads the file of each name. *)
Theorem getPresets_round_trip W (host : Ops W) (adapter : DataAdapter W) presetsDir names st :
  adapter_exists host presetsDir (world st) = true ->
  Forall (fun name => existsb (N.eqb 47) name = false /\ occurs (lit ".md") name = false) names ->
  adapter_list adapter presetsDir (world st)
  = Ok (List.map (fun name => presetsDir ++ lit "/" ++ name ++ lit ".md") names) ->
  getPresets host adapter presetsDir st = (st, Ok names)
  /\ forall name, In name names ->
       adapter_exists host (presetsDir ++ lit "/" ++ name ++ lit ".md") (world st) = true ->
       getPresetContent host presetsDir name st
       = (st, match adapter_read host (presetsDir ++ lit "/" ++ name ++ lit ".md") (world st) with
              | Ok text => Ok (Some text)
              | Throw message => Throw message
              end).
Proof.
  intros Hd Hn Hl. split.
  - unfold getPresets, ensurePresetsDir, bind, ask, read, ret. rewrite Hd, Hl.
    f_equal. f_equal. clear Hl. induction Hn as [|name names [Hs Ho] _ IH]; [reflexivity|].
    cbn [List.map filter].
    destruct (preset_name_of_path presetsDir name Hs Ho) as [E1 E2].
    rewrite E1. cbn [List.map]. rewrite E2, IH. reflexivity.
  - intros name _ He. unfold getPresetContent, bind, ask, ret. rewrite He.
    destruct (adapter_read host _ (world st)); reflexivity.
Qed.

Lemma getPresets_round_trip_witness :
  let host := Fs.host (Ok None) (Throw (Error [])) in
  let w := {| Fs.documents := [(lit "presets/Academic Blue.md", lit "rules");
                           (lit "presets/My Notes.md", lit "notes")];
              Fs.dirs := [lit "presets"]; Fs.selection := [] |} in
  getPresets host Fs.adapter (lit "presets") (Fs.init w)
  = (Fs.init w, Ok [lit "Academic Blue"; lit "My Notes"]).
Proof.
  cbv zeta.
  refine (proj1 (getPresets_round_trip _ (Fs.host (Ok None) (Throw (Error []))) Fs.adapter (lit "presets")
                   [lit "Academic Blue"; lit "My Notes"]
                   (Fs.init {| Fs.documents := [(lit "presets/Academic Blue.md", lit "rules");
                                             (lit "presets/My Notes.md", lit "notes")];
                                Fs.dirs := [lit "presets"]; Fs.selection := [] |})
                   eq_refl _ eq_refl)).
  repeat constructor.
Defined.

(** A name that holds [.md] does not come back: the first [.md] of the
    file name is the one that is removed. *)
Example preset_name_inner_md :
  preset_name (lit "presets/v1.md.old.md") = lit "v1.old.md".
Proof. reflexivity. Qed.

(** ** The editor command *)

Section Command.

Variable W : Type.
Variable host : Ops W.
Variable settings : AIOcrSettings.
Variables currentPreset presetsDir : jsstring.
Variable editor : Editor W.

(** X24.  The command changes the selection only into the non-empty,
    repaired and normalised answer the completion service gave, on the
    route in use, to the request to format that selection.  A selection of
    fewer than five code units, whitespace at its ends not counted, is not
    formatted: the command shows a notice and does nothing else.  When the
    request fails or the result is empty, the editor is left alone. *)
Theorem format_selection_replaces st st' u :
  format_selection host settings currentPreset presetsDir editor st = (st', Ok u) ->
  let selection := getSelection editor (world st) in
  ((length (trim selection) < 5)%nat
   /\ st' = {| world := world st;
               trace := trace st
                        ++ [Notice ([0x26A0; 0xFE0F]
                                    ++ lit " Please select some text to format.")] |})
  \/ (exists st1 r,
        formatText host settings currentPreset presetsDir selection None None true st
        = (st1, Ok r)
        /\ (r = None \/ r = Some [])
        /\ world st' = world st1)
  \/ (exists st1 req content text,
        formatText host settings currentPreset presetsDir selection None None true st
        = (st1, Ok (Some text))
        /\ user_content req
           = lit "Format the following OCR text. Language: "
             ++ language settings ++ lit "." ++ [LF; LF]
             ++ lit "---" ++ [LF] ++ selection ++ [LF] ++ lit "---"
        /\ (if provider_present host (world st)
            then provider_fetchWithRetry host req (world st) = (world st1, Ok content)
            else exists request,
                   body request = req
                   /\ requestUrl host request (world st) = (world st1, Ok content))
        /\ text <> []
        /\ text = match parse_formatted (strip_fences (strip_think content)) with
                  | Some formatted_markdown => cleanLatexDelimiters formatted_markdown
                  | None => strip_fences (strip_think content)
                  end
        /\ world st' = replaceSelection editor text (world st1)).
Proof.
  cbv zeta. unfold format_selection. unfold bind at 1, ask at 1.
  destruct (negb (truthy (getSelection editor (world st)))
            || (length (trim (getSelection editor (world st))) <? 5)%nat) eqn:G.
  - intros H. left. split.
    + destruct (length (trim (getSelection editor (world st))) <? 5)%nat eqn:L.
      * apply Nat.ltb_lt in L. exact L.
      * rewrite orb_false_r in G. destruct (getSelection editor (world st)); [|discriminate].
        cbn. lia.
    + unfold emit in H. congruence.
  - intros H. apply bind_ok_inv in H. destruct H as (r & st1 & Hf & Hk).
    destruct r as [[|c text]|].
    + right. left. assert (Es : st' = st1) by (unfold ret in Hk; congruence). subst st'.
      exists st1, (Some []). auto.
    + right. right.
      destruct (formatText_ok _ _ _ _ _ _ _ _ _ _ _ _ Hf)
        as (l & _ & _ & req & content & Hu & Hc & Ho).
      rewrite effect_run in Hk.
      assert (Es : st' = {| world := replaceSelection editor (c :: text) (world st1);
                            trace := trace st1 |}) by (cbn [fst] in Hk; congruence).
      subst st'. cbn [world].
      exists st1, req, content, (c :: text).
      split; [exact Hf|]. split; [exact Hu|]. split; [exact Hc|].
      split; [discriminate|]. split; [exact Ho|reflexivity].
    + right. left. assert (Es : st' = st1) by (unfold ret in Hk; congruence). subst st'.
      exists st1, None. auto.
Qed.

End Command.

(** A selection of three letters between spaces is refused. *)
Example format_selection_short :
  let w := {| Fs.documents := []; Fs.dirs := []; Fs.selection := lit "  abc " |} in
  format_selection (Fs.host (Ok None) (Ok (lit "never asked"))) Mock.with_key [] (lit "presets")
    Fs.editor (Fs.init w)
  = ({| world := w;
        trace := [Notice ([0x26A0; 0xFE0F] ++ lit " Please select some text to format.")] |},
     Ok tt).
Proof. vm_compute. reflexivity. Qed.

Lemma format_selection_replaces_witness :
  let answer := lit "{" ++ [QUOTE] ++ lit "formatted_markdown" ++ [QUOTE] ++ lit ":"
                ++ [QUOTE] ++ lit "# Hello" ++ [QUOTE] ++ lit "}" in
  let host := Fs.host (Ok None) (Ok answer) in
  let w := {| Fs.documents := []; Fs.dirs := []; Fs.selection := lit "hello world" |} in
  let st' := fst (format_selection host Mock.with_key [] (lit "presets") Fs.editor (Fs.init w)) in
  Fs.selection (world st') = lit "# Hello"
  /\ (((length (trim (lit "hello world")) < 5)%nat
       /\ st' = {| world := w;
                   trace := [Notice ([0x26A0; 0xFE0F]
                                     ++ lit " Please select some text to format.")] |})
      \/ (exists st1 r,
            formatText host Mock.with_key [] (lit "presets") (lit "hello world") None None true
              (Fs.init w) = (st1, Ok r)
            /\ (r = None \/ r = Some [])
            /\ world st' = world st1)
      \/ (exists st1 req content text,
            formatText host Mock.with_key [] (lit "presets") (lit "hello world") None None true
              (Fs.init w) = (st1, Ok (Some text))
            /\ user_content req
               = lit "Format the following OCR text. Language: "
                 ++ language Mock.with_key ++ lit "." ++ [LF; LF]
                 ++ lit "---" ++ [LF] ++ lit "hello world" ++ [LF] ++ lit "---"
            /\ (if provider_present host w
                then provider_fetchWithRetry host req w = (world st1, Ok content)
                else exists request,
                       body request = req
                       /\ requestUrl host request w = (world st1, Ok content))
            /\ text <> []
            /\ text = match parse_formatted (strip_fences (strip_think content)) with
                      | Some formatted_markdown => cleanLatexDelimiters formatted_markdown
                      | None => strip_fences (strip_think content)
                      end
            /\ world st' = replaceSelection Fs.editor text (world st1))).
Proof.
  cbv zeta. split; [reflexivity|].
  exact (format_selection_replaces _
           (Fs.host (Ok None)
              (Ok (lit "{" ++ [QUOTE] ++ lit "formatted_markdown" ++ [QUOTE] ++ lit ":"
                   ++ [QUOTE] ++ lit "# Hello" ++ [QUOTE] ++ lit "}")))
           Mock.with_key [] (lit "presets") Fs.editor
           (Fs.init {| Fs.documents := []; Fs.dirs := []; Fs.selection := lit "hello world" |})
           _ tt eq_refl).
Defined.



(** The default preset is not among the presets: the first one is
    taken. *)
Example modal_preset_first :
  modal_preset DEFAULT_SETTINGS [lit "Clean Markdown"; lit "Mine"] = lit "Clean Markdown".
Proof. reflexivity. Qed.
